(** * fb-multi-streamer: stream orchestrator and FFmpeg pipeline compiler

    A shallow embedding of [electron/streaming/ffmpeg.ts] (the
    [FfmpegCommandBuilder]) and [electron/streaming/orchestrator.ts] (the
    [StreamOrchestrator]), together with the properties of the two that the
    specification states.

    Conventions of the embedding:
    - JavaScript numbers read from JSON are finite; they are modelled as
      rationals [Q], and the only non-finite value that the code can produce,
      [NaN] (from [Number] applied to a non-numeric string), is a separate
      constructor of [number].  IEEE rounding of products and quotients is not
      modelled.
    - Number-to-string conversion and [Number(string)] belong to the
      JavaScript runtime; they are the two methods of the class [JsNumber].
    - SQL tables keyed by a primary key are finite maps; [stream_sessions],
      which is queried by [job_id] and ordered, is a list of rows in insertion
      order.
    - An exception is a value of type [Error]; code that may throw returns a
      [Result]. *)

From Stdlib Require Import ZArith QArith Qround Qminmax String Ascii List DecimalString Lia Lqa.
From stdpp Require Import gmap strings list sorting.

(* ================================================================== *)
(** ** JavaScript strings *)
(* ================================================================== *)

Module Js.

(** [s.startsWith(pat)] *)
Fixpoint startsWith (s pat : string) : bool :=
  match pat, s with
  | EmptyString, _ => true
  | String p pat', String c s' => if Ascii.eqb c p then startsWith s' pat' else false
  | String _ _, EmptyString => false
  end.

(** [s.includes(pat)] *)
Fixpoint includes (s pat : string) : bool :=
  startsWith s pat
  || match s with
     | EmptyString => false
     | String _ s' => includes s' pat
     end.

Fixpoint dropChars (n : nat) (s : string) : string :=
  match n, s with
  | O, _ => s
  | S n', String _ s' => dropChars n' s'
  | S _, EmptyString => EmptyString
  end.

(** [s.replace(pat, repl)] with a string pattern: the first occurrence only.
    ([repl] never contains a dollar sign in this program.) *)
Fixpoint replaceFirst (pat repl s : string) : string :=
  if startsWith s pat then repl +:+ dropChars (String.length pat) s
  else match s with
       | EmptyString => EmptyString
       | String c s' => String c (replaceFirst pat repl s')
       end.

(** [s.replace(/c/g, repl)] for a one-character pattern. *)
Fixpoint replaceAllChar (c : ascii) (repl s : string) : string :=
  match s with
  | EmptyString => EmptyString
  | String d s' =>
      if Ascii.eqb d c then repl +:+ replaceAllChar c repl s'
      else String d (replaceAllChar c repl s')
  end.

(** [s.split(c)] for a one-character separator. *)
Fixpoint splitChar (c : ascii) (s : string) : list string :=
  match s with
  | EmptyString => [EmptyString]
  | String d s' =>
      if Ascii.eqb d c then EmptyString :: splitChar c s'
      else match splitChar c s' with
           | [] => [String d EmptyString]
           | p :: ps => String d p :: ps
           end
  end.

(** [xs.join(sep)] *)
Fixpoint join (sep : string) (xs : list string) : string :=
  match xs with
  | [] => EmptyString
  | [x] => x
  | x :: rest => x +:+ sep +:+ join sep rest
  end.

(** [s.slice(0, -1)] *)
Fixpoint dropLast (s : string) : string :=
  match s with
  | EmptyString => EmptyString
  | String c EmptyString => EmptyString
  | String c s' => String c (dropLast s')
  end.

(** Truthiness of a string, and of an optional (possibly undefined) one. *)
Definition truthy (s : string) : bool := negb (String.eqb s EmptyString).

Definition truthyOpt (o : option string) : bool :=
  match o with
  | Some s => truthy s
  | None => false
  end.

(** [o || d] on an optional string. *)
Definition orStr (o : option string) (d : string) : string :=
  match o with
  | Some s => if truthy s then s else d
  | None => d
  end.

(** A JavaScript number: finite, or [NaN]. *)
Inductive number : Type :=
  | NaN
  | Num (q : Q).

(** The runtime's conversions between numbers and strings. *)
Class JsNumber : Type := {
  showNum : Q -> string;          (* String(n) for a finite n *)
  parseNum : string -> number     (* Number(s) *)
}.

Definition showNumber `{JsNumber} (n : number) : string :=
  match n with
  | NaN => "NaN"
  | Num q => showNum q
  end.

Definition showZ `{JsNumber} (z : Z) : string := showNum (inject_Z z).

(** [Math.round]: the nearest integer, halves rounded up. *)
Definition round (q : Q) : Z := Qfloor (q + (1 # 2)).

(** Truthiness of a finite number, and [n || d]. *)
Definition nonzero (q : Q) : bool := negb (Qeq_bool q 0).

Definition orNum (o : option Q) (d : Q) : Q :=
  match o with
  | Some q => if nonzero q then q else d
  | None => d
  end.

(** [a > b] on finite numbers. *)
Definition gt (a b : Q) : bool := negb (Qle_bool a b).

(** A value that is either a number or a string (overlay coordinates). *)
Inductive NumOrStr : Type :=
  | OfNum (q : Q)
  | OfStr (s : string).

(** [v || 0] *)
Definition orZero (v : NumOrStr) : NumOrStr :=
  match v with
  | OfNum q => if nonzero q then v else OfNum 0
  | OfStr s => if truthy s then v else OfNum 0
  end.

(** [Number(v)] *)
Definition toNumber `{JsNumber} (v : NumOrStr) : number :=
  match v with
  | OfNum q => Num q
  | OfStr s => parseNum s
  end.

(** [n / d] for a finite non-zero divisor [d]. *)
Definition divBy (n : number) (d : Q) : number :=
  match n with
  | NaN => NaN
  | Num q => Num (q / d)
  end.

(** [String(v)] *)
Definition showNumOrStr `{JsNumber} (v : NumOrStr) : string :=
  match v with
  | OfNum q => showNum q
  | OfStr s => s
  end.

(** A concrete rendering of numbers: integers in decimal and short
    terminating decimals as JavaScript prints them ([0.04], [2.5]); other
    rationals as [p/q]. It is used for exit codes and in worked examples. *)
Definition showUint (n : N) : string :=
  DecimalString.NilZero.string_of_uint (N.to_uint n).

Fixpoint padZeros (width : nat) (s : string) : string :=
  match (width - String.length s)%nat with
  | O => s
  | S _ => match width with
           | O => s
           | S w => "0" +:+ padZeros w s
           end
  end.

Fixpoint decimalDigits (fuel : nat) (k : nat) (num den : N) : option (nat * N) :=
  if (N.modulo (num * 10 ^ N.of_nat k) den =? 0)%N
  then Some (k, (num * 10 ^ N.of_nat k / den)%N)
  else match fuel with
       | O => None
       | S fuel' => decimalDigits fuel' (S k) num den
       end.

Definition showDecimal (q : Q) : string :=
  let r := Qred q in
  let sign := if (Qnum r <? 0)%Z then "-" else "" in
  let num := Z.abs_N (Qnum r) in
  let den := Npos (Qden r) in
  match decimalDigits 8 0 num den with
  | Some (O, v) => sign +:+ showUint v
  | Some (k, v) =>
      sign +:+ showUint (v / 10 ^ N.of_nat k)%N +:+ "."
      +:+ padZeros k (showUint (v mod 10 ^ N.of_nat k)%N)
  | None => sign +:+ showUint num +:+ "/" +:+ showUint den
  end.

(** No string of the examples is numeric. *)
Definition exampleNumber : JsNumber :=
  {| showNum := showDecimal; parseNum := fun _ => NaN |}.

End Js.

(* ================================================================== *)
(** ** Hardware capability fact ([hardware.ts]) *)
(* ================================================================== *)

Module Hardware.

Record Encoders : Type := {
  nvenc : bool;
  qsv : bool;
  amf : bool;
  vaapi : bool
}.

Definition getBestEncoder (info : Encoders) : string :=
  if nvenc info then "h264_nvenc"
  else if qsv info then "h264_qsv"
  else if amf info then "h264_amf"
  else if vaapi info then "h264_vaapi"
  else "libx264".

End Hardware.

(* ================================================================== *)
(** ** The pipeline compiler ([ffmpeg.ts]) *)
(* ================================================================== *)

Module Ffmpeg.
Import Js.

(** *** [ProfileData] *)

Record Crop : Type := { crop_width : Q; crop_height : Q; crop_x : Q; crop_y : Q }.
Record Offset : Type := { offset_x : Q; offset_y : Q }.
Record Flip : Type := { horizontal : bool; vertical : bool }.
Record Scale : Type := { scale_width : Q; scale_height : Q }.

Inductive AspectRatio : Type := AR_16_9 | AR_9_16 | AR_4_5 | AR_1_1 | AR_Custom.

Record Trim : Type := { trim_start : option NumOrStr; trim_end : option NumOrStr }.

Record Color : Type := {
  brightness : Q;
  contrast : Q;
  saturation : Q;
  gamma : Q;
  sharpness : option Q
}.

Inductive BgType : Type := BgBlack | BgBlur | BgMirror | BgImage.

Record Background : Type := { bg_type : BgType; bg_imagePath : option string }.

Inductive OverlayType : Type := OvText | OvImage.
Inductive Animation : Type := AnimNone | ScrollLeft | ScrollRight | Fade.
Record Shadow : Type := { shadow_x : Q; shadow_y : Q; shadow_color : string }.
Record Outline : Type := { outline_width : Q; outline_color : string }.

Record Overlay : Type := {
  ov_type : OverlayType;
  ov_content : option string;
  ov_x : NumOrStr;
  ov_y : NumOrStr;
  ov_opacity : Q;
  ov_size : option Q;
  ov_color : option string;
  ov_bannerColor : option string;
  ov_bannerOpacity : option Q;
  ov_bannerPadding : option Q;
  ov_shadow : option Shadow;
  ov_outline : option Outline;
  ov_font : option string;
  ov_animation : option Animation
}.

Record Audio : Type := { volume : Q; normalize : option bool; pitch : option Q }.

Inductive ProtectionType : Type :=
  | PtBlack | PtWhite | PtStatic | PtGrayscale | PtBlur | PtImage
  | PtSubtleNoise | PtColorShift | PtMirrorEdge.

Inductive ProtectionMode : Type := ModeTime | ModeFrame | ModeRandom.

(** [duration] is declared as required, yet the code guards a missing one
    ([duration || 0.04]); the model admits both. *)
Record Protection : Type := {
  pr_type : ProtectionType;
  pr_mode : option ProtectionMode;
  pr_interval : Q;
  pr_duration : option Q;
  pr_strength : option Q;
  pr_injectionFrames : option Q;
  pr_imagePath : option string
}.

Record ProfileData : Type := {
  crop : option Crop;
  offset : option Offset;
  rotate : option Q;              (* rotate.angle *)
  flip : option Flip;
  scale : option Scale;
  aspectRatio : option AspectRatio;
  trim : option Trim;
  loop : option bool;
  color : option Color;
  zoom : option Q;
  background : option Background;
  overlays : list Overlay;
  speed : option Q;
  audio : option Audio;
  protection : option Protection
}.

(** *** The builder's fields *)

Record Logo : Type := {
  logo_path : string;
  logo_x : NumOrStr;
  logo_y : NumOrStr;
  logo_width : option Q;
  logo_height : option Q;
  logo_enable : option string
}.

Record Builder : Type := {
  inputPath : string;
  rtmpUrl : option string;
  bitrate : Z;
  audioBitrate : Z;
  videoFilters : list string;
  audioFilters : list string;
  logoInputs : list Logo;
  backgroundInput : option string;
  trimArgs : list string;
  b_loop : bool;
  targetW : Q;
  targetH : Q
}.

(** [new FfmpegCommandBuilder(inputPath)] *)
Definition newBuilder (path : string) : Builder :=
  {| inputPath := path; rtmpUrl := None; bitrate := 4500; audioBitrate := 128;
     videoFilters := []; audioFilters := []; logoInputs := [];
     backgroundInput := None; trimArgs := []; b_loop := true;
     targetW := 1920; targetH := 1080 |}.

Definition pushVideo (f : string) (b : Builder) : Builder :=
  {| inputPath := inputPath b; rtmpUrl := rtmpUrl b; bitrate := bitrate b;
     audioBitrate := audioBitrate b; videoFilters := videoFilters b ++ [f];
     audioFilters := audioFilters b; logoInputs := logoInputs b;
     backgroundInput := backgroundInput b; trimArgs := trimArgs b;
     b_loop := b_loop b; targetW := targetW b; targetH := targetH b |}.

Definition pushAudio (f : string) (b : Builder) : Builder :=
  {| inputPath := inputPath b; rtmpUrl := rtmpUrl b; bitrate := bitrate b;
     audioBitrate := audioBitrate b; videoFilters := videoFilters b;
     audioFilters := audioFilters b ++ [f]; logoInputs := logoInputs b;
     backgroundInput := backgroundInput b; trimArgs := trimArgs b;
     b_loop := b_loop b; targetW := targetW b; targetH := targetH b |}.

Definition pushLogo (l : Logo) (b : Builder) : Builder :=
  {| inputPath := inputPath b; rtmpUrl := rtmpUrl b; bitrate := bitrate b;
     audioBitrate := audioBitrate b; videoFilters := videoFilters b;
     audioFilters := audioFilters b; logoInputs := logoInputs b ++ [l];
     backgroundInput := backgroundInput b; trimArgs := trimArgs b;
     b_loop := b_loop b; targetW := targetW b; targetH := targetH b |}.

Definition pushTrim (xs : list string) (b : Builder) : Builder :=
  {| inputPath := inputPath b; rtmpUrl := rtmpUrl b; bitrate := bitrate b;
     audioBitrate := audioBitrate b; videoFilters := videoFilters b;
     audioFilters := audioFilters b; logoInputs := logoInputs b;
     backgroundInput := backgroundInput b; trimArgs := trimArgs b ++ xs;
     b_loop := b_loop b; targetW := targetW b; targetH := targetH b |}.

Definition setLoop (l : bool) (b : Builder) : Builder :=
  {| inputPath := inputPath b; rtmpUrl := rtmpUrl b; bitrate := bitrate b;
     audioBitrate := audioBitrate b; videoFilters := videoFilters b;
     audioFilters := audioFilters b; logoInputs := logoInputs b;
     backgroundInput := backgroundInput b; trimArgs := trimArgs b;
     b_loop := l; targetW := targetW b; targetH := targetH b |}.

Definition setTarget (w h : Q) (b : Builder) : Builder :=
  {| inputPath := inputPath b; rtmpUrl := rtmpUrl b; bitrate := bitrate b;
     audioBitrate := audioBitrate b; videoFilters := videoFilters b;
     audioFilters := audioFilters b; logoInputs := logoInputs b;
     backgroundInput := backgroundInput b; trimArgs := trimArgs b;
     b_loop := b_loop b; targetW := w; targetH := h |}.

Definition setBackgroundInput (p : string) (b : Builder) : Builder :=
  {| inputPath := inputPath b; rtmpUrl := rtmpUrl b; bitrate := bitrate b;
     audioBitrate := audioBitrate b; videoFilters := videoFilters b;
     audioFilters := audioFilters b; logoInputs := logoInputs b;
     backgroundInput := Some p; trimArgs := trimArgs b;
     b_loop := b_loop b; targetW := targetW b; targetH := targetH b |}.

Definition setRtmpUrl (u : string) (b : Builder) : Builder :=
  {| inputPath := inputPath b; rtmpUrl := Some u; bitrate := bitrate b;
     audioBitrate := audioBitrate b; videoFilters := videoFilters b;
     audioFilters := audioFilters b; logoInputs := logoInputs b;
     backgroundInput := backgroundInput b; trimArgs := trimArgs b;
     b_loop := b_loop b; targetW := targetW b; targetH := targetH b |}.

(** *** [applyProfile], stage by stage *)

Section Compiler.
Context `{JsNumber}.

(** 0. Looping *)
Definition stageLoop (p : ProfileData) (b : Builder) : Builder :=
  match loop p with
  | Some l => setLoop l b
  | None => b
  end.

(** 1. Trimming *)
Definition trimBound (flag : string) (o : option NumOrStr) : list string :=
  match o with
  | None => []
  | Some (OfStr EmptyString) => []
  | Some v => [flag; showNumOrStr v]
  end.

Definition stageTrim (p : ProfileData) (b : Builder) : Builder :=
  match trim p with
  | Some t => pushTrim (trimBound "-to" (trim_end t))
                (pushTrim (trimBound "-ss" (trim_start t)) b)
  | None => b
  end.

(** 2. Crop *)
Definition stageCrop (p : ProfileData) (b : Builder) : Builder :=
  match crop p with
  | Some c =>
      if gt (crop_width c) 0 && gt (crop_height c) 0
      then pushVideo ("crop=" +:+ showNum (crop_width c) +:+ ":" +:+ showNum (crop_height c)
                      +:+ ":" +:+ showNum (crop_x c) +:+ ":" +:+ showNum (crop_y c)) b
      else b
  | None => b
  end.

(** 3. Smart layout: target resolution *)
Definition targetOf (p : ProfileData) : Q * Q :=
  match aspectRatio p with
  | Some AR_1_1 => (1080%Q, 1080%Q)
  | Some AR_4_5 => (1080%Q, 1350%Q)
  | Some AR_9_16 => (1080%Q, 1920%Q)
  | Some AR_16_9 => (1920%Q, 1080%Q)
  | Some AR_Custom | None =>
      match scale p with
      | Some sc => (scale_width sc, scale_height sc)
      | None => (1920%Q, 1080%Q)
      end
  end.

(** [profile.zoom || 1.0] and [profile.background?.type || 'black'] *)
Definition zoomOf (p : ProfileData) : Q := orNum (zoom p) 1.

Definition bgTypeOf (p : ProfileData) : BgType :=
  match background p with
  | Some bg => bg_type bg
  | None => BgBlack
  end.

Definition isBlack (t : BgType) : bool :=
  match t with BgBlack => true | _ => false end.

Definition needsSmartLayout (p : ProfileData) : bool :=
  negb (Qeq_bool (zoomOf p) 1) || negb (isBlack (bgTypeOf p)).

(** The simple default scaling. *)
Definition scalePad (w h : Q) : string :=
  "scale=" +:+ showNum w +:+ ":" +:+ showNum h
  +:+ ":force_original_aspect_ratio=decrease,pad=" +:+ showNum w +:+ ":" +:+ showNum h
  +:+ ":(ow-iw)/2:(oh-ih)/2".

Definition fgChain (z w h : Q) : string :=
  "[fg_src]scale=iw*" +:+ showNum z +:+ ":ih*" +:+ showNum z
  +:+ ",scale=w=" +:+ showNum w +:+ ":h=" +:+ showNum h
  +:+ ":force_original_aspect_ratio=decrease[fg]".

(** The image path of an image background, when it is usable. *)
Definition bgImageOf (p : ProfileData) : option string :=
  match background p with
  | Some bg =>
      match bg_type bg, bg_imagePath bg with
      | BgImage, Some path => if truthy path then Some path else None
      | _, _ => None
      end
  | None => None
  end.

Definition bgChain (p : ProfileData) (w h : Q) : string :=
  match bgTypeOf p with
  | BgBlur =>
      "[bg_src]scale=" +:+ showNum w +:+ ":" +:+ showNum h
      +:+ ":force_original_aspect_ratio=increase,crop=" +:+ showNum w +:+ ":" +:+ showNum h
      +:+ ",boxblur=luma_radius=min(h\,w)/10:luma_power=1[bg]"
  | BgMirror =>
      "[bg_src]scale=" +:+ showNum w +:+ ":" +:+ showNum h
      +:+ ":force_original_aspect_ratio=increase,crop=" +:+ showNum w +:+ ":" +:+ showNum h
      +:+ ",hflip,boxblur=20[bg]"
  | _ =>
      match bgImageOf p with
      | Some _ =>
          "[bg_img]scale=" +:+ showNum w +:+ ":" +:+ showNum h
          +:+ ":force_original_aspect_ratio=increase,crop=" +:+ showNum w +:+ ":" +:+ showNum h
          +:+ "[bg]"
      | None => "color=c=black:s=" +:+ showNum w +:+ "x" +:+ showNum h +:+ "[bg]"
      end
  end.

(** [(W-w)/2+(offX*W/100):(H-h)/2+(offY*H/100)] with [offset?.x || 0]. *)
Definition overlayAt (p : ProfileData) : string :=
  let offX := orNum (option_map offset_x (offset p)) 0 in
  let offY := orNum (option_map offset_y (offset p)) 0 in
  "[bg][fg]overlay=(W-w)/2+(" +:+ showNum offX +:+ "*W/100):(H-h)/2+("
  +:+ showNum offY +:+ "*H/100)".

Definition smartGraph (p : ProfileData) (w h : Q) : string :=
  let fg := fgChain (zoomOf p) w h in
  match bgTypeOf p with
  | BgBlack =>
      "split=1[fg_src];color=c=black:s=" +:+ showNum w +:+ "x" +:+ showNum h +:+ "[bg];"
      +:+ fg +:+ ";" +:+ overlayAt p
  | BgImage =>
      "split=1[fg_src];" +:+ bgChain p w h +:+ ";" +:+ fg +:+ ";" +:+ overlayAt p
  | BgBlur | BgMirror =>
      "split=2[bg_src][fg_src];" +:+ bgChain p w h +:+ ";" +:+ fg +:+ ";" +:+ overlayAt p
  end.

(** The single entry that stage 3 pushes onto [videoFilters]. *)
Definition layoutFilter (p : ProfileData) : string :=
  let '(w, h) := targetOf p in
  if needsSmartLayout p then smartGraph p w h else scalePad w h.

Definition stageLayout (p : ProfileData) (b : Builder) : Builder :=
  let '(w, h) := targetOf p in
  let b1 := setTarget w h b in
  let b2 := if needsSmartLayout p
            then match bgTypeOf p, bgImageOf p with
                 | BgImage, Some path => setBackgroundInput path b1
                 | _, _ => b1
                 end
            else b1 in
  pushVideo (layoutFilter p) b2.

(** 4. Rotate *)
Definition stageRotate (p : ProfileData) (b : Builder) : Builder :=
  match rotate p with
  | Some angle =>
      if Qeq_bool angle 90 then pushVideo "transpose=1" b
      else if Qeq_bool angle 180 then pushVideo "transpose=2,transpose=2" b
      else if Qeq_bool angle 270 then pushVideo "transpose=2" b
      else b
  | None => b
  end.

(** 5. Flip *)
Definition stageFlip (p : ProfileData) (b : Builder) : Builder :=
  match flip p with
  | Some f =>
      let b1 := if horizontal f then pushVideo "hflip" b else b in
      if vertical f then pushVideo "vflip" b1 else b1
  | None => b
  end.

(** 6. Colour corrections and sharpness *)
Definition eqParams (c : Color) : list string :=
  (if negb (Qeq_bool (brightness c) 0) then ["brightness=" +:+ showNum (brightness c)] else [])
  ++ (if negb (Qeq_bool (contrast c) 1) then ["contrast=" +:+ showNum (contrast c)] else [])
  ++ (if negb (Qeq_bool (saturation c) 1) then ["saturation=" +:+ showNum (saturation c)] else [])
  ++ (if negb (Qeq_bool (gamma c) 1) then ["gamma=" +:+ showNum (gamma c)] else []).

Definition stageColor (p : ProfileData) (b : Builder) : Builder :=
  match color p with
  | Some c =>
      let b1 := match eqParams c with
                | [] => b
                | ps => pushVideo ("eq=" +:+ join ":" ps) b
                end in
      match sharpness c with
      | Some sh =>
          if nonzero sh && gt sh 0
          then pushVideo ("unsharp=5:5:" +:+ showNum (1 + sh * (5 # 2))%Q
                          +:+ ":5:5:" +:+ showNum ((1 # 2) + sh * 1)%Q) b1
          else b1
      | None => b1
      end
  | None => b
  end.

(** 7. Copyright protection (frame injection) *)
Definition isTimeMode (m : option ProtectionMode) : bool :=
  match m with Some ModeTime => true | _ => false end.

Definition protectionActive (pr : Protection) : bool :=
  gt (pr_interval pr) 0
  || (negb (isTimeMode (pr_mode pr)) && gt (orNum (pr_injectionFrames pr) 0) 0).

Definition frameInterval (pr : Protection) : Z := Z.max 2 (round (pr_interval pr)).

Definition frameInjection (pr : Protection) : Z :=
  Z.max 1 (round (orNum (pr_injectionFrames pr) 1)).

Definition randomProb (pr : Protection) : Q :=
  let denom := Qmax 1 (pr_interval pr) in
  let num := Qmax 1 (orNum (pr_injectionFrames pr) 1) in
  Qmin 1 (num / denom).

Definition timeInterval (pr : Protection) : Q := Qmax (1 # 10) (pr_interval pr).

Definition timeDuration (pr : Protection) : Q := orNum (pr_duration pr) (4 # 100).

Definition enableExpr (pr : Protection) : string :=
  match pr_mode pr with
  | Some ModeFrame =>
      "lt(mod(n," +:+ showZ (frameInterval pr) +:+ ")," +:+ showZ (frameInjection pr) +:+ ")"
  | Some ModeRandom => "lt(random(1)," +:+ showNum (randomProb pr) +:+ ")"
  | Some ModeTime | None =>
      "lt(mod(t," +:+ showNum (timeInterval pr) +:+ ")," +:+ showNum (timeDuration pr) +:+ ")"
  end.

(** What one protection descriptor contributes: a video filter, or an image
    input composited in [build]. *)
Inductive Effect : Type :=
  | EffFilter (f : string)
  | EffLogo (l : Logo).

Definition enableSuffix (e : string) : string := ":enable='" +:+ e +:+ "'".

Definition protectionEffect (pr : Protection) : Effect :=
  let e := enableExpr pr in
  let str := orNum (pr_strength pr) 1 in
  let drawbox c := EffFilter ("drawbox=t=fill:color=" +:+ c +:+ enableSuffix e) in
  match pr_type pr with
  | PtStatic =>
      EffFilter ("noise=alls=" +:+ showZ (round (100 * str)) +:+ ":allf=t+u" +:+ enableSuffix e)
  | PtGrayscale => EffFilter ("hue=s=0" +:+ enableSuffix e)
  | PtBlur =>
      EffFilter ("boxblur=luma_radius=" +:+ showZ (round (10 * str)) +:+ ":luma_power=1"
                 +:+ enableSuffix e)
  | PtSubtleNoise => EffFilter ("noise=alls=" +:+ showZ (round (5 * str)) +:+ ":allf=t")
  | PtColorShift => EffFilter ("hue=h=sin(t*" +:+ showNum str +:+ ")*10" +:+ enableSuffix e)
  | PtMirrorEdge => EffFilter ("crop=iw-4:ih:2:0,hflip,pad=iw+4:ih:2:0" +:+ enableSuffix e)
  | PtImage =>
      match pr_imagePath pr with
      | Some path =>
          if truthy path
          then EffLogo {| logo_path := path; logo_x := OfStr "(W-w)/2"; logo_y := OfStr "(H-h)/2";
                          logo_width := None; logo_height := None; logo_enable := Some e |}
          else drawbox "black"
      | None => drawbox "black"
      end
  | PtWhite => drawbox "white"
  | PtBlack => drawbox "black"
  end.

Definition stageProtection (p : ProfileData) (b : Builder) : Builder :=
  match protection p with
  | Some pr =>
      if protectionActive pr
      then match protectionEffect pr with
           | EffFilter f => pushVideo f b
           | EffLogo l => pushLogo l b
           end
      else b
  | None => b
  end.

(** 8. Overlays and banners *)
Definition escapeText (s : string) : string :=
  replaceAllChar ":" "\:" (replaceAllChar "'" "'\\''" s).

Definition escapeFontPath (s : string) : string :=
  replaceAllChar ":" "\:" (replaceAllChar "\" "/" s).

(** [params[i].split('=')[1]] *)
Definition afterEquals (params : list string) (i : nat) : string :=
  match params !! i with
  | Some s => nth 1 (splitChar "=" s) "undefined"
  | None => "undefined"
  end.

Definition textParams (o : Overlay) (content : string) : list string :=
  let fontSize := orNum (ov_size o) 24 in
  let x := orZero (ov_x o) in
  let y := orZero (ov_y o) in
  let fontColor := orStr (ov_color o) "white" in
  let fontPath := orStr (ov_font o) "C:/Windows/Fonts/Arial.ttf" in
  let base :=
    [ "text='" +:+ escapeText content +:+ "'";
      "x=w*" +:+ showNumber (divBy (toNumber x) 100);
      "y=h*" +:+ showNumber (divBy (toNumber y) 100);
      "fontsize=w*(" +:+ showNum fontSize +:+ "/1000)";
      "fontcolor=" +:+ fontColor;
      "alpha=" +:+ showNum (ov_opacity o);
      "fontfile='" +:+ escapeFontPath fontPath +:+ "'" ] in
  let withShadow :=
    match ov_shadow o with
    | Some sh => base ++ [ "shadowcolor=" +:+ shadow_color sh;
                           "shadowx=" +:+ showNum (shadow_x sh);
                           "shadowy=" +:+ showNum (shadow_y sh) ]
    | None => base
    end in
  let withOutline :=
    match ov_outline o with
    | Some ol =>
        if gt (outline_width ol) 0
        then withShadow ++ [ "borderw=" +:+ showNum (outline_width ol);
                             "bordercolor=" +:+ outline_color ol ]
        else withShadow
    | None => withShadow
    end in
  match ov_animation o with
  | Some ScrollLeft => <[1%nat := "x=w-mod(t*100\,w+tw)"]> withOutline
  | Some ScrollRight => <[1%nat := "x=-tw+mod(t*100\,w+tw)"]> withOutline
  | Some Fade =>
      <[5%nat := "alpha=if(lt(mod(t\,4)\,2)\,mod(t\,2)\,2-mod(t\,2))"]> withOutline
  | Some AnimNone | None => withOutline
  end.

Definition bannerFilter (o : Overlay) (bc : string) (params : list string) : string :=
  let bo := orNum (ov_bannerOpacity o) (1 # 2) in
  let bp := orNum (ov_bannerPadding o) 10 in
  "drawbox=x=" +:+ afterEquals params 1 +:+ "-" +:+ showNum bp
  +:+ ":y=" +:+ afterEquals params 2 +:+ "-" +:+ showNum bp
  +:+ ":w=tw+" +:+ showNum (bp * 2)%Q +:+ ":h=th+" +:+ showNum (bp * 2)%Q
  +:+ ":color=" +:+ bc +:+ "@" +:+ showNum bo +:+ ":t=fill".

Definition applyOverlay (b : Builder) (o : Overlay) : Builder :=
  match ov_content o with
  | Some content =>
      if truthy content
      then match ov_type o with
           | OvText =>
               let params := textParams o content in
               let b1 := match ov_bannerColor o with
                         | Some bc => if truthy bc then pushVideo (bannerFilter o bc params) b else b
                         | None => b
                         end in
               pushVideo ("drawtext=" +:+ join ":" params) b1
           | OvImage =>
               pushLogo {| logo_path := content; logo_x := ov_x o; logo_y := ov_y o;
                           logo_width := ov_size o; logo_height := Some (-1)%Q;
                           logo_enable := None |} b
           end
      else b
  | None => b
  end.

Definition stageOverlays (p : ProfileData) (b : Builder) : Builder :=
  fold_left applyOverlay (overlays p) b.

(** 9. Speed *)
Definition stageSpeed (p : ProfileData) (b : Builder) : Builder :=
  match speed p with
  | Some sp =>
      if nonzero sp && negb (Qeq_bool sp 1)
      then pushAudio ("atempo=" +:+ showNum sp)
             (pushVideo ("setpts=" +:+ showNum (1 / sp)%Q +:+ "*PTS") b)
      else b
  | None => b
  end.

(** 10. Audio *)
Definition stageAudio (p : ProfileData) (b : Builder) : Builder :=
  match audio p with
  | Some a =>
      let b1 := if negb (Qeq_bool (volume a) 1)
                then pushAudio ("volume=" +:+ showNum (volume a)) b else b in
      let b2 := match normalize a with
                | Some true => pushAudio "loudnorm" b1
                | _ => b1
                end in
      match pitch a with
      | Some pt =>
          if nonzero pt && negb (Qeq_bool pt 1)
          then pushAudio ("asetrate=" +:+ showNum (44100 * pt)%Q +:+ ",aresample=" +:+ showNum 44100) b2
          else b2
      | None => b2
      end
  | None => b
  end.

Definition applyProfile (p : ProfileData) (b : Builder) : Builder :=
  stageAudio p (stageSpeed p (stageOverlays p (stageProtection p (stageColor p
    (stageFlip p (stageRotate p (stageLayout p (stageCrop p (stageTrim p
      (stageLoop p b)))))))))).

(** *** [build]: argument assembly *)

(** Index of the background image among the inputs: 0 is the main content,
    logos are 1..N, the background is N+1; [-1] when there is none. *)
Definition bgInputIdx (b : Builder) : Z :=
  match backgroundInput b with
  | Some _ => 1 + Z.of_nat (length (logoInputs b))
  | None => -1
  end.

Definition inputArgs (b : Builder) : list string :=
  ["-i"; inputPath b]
  ++ flat_map (fun l => ["-i"; logo_path l]) (logoInputs b)
  ++ match backgroundInput b with
     | Some bg => ["-i"; bg]
     | None => []
     end.

(** The base chain of the complex filter, up to and including [[vbase];]. *)
Definition baseChain (b : Builder) : string :=
  "[0:v]"
  +:+ match videoFilters b with
      | [] => "null"
      | fs =>
          let chainStr := join "," fs in
          if negb (bgInputIdx b =? -1)%Z
          then replaceFirst "[bg_img]" ("[" +:+ showZ (bgInputIdx b) +:+ ":v]") chainStr
          else chainStr
      end
  +:+ "[vbase];".

(** A logo dimension: permille of the target, or [-1]. *)
Definition logoDim (target : Q) (d : option Q) : Z :=
  match d with
  | Some v => if nonzero v && gt v 0 then round (target * (v / 1000)) else (-1)%Z
  | None => (-1)%Z
  end.

(** One iteration of the loop over [logoInputs]: the chain so far, the last
    video label, and the index [i] of the logo. *)
Definition logoStep (b : Builder) (acc : string * string * nat) (logo : Logo)
  : string * string * nat :=
  let '(chain, lastV, i) := acc in
  let logoIdx := showZ (Z.of_nat i + 1) in
  let scaledLabel := "sc" +:+ logoIdx in
  let logoW := logoDim (targetW b) (logo_width logo) in
  let logoH := logoDim (targetH b) (logo_height logo) in
  let chain1 := chain +:+ "[" +:+ logoIdx +:+ ":v]scale=" +:+ showZ logoW +:+ ":" +:+ showZ logoH
                +:+ "[" +:+ scaledLabel +:+ "];" in
  let outV := "vov" +:+ logoIdx in
  let x := toNumber (orZero (logo_x logo)) in
  let y := toNumber (orZero (logo_y logo)) in
  let overlayFilter := "overlay=x=(W*" +:+ showNumber (divBy x 100) +:+ "):y=(H*"
                       +:+ showNumber (divBy y 100) +:+ ")" in
  let finalOverlay := match logo_enable logo with
                      | Some e => if truthy e then overlayFilter +:+ enableSuffix e
                                  else overlayFilter
                      | None => overlayFilter
                      end in
  (chain1 +:+ "[" +:+ lastV +:+ "][" +:+ scaledLabel +:+ "]" +:+ finalOverlay
   +:+ "[" +:+ outV +:+ "];",
   outV, S i).

Definition filterArgs (b : Builder) : list string :=
  match logoInputs b with
  | _ :: _ =>
      let '(chain, lastV, _) := fold_left (logoStep b) (logoInputs b) (baseChain b, "vbase", O) in
      ["-filter_complex"; dropLast chain; "-map"; "[" +:+ lastV +:+ "]"; "-map"; "0:a"]
  | [] =>
      match videoFilters b with
      | [] => []
      | fs => ["-vf"; join "," fs]
      end
  end.

Definition build (hw : Hardware.Encoders) (loop : bool) (b : Builder) : list string :=
  let encoder := Hardware.getBestEncoder hw in
  (if loop then ["-stream_loop"; "-1"] else [])
  ++ (if String.eqb encoder "h264_nvenc" then ["-hwaccel"; "cuda"]
      else if String.eqb encoder "h264_qsv" then ["-hwaccel"; "qsv"]
      else [])
  ++ trimArgs b
  ++ ["-re"]
  ++ inputArgs b
  ++ filterArgs b
  ++ match audioFilters b with
     | [] => []
     | fs => ["-af"; join "," fs]
     end
  ++ ["-c:v"; encoder]
  ++ ["-b:v"; showZ (bitrate b) +:+ "k"]
  ++ ["-pix_fmt"; "yuv420p"]
  ++ ["-c:a"; "aac"; "-b:a"; showZ (audioBitrate b) +:+ "k"; "-ar"; "44100"]
  ++ ["-f"; "flv"; default "undefined" (rtmpUrl b)].

(** [forStreaming(rtmpUrl, loopOverride)] *)
Definition forStreaming (hw : Hardware.Encoders) (url : string) (loopOverride : option bool)
  (b : Builder) : list string :=
  let b' := setRtmpUrl url b in
  let finalLoop := match loopOverride with
                   | Some l => l
                   | None => b_loop b'
                   end in
  build hw finalLoop b'.

End Compiler.

End Ffmpeg.

(* ================================================================== *)
(** ** The stream orchestrator ([orchestrator.ts]) *)
(* ================================================================== *)

Module Orchestrator.
Import Js.

(** *** Exceptions *)

(** The parts of a thrown value that the code inspects: [e.message],
    [e.response?.data?.error?.message] and [e.response?.status]. *)
Record Error : Type := {
  message : string;
  response_message : option string;
  response_status : option Z
}.

Definition mkError (msg : string) : Error :=
  {| message := msg; response_message := None; response_status := None |}.

Inductive Result (A : Type) : Type :=
  | Ok (a : A)
  | Throw (e : Error).
Arguments Ok {A} a.
Arguments Throw {A} e.

(** *** The credential vault ([cryptoService]) *)

Record Sealed : Type := { ciphertext : string; nonce : string; authTag : string }.

Class Vault : Type := {
  encrypt : string -> Sealed;
  decrypt : string -> string -> string -> Result string
}.

(** *** The job store

    [pages], [videos], [editing_profiles], [settings] and [stream_queue] are
    keyed by their primary key. *)

Inductive JobStatus : Type :=
  | Queued | Starting | Live | Stopping | Stopped | Failed | FailedRecovery | CircuitBreaker.

Inductive SessionStatus : Type := SLive | SStopped | SFailed.

#[export] Instance JobStatus_eq_dec : EqDecision JobStatus.
Proof. solve_decision. Defined.

#[export] Instance SessionStatus_eq_dec : EqDecision SessionStatus.
Proof. solve_decision. Defined.

Record Page : Type := {
  page_name : string;
  access_token_encrypted : string;
  access_token_nonce : string;
  access_token_tag : string
}.

Record Video : Type := { filename : string; path : string }.

(** A row of [stream_queue]. The [playlist] column holds NULL or the JSON text
    of an array of video ids ([stream:create] writes nothing else); the model
    keeps the decoded array. *)
Record StreamJob : Type := {
  id : string;
  job_page_id : string;
  job_video_id : string;
  editing_profile_id : option string;
  title_template : option string;
  description_template : option string;
  scheduled_time : option Z;
  status : JobStatus;
  priority : Z;
  loop : Z;
  playlist : option (list string);
  first_comment : option string;
  recovery_attempts : option Z;
  created_at : Z
}.

(** A row of [stream_sessions]. *)
Record Session : Type := {
  s_id : string;
  s_job_id : string;
  live_video_id : option string;
  vod_video_id : option string;
  stream_url : option string;
  started_at : Z;
  ended_at : option Z;
  s_status : SessionStatus;
  peak_viewers : option Z;
  error_log : option string;
  current_video_index : Z;
  comment_posted : Z;
  api_fail_count : option Z
}.

Record Db : Type := {
  pages : gmap string Page;
  videos : gmap string Video;
  editing_profiles : gmap string string;
  settings : gmap string string;
  stream_queue : gmap string StreamJob;
  stream_sessions : list Session
}.

(** A spawned FFmpeg process, as far as the orchestrator sees it. *)
Record Child : Type := { child_args : list string; sigterm : bool }.

Record Orch : Type := {
  db : Db;
  activeStreams : gmap string Child
}.

Definition maxConcurrent : nat := 5.
Definition MAX_API_FAILURES : Z := 5.
Definition MAX_RECOVERY_ATTEMPTS : Z := 3.

(** *** Row updates *)

Definition setPages (f : gmap string Page -> gmap string Page) (d : Db) : Db :=
  {| pages := f (pages d); videos := videos d; editing_profiles := editing_profiles d;
     settings := settings d; stream_queue := stream_queue d;
     stream_sessions := stream_sessions d |}.

Definition setQueue (f : gmap string StreamJob -> gmap string StreamJob) (d : Db) : Db :=
  {| pages := pages d; videos := videos d; editing_profiles := editing_profiles d;
     settings := settings d; stream_queue := f (stream_queue d);
     stream_sessions := stream_sessions d |}.

Definition setSessions (f : list Session -> list Session) (d : Db) : Db :=
  {| pages := pages d; videos := videos d; editing_profiles := editing_profiles d;
     settings := settings d; stream_queue := stream_queue d;
     stream_sessions := f (stream_sessions d) |}.

Definition withDb (f : Db -> Db) (st : Orch) : Orch :=
  {| db := f (db st); activeStreams := activeStreams st |}.

Definition withStreams (f : gmap string Child -> gmap string Child) (st : Orch) : Orch :=
  {| db := db st; activeStreams := f (activeStreams st) |}.

Definition jobWithStatus (s : JobStatus) (j : StreamJob) : StreamJob :=
  {| id := id j; job_page_id := job_page_id j; job_video_id := job_video_id j;
     editing_profile_id := editing_profile_id j; title_template := title_template j;
     description_template := description_template j; scheduled_time := scheduled_time j;
     status := s; priority := priority j; loop := loop j; playlist := playlist j;
     first_comment := first_comment j; recovery_attempts := recovery_attempts j;
     created_at := created_at j |}.

Definition jobWithAttempts (s : JobStatus) (n : Z) (j : StreamJob) : StreamJob :=
  {| id := id j; job_page_id := job_page_id j; job_video_id := job_video_id j;
     editing_profile_id := editing_profile_id j; title_template := title_template j;
     description_template := description_template j; scheduled_time := scheduled_time j;
     status := s; priority := priority j; loop := loop j; playlist := playlist j;
     first_comment := first_comment j; recovery_attempts := Some n;
     created_at := created_at j |}.

(** [UPDATE stream_queue SET status = ? WHERE id = ?] *)
Definition updateJobStatus (jobId : string) (s : JobStatus) (d : Db) : Db :=
  setQueue (alter (jobWithStatus s) jobId) d.

(** [UPDATE stream_queue SET status = ?, recovery_attempts = ? WHERE id = ?] *)
Definition updateJobAttempts (jobId : string) (s : JobStatus) (n : Z) (d : Db) : Db :=
  setQueue (alter (jobWithAttempts s n) jobId) d.

Definition sessionWith (st : SessionStatus) (ended : option Z) (err : option string)
  (idx : Z) (posted : Z) (fails : option Z) (peak : option Z) (s : Session) : Session :=
  {| s_id := s_id s; s_job_id := s_job_id s; live_video_id := live_video_id s;
     vod_video_id := vod_video_id s; stream_url := stream_url s; started_at := started_at s;
     ended_at := ended; s_status := st; peak_viewers := peak; error_log := err;
     current_video_index := idx; comment_posted := posted; api_fail_count := fails |}.

(** Apply [f] to the rows selected by [sel] ([UPDATE stream_sessions SET ... WHERE ...]). *)
Definition updateSessions (sel : Session -> bool) (f : Session -> Session) (d : Db) : Db :=
  setSessions (map (fun s => if sel s then f s else s)) d.

Definition ofJob (jobId : string) (s : Session) : bool := String.eqb (s_job_id s) jobId.
Definition withId (sid : string) (s : Session) : bool := String.eqb (s_id s) sid.

Definition isLive (s : Session) : bool :=
  match s_status s with SLive => true | _ => false end.

Definition setFinal (st : SessionStatus) (now : Z) (s : Session) : Session :=
  sessionWith st (Some now) (error_log s) (current_video_index s) (comment_posted s)
    (api_fail_count s) (peak_viewers s) s.

Definition setFailedLog (msg : string) (s : Session) : Session :=
  sessionWith SFailed (ended_at s) (Some msg) (current_video_index s) (comment_posted s)
    (api_fail_count s) (peak_viewers s) s.

Definition setLiveAt (idx : Z) (s : Session) : Session :=
  sessionWith SLive (ended_at s) (error_log s) idx (comment_posted s)
    (api_fail_count s) (peak_viewers s) s.

Definition setFailCount (n : Z) (s : Session) : Session :=
  sessionWith (s_status s) (ended_at s) (error_log s) (current_video_index s)
    (comment_posted s) (Some n) (peak_viewers s) s.

Definition setCommentPosted (s : Session) : Session :=
  sessionWith (s_status s) (ended_at s) (error_log s) (current_video_index s)
    1 (api_fail_count s) (peak_viewers s) s.

(** SQLite's scalar [MAX(peak_viewers, ?)]: NULL when the column is NULL. *)
Definition setPeak (viewers : Z) (s : Session) : Session :=
  sessionWith (s_status s) (ended_at s) (error_log s) (current_video_index s)
    (comment_posted s) (api_fail_count s)
    (match peak_viewers s with Some p => Some (Z.max p viewers) | None => None end) s.

(** [INSERT INTO stream_sessions]: the primary key must be new and, with
    [foreign_keys = ON], the job row must exist. *)
Definition insertSession (s : Session) (d : Db) : Result Db :=
  if existsb (withId (s_id s)) (stream_sessions d)
  then Throw (mkError "UNIQUE constraint failed: stream_sessions.id")
  else match stream_queue d !! s_job_id s with
       | None => Throw (mkError "FOREIGN KEY constraint failed")
       | Some _ => Ok (setSessions (fun l => l ++ [s]) d)
       end.

(** [INSERT OR REPLACE INTO stream_sessions]: a row with the same primary key
    is replaced; the foreign key is still checked. *)
Definition insertOrReplaceSession (s : Session) (d : Db) : Result Db :=
  match stream_queue d !! s_job_id s with
  | None => Throw (mkError "FOREIGN KEY constraint failed")
  | Some _ =>
      Ok (setSessions (fun l => filter (fun r => negb (withId (s_id s) r)) l ++ [s]) d)
  end.

(** *** The remote platform client, as the orchestrator uses it *)

Record PageInfo : Type := {
  pi_id : string;
  pi_name : string;
  pi_access_token : string;
  pi_category : string
}.

Record LiveVideo : Type := {
  lv_id : string;
  lv_video_id : option string;
  lv_stream_url : string
}.

(** The fields of a liveness response: [live_views] and [status]. *)
Record LiveInfo : Type := { live_views : option Z; fb_status : string }.

(** A callback handed to [withTokenRecovery]: the outcome of its [n]-th
    invocation (0 for the first attempt, 1 for the retry) with a given
    credential. *)
Definition Action (A : Type) : Type := nat -> string -> Result A.

Record Remote : Type := {
  syncPageTokens : string -> Result (list PageInfo);
  createLiveVideo : string -> string -> string -> Action LiveVideo;
  getLiveInfo : string -> Action LiveInfo;
  postComment : string -> string -> Action string
}.

(** The result of a wrapped call: the store afterwards, what the caller gets,
    and the credentials the callback was invoked with, in order. *)
Record Recovered (A : Type) : Type := {
  rc_db : Db;
  rc_result : Result A;
  rc_calls : list string
}.
Arguments rc_db {A} r.
Arguments rc_result {A} r.
Arguments rc_calls {A} r.

Section Recovery.
Context `{Vault}.

Definition isExpired (e : Error) : bool :=
  let errorMsg := match response_message e with
                  | Some m => if truthy m then m else message e
                  | None => message e
                  end in
  includes errorMsg "Session has expired"
  || includes errorMsg "Error validating access token".

Definition pageWithToken (enc : Sealed) (p : Page) : Page :=
  {| page_name := page_name p;
     access_token_encrypted := ciphertext enc;
     access_token_nonce := nonce enc;
     access_token_tag := authTag enc |}.

(** One iteration of the loop over [freshPages]: the [UPDATE pages ... WHERE
    id = @id] and the assignment to [newToken]. *)
Definition storeFresh (pageId : string) (acc : Db * string) (p : PageInfo) : Db * string :=
  let '(d, newToken) := acc in
  (setPages (alter (pageWithToken (encrypt (pi_access_token p))) (pi_id p)) d,
   if String.eqb (pi_id p) pageId then pi_access_token p else newToken).

Definition withTokenRecovery {A : Type} (remote : Remote) (pageId : string)
  (action : Action A) (d : Db) : Recovered A :=
  match pages d !! pageId with
  | None => {| rc_db := d;
               rc_result := Throw (mkError ("Page " +:+ pageId +:+ " not found in database"));
               rc_calls := [] |}
  | Some page =>
    match decrypt (access_token_encrypted page) (access_token_nonce page)
            (access_token_tag page) with
    | Throw de => {| rc_db := d; rc_result := Throw de; rc_calls := [] |}
    | Ok token =>
      match action O token with
      | Ok a => {| rc_db := d; rc_result := Ok a; rc_calls := [token] |}
      | Throw e =>
        if isExpired e then
          match settings d !! "app_id", settings d !! "app_secret",
                settings d !! "user_token_encrypted" with
          | Some dbAppId, Some dbAppSecret, Some encToken =>
            match settings d !! "user_token_nonce", settings d !! "user_token_tag" with
            | Some n, Some t =>
              match decrypt encToken n t with
              | Throw de => {| rc_db := d; rc_result := Throw de; rc_calls := [token] |}
              | Ok userToken =>
                match syncPageTokens remote userToken with
                | Throw _ => {| rc_db := d; rc_result := Throw e; rc_calls := [token] |}
                | Ok freshPages =>
                  let '(d', newToken) := fold_left (storeFresh pageId) freshPages (d, "") in
                  if truthy newToken then
                    match action 1%nat newToken with
                    | Ok a => {| rc_db := d'; rc_result := Ok a; rc_calls := [token; newToken] |}
                    | Throw _ =>
                        {| rc_db := d'; rc_result := Throw e; rc_calls := [token; newToken] |}
                    end
                  else {| rc_db := d'; rc_result := Throw e; rc_calls := [token] |}
                end
              end
            | _, _ =>
              {| rc_db := d;
                 rc_result :=
                   Throw (mkError "Cannot read properties of undefined (reading 'value')");
                 rc_calls := [token] |}
            end
          | _, _, _ => {| rc_db := d; rc_result := Throw e; rc_calls := [token] |}
          end
        else {| rc_db := d; rc_result := Throw e; rc_calls := [token] |}
      end
    end
  end.

End Recovery.

(** *** [stopStream] *)

Definition signalled (c : Child) : Child := {| child_args := child_args c; sigterm := true |}.

Definition stopStream (now : Z) (jobId : string) (st : Orch) : Orch :=
  let st1 := withDb (updateJobStatus jobId Stopping) st in
  match activeStreams st1 !! jobId with
  | Some _ => withStreams (alter signalled jobId) st1
  | None =>
      withDb (fun d => updateSessions (fun s => ofJob jobId s && isLive s) (setFinal SStopped now)
                         (updateJobStatus jobId Stopped d)) st1
  end.

(** [stopAllStreams]: first the supervised processes, then the jobs that the
    store still shows as live or stopping without a process. *)
Definition isStuck (j : StreamJob) : bool :=
  match status j with Live | Stopping => true | _ => false end.

Definition stopAllStreams (now : Z) (st : Orch) : Orch :=
  let st1 := fold_left (fun acc jobId => stopStream now jobId acc)
               (map fst (map_to_list (activeStreams st))) st in
  let stuck := filter (fun j => isStuck j) (map snd (map_to_list (stream_queue (db st1)))) in
  fold_left (fun acc j => match activeStreams acc !! id j with
                          | Some _ => acc
                          | None => stopStream now (id j) acc
                          end) stuck st1.

(** *** The exit handler attached by [startStream] *)

(** What the handler does besides writing to the store: it calls
    [startStream(job, i)], returns, or fails on a job row that is gone. *)
Inductive CloseAction : Type :=
  | Restart (i : Z)
  | Finished
  | HandlerThrew.

Definition finalizeStopped (now : Z) (jobId : string) (d : Db) : Db :=
  updateSessions (ofJob jobId) (setFinal SStopped now) (updateJobStatus jobId Stopped d).

Definition isStopping (o : option StreamJob) : bool :=
  match o with
  | Some j => match status j with Stopping => true | _ => false end
  | None => false
  end.

(** [code] is the exit code, [None] when the process was ended by a signal. *)
Definition onClose (now : Z) (job : StreamJob) (videoIndex : Z) (code : option Z)
  (st : Orch) : Orch * CloseAction :=
  let st1 := withStreams (delete (id job)) st in
  let currentJob := stream_queue (db st1) !! id job in
  if isStopping currentJob then
    (withDb (finalizeStopped now (id job)) st1, Finished)
  else
    match currentJob with
    | None => (st1, HandlerThrew)
    | Some cur =>
      match code with
      | Some 0%Z =>
        let hasPlaylist := match playlist cur with
                           | Some l => (1 <? Z.of_nat (length l))%Z
                           | None => false
                           end in
        if hasPlaylist then
          let len := Z.of_nat (length (default [] (playlist cur))) in
          let nextIndex := (videoIndex + 1)%Z in
          if (loop cur =? 2)%Z then (st1, Restart videoIndex)
          else if (nextIndex <? len)%Z then (st1, Restart nextIndex)
          else if (loop cur =? 1)%Z then (st1, Restart 0)
          else (withDb (finalizeStopped now (id job)) st1, Finished)
        else if (1 <=? loop cur)%Z then (st1, Restart 0)
        else (withDb (finalizeStopped now (id job)) st1, Finished)
      | _ =>
        let currentAttempts := (default 0 (recovery_attempts cur) + 1)%Z in
        let codeText := match code with
                        | Some c => showDecimal (inject_Z c)
                        | None => "null"
                        end in
        let d1 := if (MAX_RECOVERY_ATTEMPTS <=? currentAttempts)%Z
                  then updateJobAttempts (id job) Failed currentAttempts (db st1)
                  else updateJobAttempts (id job) FailedRecovery currentAttempts (db st1) in
        (withDb (fun _ => updateSessions (ofJob (id job))
                            (setFailedLog ("Process exited with code " +:+ codeText)) d1) st1,
         Finished)
      end
    end.

(** *** [processQueue]: admission *)

Definition admissible (now : Z) (j : StreamJob) : bool :=
  match status j with Queued | FailedRecovery => true | _ => false end
  && match scheduled_time j with
     | None => true
     | Some t => (t <=? now)%Z
     end
  && (default 0 (recovery_attempts j) <? MAX_RECOVERY_ATTEMPTS)%Z.

(** [ORDER BY priority DESC, created_at ASC] *)
Definition jobBefore (a b : StreamJob) : bool :=
  (priority b <? priority a)%Z
  || ((priority a =? priority b)%Z && (created_at a <=? created_at b)%Z).

(** The jobs for which [processQueue] calls [startStream], in order. *)
Definition processQueue (now : Z) (st : Orch) : list StreamJob :=
  if (maxConcurrent <=? size (activeStreams st))%nat then []
  else
    let availableSlots := (maxConcurrent - size (activeStreams st))%nat in
    take availableSlots
      (merge_sort (fun a b => jobBefore a b)
         (filter (fun j => admissible now j) (map snd (map_to_list (stream_queue (db st)))))).

(** *** [startStream] *)

(** What the start sequence takes from its surroundings. *)
Record Env : Type := {
  remote : Remote;
  hw : Hardware.Encoders;
  now : Z;                                   (* CURRENT_TIMESTAMP, in seconds *)
  randomUUID : Db -> string;                 (* crypto.randomUUID() *)
  parseProfile : string -> option Ffmpeg.ProfileData;
                                             (* JSON.parse(profile.data); None when it throws *)
  interleaved : Db -> Db                     (* what other handlers did to the store while
                                                the sequence was suspended before spawning *)
}.

(** A request sent to the remote platform. *)
Inductive Request : Type :=
  | ReqCreateLiveVideo (pageId token title description : string)
  | ReqLiveInfo (liveVideoId token : string)
  | ReqComment (targetId token text : string).

(** Step 2 decides between the stored broadcast and a new one. *)
Inductive Broadcast : Type :=
  | Reuse (s : Session)
  | Create (title description : string).

Definition statusReusable (s : Session) : bool :=
  match s_status s with SLive | SFailed | SStopped => true end.

(** [ORDER BY started_at DESC LIMIT 1] *)
Definition later (best : option Session) (s : Session) : option Session :=
  match best with
  | None => Some s
  | Some b => if (started_at b <? started_at s)%Z then Some s else Some b
  end.

Definition existingSession (jobId : string) (d : Db) : option Session :=
  fold_left later (filter (fun s => ofJob jobId s && statusReusable s) (stream_sessions d)) None.

Definition resolveBroadcast (job : StreamJob) (videoIndex : Z) (video : Video) (d : Db)
  : Broadcast :=
  let fresh := Create (orStr (title_template job) ("Live: " +:+ filename video))
                      (orStr (description_template job) "Bulk Streamer Live") in
  match existingSession (id job) d with
  | Some s =>
      if (0 <? videoIndex)%Z || (0 <? default 0 (recovery_attempts job))%Z
      then Reuse s else fresh
  | None => fresh
  end.

(** [playlist[videoIndex % playlist.length]], or [job.video_id]. *)
Definition currentVideoId (job : StreamJob) (videoIndex : Z) : option string :=
  match playlist job with
  | Some l =>
      if (length l =? 0)%nat then None
      else let r := Z.rem videoIndex (Z.of_nat (length l)) in
           if (r <? 0)%Z then None else l !! Z.to_nat r
  | None => Some (job_video_id job)
  end.

Definition shouldLoopFfmpeg (job : StreamJob) : bool :=
  match playlist job with
  | None => true
  | Some l => (length l =? 1)%nat
  end && (loop job =? 1)%Z.

Inductive StartOutcome : Type :=
  | Started                     (* the job is live *)
  | Aborted (e : Error)         (* the catch block ran to its end *)
  | Rejected (e : Error).       (* the catch block itself threw *)

Record StartResult : Type := {
  sr_state : Orch;
  sr_outcome : StartOutcome;
  sr_requests : list Request
}.

Definition newSession (sid jobId : string) (live vod url : option string) (now : Z)
  (idx : Z) : Session :=
  {| s_id := sid; s_job_id := jobId; live_video_id := live; vod_video_id := vod;
     stream_url := url; started_at := now; ended_at := None; s_status := SLive;
     peak_viewers := None; error_log := None; current_video_index := idx;
     comment_posted := 0; api_fail_count := Some 0%Z |}.

Definition failedSession (jobId msg : string) (now : Z) : Session :=
  {| s_id := jobId; s_job_id := jobId; live_video_id := None; vod_video_id := None;
     stream_url := None; started_at := now; ended_at := Some now; s_status := SFailed;
     peak_viewers := None; error_log := Some msg; current_video_index := 0;
     comment_posted := 0; api_fail_count := Some 0%Z |}.

Section Start.
Context `{JsNumber} `{Vault}.

(** [e.message || String(e)] *)
Definition errorText (e : Error) : string :=
  if truthy (message e) then message e else "Error".

(** The catch block. *)
Definition startFailed (env : Env) (job : StreamJob) (e : Error) (reqs : list Request)
  (st : Orch) : StartResult :=
  let d1 := updateJobStatus (id job) Failed (db st) in
  match insertOrReplaceSession (failedSession (id job) (errorText e) (now env)) d1 with
  | Ok d2 => {| sr_state := withDb (fun _ => d2) st; sr_outcome := Aborted e;
                sr_requests := reqs |}
  | Throw e' => {| sr_state := withDb (fun _ => d1) st; sr_outcome := Rejected e';
                   sr_requests := reqs |}
  end.

(** Step 3: the builder for the job's content and editing profile. *)
Definition builderFor (env : Env) (job : StreamJob) (video : Video) (d : Db) : Ffmpeg.Builder :=
  let b := Ffmpeg.newBuilder (path video) in
  match editing_profile_id job with
  | Some pid =>
      if truthy pid
      then match editing_profiles d !! pid with
           | Some data =>
               match parseProfile env data with
               | Some profileData => Ffmpeg.applyProfile profileData b
               | None => b
               end
           | None => b
           end
      else b
  | None => b
  end.

(** Steps 3 to 9, once the broadcast is known. A NULL id or URL of a reused
    session reads as the string [null] where the code passes it on. *)
Definition launch (env : Env) (job : StreamJob) (videoIndex : Z) (video : Video)
  (live vod url : option string) (reqs : list Request) (st : Orch) : StartResult :=
  let args := Ffmpeg.forStreaming (hw env) (default "null" url) (Some (shouldLoopFfmpeg job))
                (builderFor env job video (db st)) in
  let st1 := withDb (interleaved env) st in
  let child := {| child_args := args; sigterm := false |} in
  let st2 := withStreams (insert (id job) child) st1 in
  let written :=
    if (videoIndex =? 0)%Z
    then insertSession (newSession (randomUUID env (db st2)) (id job) live vod url (now env)
                          videoIndex) (db st2)
    else Ok (updateSessions (ofJob (id job)) (setLiveAt videoIndex) (db st2)) in
  match written with
  | Ok d3 =>
      {| sr_state := withDb (fun _ => updateJobStatus (id job) Live d3) st2;
         sr_outcome := Started; sr_requests := reqs |}
  | Throw e => startFailed env job e reqs st2
  end.

Definition createRequests (pageId title description : string) (tokens : list string)
  : list Request :=
  map (fun t => ReqCreateLiveVideo pageId t title description) tokens.

Definition startStream (env : Env) (job : StreamJob) (videoIndex : Z) (st : Orch)
  : StartResult :=
  let st0 := withDb (updateJobStatus (id job) Starting) st in
  let d := db st0 in
  match pages d !! job_page_id job,
        currentVideoId job videoIndex ≫= (fun vid => videos d !! vid),
        settings d !! "app_id", settings d !! "app_secret" with
  | Some _, Some video, Some _, Some _ =>
      match resolveBroadcast job videoIndex video d with
      | Reuse s => launch env job videoIndex video (live_video_id s) None (stream_url s) [] st0
      | Create title description =>
          let r := withTokenRecovery (remote env) (job_page_id job)
                     (createLiveVideo (remote env) (job_page_id job) title description) d in
          let reqs := createRequests (job_page_id job) title description (rc_calls r) in
          let st1 := withDb (fun _ => rc_db r) st0 in
          match rc_result r with
          | Ok fbResult =>
              launch env job videoIndex video (Some (lv_id fbResult)) (lv_video_id fbResult)
                (Some (lv_stream_url fbResult)) reqs st1
          | Throw e => startFailed env job e reqs st1
          end
      end
  | _, _, _, _ => startFailed env job (mkError "Missing stream components") [] st0
  end.

(** The exit handler, followed by the start sequence it asks for. *)
Definition closeAndRestart (env : Env) (job : StreamJob) (videoIndex : Z) (code : option Z)
  (st : Orch) : Orch :=
  let '(st1, act) := onClose (now env) job videoIndex code st in
  match act with
  | Restart i => sr_state (startStream env job i st1)
  | Finished | HandlerThrew => st1
  end.

(** *** [pollViewerStats] *)

(** A row of the polling query: the session joined with its job. *)
Record Polled : Type := {
  p_session : Session;
  p_page_id : string;
  p_first_comment : option string
}.

Definition activeSessions (now : Z) (d : Db) : list Polled :=
  omap (fun s =>
          if isLive s && (started_at s <=? now - 30)%Z
          then match stream_queue d !! s_job_id s with
               | Some j => Some {| p_session := s; p_page_id := job_page_id j;
                                   p_first_comment := first_comment j |}
               | None => None
               end
          else None) (stream_sessions d).

Definition isLiveStatus (s : string) : bool := String.eqb s "LIVE" || String.eqb s "LIVE_NOW".

(** 2. The auto-comment, for a session that was not stopped in step 1. *)
Definition autoComment (env : Env) (ps : Polled) (st : Orch) : Orch :=
  let s := p_session ps in
  if truthyOpt (p_first_comment ps) && (comment_posted s =? 0)%Z then
    if (15 <? now env - started_at s)%Z then
      let targetId := orStr (vod_video_id s) (default "null" (live_video_id s)) in
      let r := withTokenRecovery (remote env) (p_page_id ps)
                 (postComment (remote env) targetId (default "" (p_first_comment ps))) (db st) in
      match rc_result r with
      | Ok _ => withDb (fun _ => updateSessions (withId (s_id s)) setCommentPosted (rc_db r)) st
      | Throw _ => withDb (fun _ => rc_db r) st
      end
    else st
  else st.

(** The body of the loop, for one row of the query. *)
Definition pollSession (env : Env) (ps : Polled) (st : Orch) : Orch :=
  let s := p_session ps in
  match pages (db st) !! p_page_id ps with
  | None => st
  | Some _ =>
      let r := withTokenRecovery (remote env) (p_page_id ps)
                 (getLiveInfo (remote env) (default "null" (live_video_id s))) (db st) in
      let st1 := withDb (fun _ => rc_db r) st in
      match rc_result r with
      | Ok info =>
          let viewers := default 0%Z (live_views info) in
          let st2 := withDb (updateSessions (withId (s_id s)) (setFailCount 0)) st1 in
          if negb (isLiveStatus (fb_status info))
          then stopStream (now env) (s_job_id s) st2
          else autoComment env ps
                 (withDb (updateSessions (withId (s_id s)) (setPeak viewers)) st2)
      | Throw _ =>
          let currentFailCount := (default 0 (api_fail_count s) + 1)%Z in
          let st2 := withDb (updateSessions (withId (s_id s)) (setFailCount currentFailCount))
                       st1 in
          if (MAX_API_FAILURES <=? currentFailCount)%Z
          then stopStream (now env) (s_job_id s)
                 (withDb (updateJobStatus (s_job_id s) CircuitBreaker) st2)
          else autoComment env ps st2
      end
  end.

Definition pollViewerStats (env : Env) (st : Orch) : Orch :=
  match settings (db st) !! "app_id", settings (db st) !! "app_secret" with
  | Some _, Some _ =>
      fold_left (fun acc ps => pollSession env ps acc) (activeSessions (now env) (db st)) st
  | _, _ => st
  end.

End Start.

End Orchestrator.

(* ================================================================== *)
(** ** Worked configurations *)
(* ================================================================== *)

Module CompilerExamples.
Import Js Ffmpeg.

Definition plain : ProfileData :=
  {| crop := None; offset := None; rotate := None; flip := None; scale := None;
     aspectRatio := None; trim := None; loop := None; color := None; zoom := None;
     background := None; overlays := []; speed := None; audio := None;
     protection := None |}.

Definition withBackground (bg : Background) (os : list Overlay) : ProfileData :=
  {| crop := None; offset := None; rotate := None; flip := None; scale := None;
     aspectRatio := None; trim := None; loop := None; color := None; zoom := None;
     background := Some bg; overlays := os; speed := None; audio := None;
     protection := None |}.

Definition withZoom (z : Q) : ProfileData :=
  {| crop := None; offset := None; rotate := None; flip := None; scale := None;
     aspectRatio := None; trim := None; loop := None; color := None; zoom := Some z;
     background := None; overlays := []; speed := None; audio := None;
     protection := None |}.

Definition withProtection (pr : Protection) : ProfileData :=
  {| crop := None; offset := None; rotate := None; flip := None; scale := None;
     aspectRatio := None; trim := None; loop := None; color := None; zoom := None;
     background := None; overlays := []; speed := None; audio := None;
     protection := Some pr |}.

Definition imageBackground : Background :=
  {| bg_type := BgImage; bg_imagePath := Some "bg.png" |}.

Definition logoOverlay : Overlay :=
  {| ov_type := OvImage; ov_content := Some "logo.png"; ov_x := OfNum 5; ov_y := OfNum 5;
     ov_opacity := 1; ov_size := Some 100%Q; ov_color := None; ov_bannerColor := None;
     ov_bannerOpacity := None; ov_bannerPadding := None; ov_shadow := None;
     ov_outline := None; ov_font := None; ov_animation := None |}.

(** Every five seconds, for the default duration. *)
Definition everyFiveSeconds (t : ProtectionType) : Protection :=
  {| pr_type := t; pr_mode := Some ModeTime; pr_interval := 5; pr_duration := None;
     pr_strength := None; pr_injectionFrames := None; pr_imagePath := None |}.

(** A black flash with the given trigger and no duration. *)
Definition trigger (m : option ProtectionMode) (interval : Q) (frames : option Q) : Protection :=
  {| pr_type := PtBlack; pr_mode := m; pr_interval := interval; pr_duration := None;
     pr_strength := None; pr_injectionFrames := frames; pr_imagePath := None |}.

Definition software : Hardware.Encoders :=
  {| Hardware.nvenc := false; Hardware.qsv := false; Hardware.amf := false;
     Hardware.vaapi := false |}.

(** The arguments compiled for a profile, with the example number rendering. *)
Definition compiled (p : ProfileData) : list string :=
  @forStreaming exampleNumber software "rtmp://ingest/key" (Some false)
    (@applyProfile exampleNumber p (newBuilder "in.mp4")).

End CompilerExamples.

Module Examples.
Import Js Orchestrator.

(** A vault that seals a secret as itself. *)
Definition plainVault : Vault :=
  {| encrypt := fun s => {| ciphertext := s; nonce := "nonce"; authTag := "tag" |};
     decrypt := fun c _ _ => Ok c |}.

Definition expired : Error :=
  {| message := "Request failed with status code 400";
     response_message := Some "Error validating access token: Session has expired";
     response_status := Some 400%Z |}.

Definition unreachable : Error := mkError "connect ETIMEDOUT".

Definition freshBatch : list PageInfo :=
  [ {| pi_id := "page1"; pi_name := "One"; pi_access_token := "fresh1"; pi_category := "Media" |};
    {| pi_id := "page2"; pi_name := "Two"; pi_access_token := "fresh2"; pi_category := "Media" |} ].

(** A platform that rejects the stale credentials and accepts the fresh ones. *)
Definition acceptsFresh {A : Type} (a : A) : Action A :=
  fun _ token => if Js.startsWith token "fresh" then Ok a else Throw expired.

Definition broadcast : LiveVideo :=
  {| lv_id := "live9"; lv_video_id := Some "vod9"; lv_stream_url := "rtmps://ingest/key9" |}.

Definition platform : Remote :=
  {| syncPageTokens := fun _ => Ok freshBatch;
     createLiveVideo := fun _ _ _ => acceptsFresh broadcast;
     getLiveInfo := fun _ => acceptsFresh {| live_views := Some 7%Z; fb_status := "LIVE" |};
     postComment := fun _ _ => acceptsFresh "comment1" |}.

(** A platform that cannot be reached. *)
Definition offline : Remote :=
  {| syncPageTokens := fun _ => Throw unreachable;
     createLiveVideo := fun _ _ _ _ _ => Throw unreachable;
     getLiveInfo := fun _ _ _ => Throw unreachable;
     postComment := fun _ _ _ _ => Throw unreachable |}.

Definition page (token : string) : Page :=
  {| page_name := "Page"; access_token_encrypted := token;
     access_token_nonce := "nonce"; access_token_tag := "tag" |}.

Definition job (st : JobStatus) (lp : Z) (pl : option (list string)) (attempts : option Z)
  : StreamJob :=
  {| id := "job1"; job_page_id := "page1"; job_video_id := "v1"; editing_profile_id := None;
     title_template := None; description_template := None; scheduled_time := None;
     status := st; priority := 1; loop := lp; playlist := pl; first_comment := None;
     recovery_attempts := attempts; created_at := 10 |}.

Definition session (sid : string) (st : SessionStatus) (fails : option Z) : Session :=
  {| s_id := sid; s_job_id := "job1"; live_video_id := Some "live1"; vod_video_id := None;
     stream_url := Some "rtmps://ingest/key1"; started_at := 20; ended_at := None;
     s_status := st; peak_viewers := None; error_log := None; current_video_index := 0;
     comment_posted := 0; api_fail_count := fails |}.

Definition store (j : StreamJob) (sessions : list Session) : Db :=
  {| pages := {[ "page1" := page "stale1"; "page2" := page "stale2" ]};
     videos := {[ "v1" := {| filename := "a.mp4"; path := "/media/a.mp4" |};
                  "v2" := {| filename := "b.mp4"; path := "/media/b.mp4" |};
                  "v3" := {| filename := "c.mp4"; path := "/media/c.mp4" |} ]};
     editing_profiles := ∅;
     settings := {[ "app_id" := "app"; "app_secret" := "secret";
                    "user_token_encrypted" := "user"; "user_token_nonce" := "nonce";
                    "user_token_tag" := "tag" ]};
     stream_queue := {[ "job1" := j ]};
     stream_sessions := sessions |}.

(** A store whose account credential has lost its nonce row, as after a
    [settings:save] that was interrupted between its statements. *)
Definition withoutNonce (d : Db) : Db :=
  {| pages := pages d; videos := videos d; editing_profiles := editing_profiles d;
     settings := delete "user_token_nonce" (settings d);
     stream_queue := stream_queue d; stream_sessions := stream_sessions d |}.

Definition ffmpegProcess : Child := {| child_args := ["-re"]; sigterm := false |}.

Definition supervised (d : Db) : Orch := {| db := d; activeStreams := {[ "job1" := ffmpegProcess ]} |}.
Definition idle (d : Db) : Orch := {| db := d; activeStreams := ∅ |}.

Definition env (r : Remote) (other : Db -> Db) : Env :=
  {| remote := r; hw := CompilerExamples.software; now := 100; randomUUID := fun _ => "uuid1";
     parseProfile := fun _ => None; interleaved := other |}.

(** A series of polls, each against its own state of the platform. *)
Definition polls (rs : list Remote) (st : Orch) : Orch :=
  fold_left (fun acc r => @pollViewerStats plainVault (env r (fun d => d)) acc) rs st.

End Examples.

(* ================================================================== *)
(** ** The specification's own words *)
(* ================================================================== *)

Module Spec.
Import Orchestrator.

(** Loop mode, as the [loop] column encodes it. *)
Inductive LoopMode : Type := Off | LoopAll | LoopOne.

Definition loopMode (z : Z) : option LoopMode :=
  if (z =? 0)%Z then Some Off
  else if (z =? 1)%Z then Some LoopAll
  else if (z =? 2)%Z then Some LoopOne
  else None.

(** The decision table of the exit handler for a successful exit, as the
    specification words it: [len] is the length of the playlist (0 without
    one), [index] the index the process was started with. *)
Definition exitDecision (mode : LoopMode) (len : nat) (index : Z) : CloseAction :=
  if (1 <? len)%nat then
    match mode with
    | LoopOne => Restart index
    | _ =>
        if (index + 1 <? Z.of_nat len)%Z then Restart (index + 1)
        else match mode with
             | LoopAll => Restart 0
             | _ => Finished
             end
    end
  else
    match mode with
    | LoopAll | LoopOne => Restart 0
    | Off => Finished
    end.

(** The recovery counter of a job in the store (NULL counts as 0). *)
Definition attemptsOf (jobId : string) (st : Orch) : Z :=
  match stream_queue (db st) !! jobId with
  | Some j => default 0%Z (recovery_attempts j)
  | None => 0%Z
  end.

Definition statusOf (jobId : string) (st : Orch) : option JobStatus :=
  status <$> stream_queue (db st) !! jobId.

(** "recovery_attempts is incremented on each non-zero/abnormal process
    exit", read for one exit of one job. *)
Definition IncrementsOnAbnormalExit (now : Z) (job : StreamJob) (videoIndex : Z)
  (code : option Z) (st : Orch) : Prop :=
  code <> Some 0%Z ->
  attemptsOf (id job) (fst (onClose now job videoIndex code st))
  = (attemptsOf (id job) st + 1)%Z.

(** Every row with the given id holds the given failure count. *)
Definition CountIs (sid : string) (c : Z) (d : Db) : Prop :=
  forall s : Session, s ∈ stream_sessions d -> s_id s = sid -> api_fail_count s = Some c.

(** A builder [b'] is the builder [b] after some later stages of
    [applyProfile]: more video filters, the same layout. *)
Record Extends (b b' : Ffmpeg.Builder) : Prop := {
  ext_filters : exists more, Ffmpeg.videoFilters b' = Ffmpeg.videoFilters b ++ more;
  ext_targetW : Ffmpeg.targetW b' = Ffmpeg.targetW b;
  ext_targetH : Ffmpeg.targetH b' = Ffmpeg.targetH b;
  ext_background : Ffmpeg.backgroundInput b' = Ffmpeg.backgroundInput b;
  ext_inputPath : Ffmpeg.inputPath b' = Ffmpeg.inputPath b
}.

(** The credential that a refresh batch holds for a destination: that of the
    last entry with the destination's id. *)
Fixpoint refreshedToken (pageId : string) (batch : list PageInfo) : option string :=
  match batch with
  | [] => None
  | p :: rest =>
      match refreshedToken pageId rest with
      | Some t => Some t
      | None => if String.eqb (pi_id p) pageId then Some (pi_access_token p) else None
      end
  end.

End Spec.

(* ================================================================== *)
(** ** Shapes of the compiler's output *)
(* ================================================================== *)

Module Shape.
Import Js.

(** A builder transformation that only appends: fixed lists of video
    filters, audio filters, logo inputs and trim arguments are added to
    whatever the builder holds, and the input and bitrates are kept. *)
Record Adds (f : Ffmpeg.Builder -> Ffmpeg.Builder) (dv da : list string)
  (dl : list Ffmpeg.Logo) (dt : list string) : Prop := {
  adds_video : forall b, Ffmpeg.videoFilters (f b) = Ffmpeg.videoFilters b ++ dv;
  adds_audio : forall b, Ffmpeg.audioFilters (f b) = Ffmpeg.audioFilters b ++ da;
  adds_logos : forall b, Ffmpeg.logoInputs (f b) = Ffmpeg.logoInputs b ++ dl;
  adds_trim : forall b, Ffmpeg.trimArgs (f b) = Ffmpeg.trimArgs b ++ dt;
  adds_input : forall b, Ffmpeg.inputPath (f b) = Ffmpeg.inputPath b;
  adds_bitrate : forall b, Ffmpeg.bitrate (f b) = Ffmpeg.bitrate b;
  adds_audioBitrate : forall b, Ffmpeg.audioBitrate (f b) = Ffmpeg.audioBitrate b
}.

(** A transformation that adds something: the lists are left open. *)
Definition AddsSome (f : Ffmpeg.Builder -> Ffmpeg.Builder) : Prop :=
  exists dv da dl dt, Adds f dv da dl dt.

(** Every colon of [s] directly follows a backslash; [afterBackslash] tells
    whether the character before [s] is one. *)
Fixpoint colonsEscapedFrom (afterBackslash : bool) (s : string) : bool :=
  match s with
  | EmptyString => true
  | String c s' =>
      if Ascii.eqb c ":" then afterBackslash && colonsEscapedFrom false s'
      else colonsEscapedFrom (Ascii.eqb c "\") s'
  end.

Definition colonsEscaped (s : string) : bool := colonsEscapedFrom false s.

(** Every backslash of [s] is directly followed by a colon. *)
Fixpoint backslashesEscapeColons (s : string) : bool :=
  match s with
  | EmptyString => true
  | String c s' =>
      (if Ascii.eqb c "\" then startsWith s' ":" else true) && backslashesEscapeColons s'
  end.

(** [s] holds the character [c]. *)
Fixpoint hasChar (c : ascii) (s : string) : bool :=
  match s with
  | EmptyString => false
  | String d s' => Ascii.eqb d c || hasChar c s'
  end.

(** The fixed tail of every argument list: codec, bitrates, pixel format,
    audio parameters, container and destination. *)
Definition outputArgs `{JsNumber} (encoder url : string) : list string :=
  ["-c:v"; encoder; "-b:v"; showZ 4500 +:+ "k"; "-pix_fmt"; "yuv420p";
   "-c:a"; "aac"; "-b:a"; showZ 128 +:+ "k"; "-ar"; "44100"; "-f"; "flv"; url].

End Shape.

Module MoreExamples.
Import Js.

(** An image shown for one frame in thirty. *)
Definition imageFlash : Ffmpeg.Protection :=
  {| Ffmpeg.pr_type := Ffmpeg.PtImage; Ffmpeg.pr_mode := Some Ffmpeg.ModeFrame;
     Ffmpeg.pr_interval := 30; Ffmpeg.pr_duration := None; Ffmpeg.pr_strength := None;
     Ffmpeg.pr_injectionFrames := Some 1%Q; Ffmpeg.pr_imagePath := Some "mark.png" |}.

End MoreExamples.

(** ** The stream handlers of the main process ([main.ts]) *)

Module Ipc.
Import Js Orchestrator.

(** [stream:stop] and [stream:stop-all] call the orchestrator. *)
Definition streamStop (now : Z) (jobId : string) (st : Orch) : Orch := stopStream now jobId st.
Definition streamStopAll (now : Z) (st : Orch) : Orch := stopAllStreams now st.

Definition jobRequeued (now : Z) (j : StreamJob) : StreamJob :=
  {| id := id j; job_page_id := job_page_id j; job_video_id := job_video_id j;
     editing_profile_id := editing_profile_id j; title_template := title_template j;
     description_template := description_template j; scheduled_time := Some now;
     status := Queued; priority := priority j; loop := loop j; playlist := playlist j;
     first_comment := first_comment j; recovery_attempts := recovery_attempts j;
     created_at := created_at j |}.

(** [stream:restart]:
    [UPDATE stream_queue SET status = 'queued', scheduled_time = CURRENT_TIMESTAMP WHERE id = ?] *)
Definition streamRestart (now : Z) (jobId : string) (st : Orch) : Orch :=
  withDb (setQueue (alter (jobRequeued now) jobId)) st.

(** The arguments of [stream:create]; an absent argument is [undefined]. *)
Record CreateArgs : Type := {
  ca_pageIds : list string;
  ca_videoIds : list string;
  ca_editingProfileId : option string;
  ca_titleTemplate : option string;
  ca_descriptionTemplate : option string;
  ca_firstComment : option string;
  ca_scheduledTime : option Z;
  ca_loop : option Z
}.

(** [x || null] *)
Definition orNull (o : option string) : option string :=
  match o with
  | Some s => if truthy s then Some s else None
  | None => None
  end.

(** The row that [stream:create] inserts for one destination:
    [primaryVideoId] is [vIds[0]], [recovery_attempts] takes its column
    default 0. *)
Definition newJob (a : CreateArgs) (now : Z) (uuid pageId primaryVideoId : string)
  : StreamJob :=
  {| id := uuid; job_page_id := pageId; job_video_id := primaryVideoId;
     editing_profile_id := orNull (ca_editingProfileId a);
     title_template := orNull (ca_titleTemplate a);
     description_template := orNull (ca_descriptionTemplate a);
     scheduled_time := ca_scheduledTime a;
     status := Queued; priority := 1;
     loop := default 1%Z (ca_loop a);
     playlist := if (1 <? length (ca_videoIds a))%nat then Some (ca_videoIds a) else None;
     first_comment := orNull (ca_firstComment a);
     recovery_attempts := Some 0%Z; created_at := now |}.

(** [system:reset-streams]: stop everything, then [DELETE FROM stream_sessions]
    and [DELETE FROM stream_queue]. *)
Definition resetStreams (now : Z) (st : Orch) : Orch :=
  withDb (fun d => setQueue (fun _ => ∅) (setSessions (fun _ => []) d)) (stopAllStreams now st).

End Ipc.

(** ** Properties of a store *)

Module Invariants.
Import Orchestrator.

(** No session holds a viewer peak: the column is NULL in every row. *)
Definition PeakUnset (d : Db) : Prop :=
  forall s : Session, s ∈ stream_sessions d -> peak_viewers s = None.

End Invariants.

(** ** Error texts of the platform client ([facebook.ts]) *)

Module Facebook.
Import Js Orchestrator.

(** [e.response.data.error]: its [message] and [code], each possibly absent. *)
Record GraphError : Type := {
  ge_message : option string;
  ge_code : option Z
}.

(** A value thrown by a Graph API call: [e.message] and
    [e.response?.data?.error]. *)
Record ApiError : Type := {
  api_message : string;
  api_error : option GraphError
}.

Definition showCode (c : option Z) : string :=
  match c with
  | Some z => showDecimal (inject_Z z)
  | None => "undefined"
  end.

(** [code === n] *)
Definition codeIs (c : option Z) (n : Z) : bool :=
  match c with
  | Some z => (z =? n)%Z
  | None => false
  end.

Definition sessionExpiredText : string :=
  "Your Facebook session has expired. Please provide a new User Access Token.".

Definition invalidTokenText : string :=
  "Invalid Facebook access token. Please check your credentials.".

(** [FacebookClient.extractError]; it throws when the error body has no
    message. *)
Definition extractError (e : ApiError) : Result string :=
  match api_error e with
  | Some err =>
      match ge_message err with
      | None => Throw (mkError "Cannot read properties of undefined (reading 'includes')")
      | Some msg =>
          if includes msg "Session has expired" then Ok sessionExpiredText
          else if includes msg "Error validating access token" then Ok invalidTokenText
          else if codeIs (ge_code err) 100 then Ok ("Facebook Validation Error: " +:+ msg)
          else if codeIs (ge_code err) 200 then
            Ok ("Facebook Permission Error: Ensure your token has 'publish_video' "
                +:+ "and 'pages_manage_posts' permissions.")
          else Ok ("Facebook Error [" +:+ showCode (ge_code err) +:+ "]: " +:+ msg)
      end
  | None =>
      Ok (if truthy (api_message e) then api_message e
          else "An unknown Facebook error occurred.")
  end.

(** The same thrown value as the orchestrator's recovery wrapper reads it. *)
Definition asThrown (e : ApiError) : Error :=
  {| message := api_message e;
     response_message := api_error e ≫= ge_message;
     response_status := None |}.

End Facebook.

(* ================================================================== *)
(** ** Facts about strings *)
(* ================================================================== *)

Import Js.

Lemma append_cons (c : ascii) (s t : string) : String c s +:+ t = String c (s +:+ t).
Proof. reflexivity. Qed.

Lemma append_assoc (a b c : string) : (a +:+ b) +:+ c = a +:+ (b +:+ c).
Proof. induction a as [|x a IH]; [reflexivity|]. rewrite !append_cons, IH. reflexivity. Qed.

Lemma startsWith_app (s t pat : string) :
  startsWith s pat = true -> startsWith (s +:+ t) pat = true.
Proof.
  revert s. induction pat as [|p pat IH]; intros s Hs.
  - destruct (s +:+ t); reflexivity.
  - destruct s as [|c s]; [discriminate|].
    rewrite append_cons. simpl in *.
    destruct (Ascii.eqb c p); [auto | discriminate].
Qed.

Lemma includes_app_l (s t pat : string) :
  includes s pat = true -> includes (s +:+ t) pat = true.
Proof.
  induction s as [|c s IH]; intros Hs.
  - simpl in Hs. rewrite orb_false_r in Hs.
    destruct pat; [|discriminate]. destruct t; reflexivity.
  - rewrite append_cons. simpl in *.
    apply orb_true_iff in Hs as [Hs|Hs].
    + apply orb_true_iff. left.
      change (startsWith (String c s +:+ t) pat = true). now apply startsWith_app.
    + apply orb_true_iff. right. auto.
Qed.

Lemma includes_app_r (s t pat : string) :
  includes t pat = true -> includes (s +:+ t) pat = true.
Proof.
  intros Ht. induction s as [|c s IH]; [exact Ht|].
  rewrite append_cons. simpl. rewrite IH. apply orb_true_r.
Qed.

(* ================================================================== *)
(** ** Properties of the pipeline compiler *)
(* ================================================================== *)

Import Ffmpeg.

Section CompilerFacts.
Context `{JsNumber}.

Lemma Extends_refl b : Spec.Extends b b.
Proof. split; try reflexivity. exists []. now rewrite app_nil_r. Qed.

Lemma Extends_trans b1 b2 b3 : Spec.Extends b1 b2 -> Spec.Extends b2 b3 -> Spec.Extends b1 b3.
Proof.
  intros [[m1 E1] W1 H1 B1 P1] [[m2 E2] W2 H2 B2 P2]. split; try congruence.
  exists (m1 ++ m2). rewrite E2, E1. now rewrite app_assoc.
Qed.

Lemma pushVideo_extends f b : Spec.Extends b (pushVideo f b).
Proof. split; try reflexivity. now exists [f]. Qed.

Lemma pushAudio_extends f b : Spec.Extends b (pushAudio f b).
Proof. split; try reflexivity. exists []. simpl. now rewrite app_nil_r. Qed.

Lemma pushLogo_extends l b : Spec.Extends b (pushLogo l b).
Proof. split; try reflexivity. exists []. simpl. now rewrite app_nil_r. Qed.

Create HintDb extends.
Create HintDb extends.
#[local] Hint Resolve Extends_refl pushVideo_extends pushAudio_extends pushLogo_extends : extends.

Ltac extends_step :=
  first [ apply Extends_refl
        | apply pushVideo_extends
        | apply pushAudio_extends
        | apply pushLogo_extends
        | eapply Extends_trans; [ | apply pushVideo_extends ]
        | eapply Extends_trans; [ | apply pushAudio_extends ] ].

Lemma stageRotate_extends p b : Spec.Extends b (stageRotate p b).
Proof.
  unfold stageRotate. destruct (rotate p) as [angle|]; [|apply Extends_refl].
  repeat (case (Qeq_bool _ _)); auto with extends.
Qed.

Lemma stageFlip_extends p b : Spec.Extends b (stageFlip p b).
Proof.
  unfold stageFlip. destruct (flip p) as [f|]; [|apply Extends_refl].
  destruct (horizontal f), (vertical f); repeat extends_step.
Qed.

Lemma stageColor_extends p b : Spec.Extends b (stageColor p b).
Proof.
  unfold stageColor. destruct (color p) as [c|]; [|apply Extends_refl].
  destruct (eqParams c); destruct (sharpness c) as [sh|];
    try destruct (nonzero sh && gt sh 0); repeat extends_step.
Qed.

Lemma stageProtection_extends p b : Spec.Extends b (stageProtection p b).
Proof.
  unfold stageProtection. destruct (protection p) as [pr|]; [|apply Extends_refl].
  destruct (protectionActive pr); [|apply Extends_refl].
  destruct (protectionEffect pr); auto with extends.
Qed.

Lemma applyOverlay_extends b o : Spec.Extends b (applyOverlay b o).
Proof.
  unfold applyOverlay. destruct (ov_content o) as [content|]; [|apply Extends_refl].
  destruct (truthy content); [|apply Extends_refl].
  destruct (ov_type o); [|apply pushLogo_extends].
  destruct (ov_bannerColor o) as [bc|]; [destruct (truthy bc)|]; repeat extends_step.
Qed.

Lemma stageOverlays_extends p b : Spec.Extends b (stageOverlays p b).
Proof.
  unfold stageOverlays. generalize (overlays p). intros os. revert b.
  induction os as [|o os IH]; intros b; simpl; [apply Extends_refl|].
  eapply Extends_trans; [apply applyOverlay_extends | apply IH].
Qed.

Lemma stageSpeed_extends p b : Spec.Extends b (stageSpeed p b).
Proof.
  unfold stageSpeed. destruct (speed p) as [sp|]; [|apply Extends_refl].
  destruct (nonzero sp && negb (Qeq_bool sp 1)); [|apply Extends_refl].
  eapply Extends_trans; [apply pushVideo_extends | apply pushAudio_extends].
Qed.

Lemma stageAudio_extends p b : Spec.Extends b (stageAudio p b).
Proof.
  unfold stageAudio. destruct (audio p) as [a|]; [|apply Extends_refl].
  eapply Extends_trans with
    (b2 := if negb (Qeq_bool (volume a) 1) then pushAudio ("volume=" +:+ showNum (volume a)) b else b).
  { destruct (negb _); auto with extends. }
  set (b1 := if negb _ then _ else _).
  eapply Extends_trans with
    (b2 := match normalize a with Some true => pushAudio "loudnorm" b1 | _ => b1 end).
  { destruct (normalize a) as [[|]|]; auto with extends. }
  destruct (pitch a) as [pt|]; [|apply Extends_refl].
  destruct (nonzero pt && negb (Qeq_bool pt 1)); auto with extends.
Qed.

(** Everything after the layout stage only adds to it. *)
Lemma afterLayout_extends p b :
  Spec.Extends (stageLayout p (stageCrop p (stageTrim p (stageLoop p b)))) (applyProfile p b).
Proof.
  unfold applyProfile.
  repeat (eapply Extends_trans;
          [ | first [ apply stageAudio_extends | apply stageSpeed_extends
                    | apply stageOverlays_extends | apply stageProtection_extends
                    | apply stageColor_extends | apply stageFlip_extends
                    | apply stageRotate_extends ] ]).
  apply Extends_refl.
Qed.

Lemma stageLayout_filters p b :
  videoFilters (stageLayout p b) = videoFilters b ++ [layoutFilter p].
Proof.
  unfold stageLayout. destruct (targetOf p) as [w h].
  destruct (needsSmartLayout p); [|reflexivity].
  destruct (bgTypeOf p); try reflexivity. destruct (bgImageOf p); reflexivity.
Qed.

Lemma stageLayout_target p b :
  (targetW (stageLayout p b), targetH (stageLayout p b)) = targetOf p.
Proof.
  unfold stageLayout. destruct (targetOf p) as [w h].
  destruct (needsSmartLayout p); [|reflexivity].
  destruct (bgTypeOf p); try reflexivity. destruct (bgImageOf p); reflexivity.
Qed.

Lemma overlayAt_includes p : includes (overlayAt p) "overlay" = true.
Proof. unfold overlayAt. apply includes_app_l. reflexivity. Qed.

Lemma smartGraph_includes p w h : includes (smartGraph p w h) "overlay" = true.
Proof.
  unfold smartGraph.
  destruct (bgTypeOf p);
    repeat first [ exact (overlayAt_includes p) | apply includes_app_r ].
Qed.

Lemma smartGraph_split p w h : startsWith (smartGraph p w h) "split=" = true.
Proof.
  unfold smartGraph. destruct (bgTypeOf p); apply startsWith_app; reflexivity.
Qed.

Lemma scalePad_not_split w h : startsWith (scalePad w h) "split=" = false.
Proof. reflexivity. Qed.

Lemma needsSmartLayout_false p :
  needsSmartLayout p = false <-> (zoomOf p == 1)%Q /\ bgTypeOf p = BgBlack.
Proof.
  unfold needsSmartLayout. rewrite orb_false_iff, !negb_false_iff, Qeq_bool_iff.
  split; intros [Hz Hb]; split; auto.
  - destruct (bgTypeOf p); try discriminate; reflexivity.
  - now rewrite Hb.
Qed.


(** C6. The compiler emits the simple scale+pad filter (and no split/overlay
    graph) if and only if the profile's zoom is 1.0 and its background is
    black, both possibly by default; for every other combination the emitted
    entry is a split graph that contains an [overlay] stage. *)
Theorem C6_layout_simple_iff_default (p : ProfileData) (path : string) :
  let b := applyProfile p (newBuilder path) in
  layoutFilter p ∈ videoFilters b
  /\ (layoutFilter p = scalePad (targetW b) (targetH b)
      <-> (zoomOf p == 1)%Q /\ bgTypeOf p = BgBlack)
  /\ ((zoomOf p == 1)%Q /\ bgTypeOf p = BgBlack ->
      startsWith (layoutFilter p) "split=" = false)
  /\ (~ ((zoomOf p == 1)%Q /\ bgTypeOf p = BgBlack) ->
      startsWith (layoutFilter p) "split=" = true
      /\ includes (layoutFilter p) "overlay" = true).
Proof.
  intros b.
  destruct (afterLayout_extends p (newBuilder path)) as [[more Hf] HW HH _ _].
  fold b in Hf, HW, HH.
  pose proof (stageLayout_target p (stageCrop p (stageTrim p (stageLoop p (newBuilder path)))))
    as Ht.
  rewrite <- HW, <- HH in Ht.
  assert (Hin : layoutFilter p ∈ videoFilters b).
  { rewrite Hf, stageLayout_filters. set_solver. }
  split; [exact Hin|].
  destruct (needsSmartLayout p) eqn:Hn.
  - assert (Hs : startsWith (layoutFilter p) "split=" = true
                 /\ includes (layoutFilter p) "overlay" = true).
    { unfold layoutFilter. destruct (targetOf p) as [w h]. rewrite Hn.
      split; [apply smartGraph_split | apply smartGraph_includes]. }
    assert (Hnot : ~ ((zoomOf p == 1)%Q /\ bgTypeOf p = BgBlack)).
    { intros Hd. apply needsSmartLayout_false in Hd. congruence. }
    split; [split|split].
    + intros E. destruct Hs as [Hs _]. rewrite E, scalePad_not_split in Hs. discriminate.
    + intros Hd. contradiction.
    + intros Hd. contradiction.
    + intros _. exact Hs.
  - assert (Hs : layoutFilter p = scalePad (targetW b) (targetH b)).
    { unfold layoutFilter. rewrite <- Ht, Hn. reflexivity. }
    assert (Hd : (zoomOf p == 1)%Q /\ bgTypeOf p = BgBlack).
    { now apply needsSmartLayout_false. }
    split; [split|split].
    + intros _. exact Hd.
    + intros _. exact Hs.
    + intros _. rewrite Hs. apply scalePad_not_split.
    + intros Hnot. contradiction.
Qed.

End CompilerFacts.

Section PlaceholderFacts.
Context `{JsNumber}.

Lemma join_includes (sep : string) (fs : list string) (f pat : string) :
  f ∈ fs -> includes f pat = true -> includes (join sep fs) pat = true.
Proof.
  intros Hin Hf. induction fs as [|x rest IH]; [inversion Hin|].
  apply elem_of_cons in Hin as [<-|Hin].
  - destruct rest; [exact Hf|]. cbn [join]. now apply includes_app_l.
  - destruct rest as [|y rest]; [inversion Hin|].
    change (join sep (x :: y :: rest)) with (x +:+ sep +:+ join sep (y :: rest)).
    apply includes_app_r, includes_app_r. now apply IH.
Qed.

Lemma bgImageOf_image p img : bgImageOf p = Some img -> bgTypeOf p = BgImage.
Proof.
  unfold bgImageOf, bgTypeOf. destruct (background p) as [bg|]; [|discriminate].
  destruct (bg_type bg); try discriminate. reflexivity.
Qed.

Lemma layoutFilter_placeholder p img :
  bgImageOf p = Some img -> includes (layoutFilter p) "[bg_img]" = true.
Proof.
  intros Hi. pose proof (bgImageOf_image p img Hi) as Ht.
  unfold layoutFilter, needsSmartLayout. destruct (targetOf p) as [w h].
  rewrite Ht. cbn [isBlack negb]. rewrite orb_true_r.
  unfold smartGraph, bgChain. rewrite Ht, Hi.
  apply includes_app_r, includes_app_l, includes_app_l. reflexivity.
Qed.

Lemma stageLayout_background p b img :
  bgImageOf p = Some img -> backgroundInput (stageLayout p b) = Some img.
Proof.
  intros Hi. pose proof (bgImageOf_image p img Hi) as Ht.
  unfold stageLayout, needsSmartLayout. destruct (targetOf p) as [w h].
  rewrite Ht, Hi. cbn [isBlack negb]. rewrite orb_true_r. reflexivity.
Qed.

Lemma earlyStages_inputPath p b :
  inputPath (stageLayout p (stageCrop p (stageTrim p (stageLoop p b)))) = inputPath b.
Proof.
  unfold stageLayout, stageCrop, stageTrim, stageLoop.
  destruct (targetOf p) as [w h].
  destruct (needsSmartLayout p), (bgTypeOf p), (bgImageOf p), (crop p) as [c|],
    (trim p), (loop p); cbn [pushVideo setTarget setBackgroundInput inputPath];
    try reflexivity;
    destruct (gt (crop_width c) 0 && gt (crop_height c) 0); reflexivity.
Qed.

(** Whenever an image background comes without an image input to overlay,
    [build] registers the background as input 1 and passes the filter graph
    on with its placeholder. *)
Lemma placeholder_kept_on_vf_path (p : ProfileData) (path img : string) :
  bgImageOf p = Some img ->
  logoInputs (applyProfile p (newBuilder path)) = [] ->
  let b := applyProfile p (newBuilder path) in
  inputArgs b = ["-i"; path; "-i"; img]
  /\ bgInputIdx b = 1%Z
  /\ exists vf, filterArgs b = ["-vf"; vf] /\ includes vf "[bg_img]" = true.
Proof.
  intros Hi Hl b.
  destruct (afterLayout_extends p (newBuilder path)) as [[more Hf] _ _ Hb Hp].
  fold b in Hf, Hb. rewrite stageLayout_filters in Hf.
  rewrite (stageLayout_background _ _ img Hi) in Hb.
  fold b in Hp.
  assert (Hpath : inputPath b = path).
  { rewrite Hp. apply earlyStages_inputPath. }
  split; [|split].
  - unfold inputArgs. fold b in Hl. rewrite Hl, Hb, Hpath. reflexivity.
  - unfold bgInputIdx. fold b in Hl. rewrite Hl, Hb. reflexivity.
  - unfold filterArgs. fold b in Hl. rewrite Hl.
    assert (Hin : layoutFilter p ∈ videoFilters b) by (rewrite Hf; set_solver).
    destruct (videoFilters b) as [|f fs] eqn:Hv; [inversion Hin|].
    eexists. split; [reflexivity|].
    apply (join_includes _ _ (layoutFilter p)); [exact Hin|].
    now apply (layoutFilter_placeholder p img).
Qed.

End PlaceholderFacts.

Section ProtectionFacts.
Context `{JsNumber}.

Lemma orNum_some_max (i : Q) : (Qmax 1 (orNum (Some i) 1) == Qmax 1 i)%Q.
Proof.
  unfold orNum, nonzero. destruct (Qeq_bool i 0) eqn:E; simpl; [|reflexivity].
  apply Qeq_bool_iff in E. rewrite E. reflexivity.
Qed.

Lemma round_orNum_max (i : Q) : Z.max 1 (round (orNum (Some i) 1)) = Z.max 1 (round i).
Proof.
  unfold orNum, nonzero. destruct (Qeq_bool i 0) eqn:E; simpl; [|reflexivity].
  apply Qeq_bool_iff in E. unfold round.
  assert (Hr : Qfloor (i + (1 # 2)) = Qfloor (0 + (1 # 2))).
  { apply Qfloor_comp. rewrite E. reflexivity. }
  rewrite Hr. reflexivity.
Qed.

Lemma randomProb_bounds (pr : Protection) : (0 < randomProb pr /\ randomProb pr <= 1)%Q.
Proof.
  unfold randomProb. split; [|apply Q.le_min_l].
  apply Q.min_glb_lt; [reflexivity|].
  assert (Hn : (1 <= Qmax 1 (orNum (pr_injectionFrames pr) 1))%Q) by apply Q.le_max_l.
  assert (Hd : (1 <= Qmax 1 (pr_interval pr))%Q) by apply Q.le_max_l.
  apply Qlt_shift_div_l; lra.
Qed.

(** C10. Before the enable expression is emitted, the trigger parameters are
    normalised: in frame mode the interval is rounded and at least 2 and the
    injection count rounded and at least 1; in random mode the probability is
    [min(1, max(1, injectionFrames) / max(1, interval))], hence positive and
    at most 1; in time mode the interval is at least 0.1 and a missing (or
    zero) duration becomes 0.04. *)
Theorem C10_trigger_parameters_normalised (pr : Protection) :
  (pr_mode pr = Some ModeFrame ->
     enableExpr pr = "lt(mod(n," +:+ showZ (frameInterval pr) +:+ "),"
                     +:+ showZ (frameInjection pr) +:+ ")"
     /\ frameInterval pr = Z.max 2 (round (pr_interval pr))
     /\ (forall i, pr_injectionFrames pr = Some i -> frameInjection pr = Z.max 1 (round i))
     /\ (pr_injectionFrames pr = None -> frameInjection pr = 1%Z)
     /\ (2 <= frameInterval pr)%Z /\ (1 <= frameInjection pr)%Z)
  /\ (pr_mode pr = Some ModeRandom ->
     enableExpr pr = "lt(random(1)," +:+ showNum (randomProb pr) +:+ ")"
     /\ (forall i, pr_injectionFrames pr = Some i ->
           randomProb pr == Qmin 1 (Qmax 1 i / Qmax 1 (pr_interval pr)))%Q
     /\ (pr_injectionFrames pr = None ->
           randomProb pr == Qmin 1 (1 / Qmax 1 (pr_interval pr)))%Q
     /\ (0 < randomProb pr)%Q /\ (randomProb pr <= 1)%Q)
  /\ (pr_mode pr = Some ModeTime \/ pr_mode pr = None ->
     enableExpr pr = "lt(mod(t," +:+ showNum (timeInterval pr) +:+ "),"
                     +:+ showNum (timeDuration pr) +:+ ")"
     /\ timeInterval pr = Qmax (1 # 10) (pr_interval pr)
     /\ (1 # 10 <= timeInterval pr)%Q
     /\ (pr_duration pr = None -> timeDuration pr = (4 # 100)%Q)
     /\ (forall d, pr_duration pr = Some d -> (d == 0)%Q -> timeDuration pr = (4 # 100)%Q)
     /\ (forall d, pr_duration pr = Some d -> ~ (d == 0)%Q -> timeDuration pr = d)).
Proof.
  split; [|split].
  - intros Hm. unfold enableExpr. rewrite Hm.
    split; [reflexivity|]. split; [reflexivity|].
    split; [|split; [|split]].
    + intros i Hi. unfold frameInjection. rewrite Hi. apply round_orNum_max.
    + intros Hi. unfold frameInjection. rewrite Hi. reflexivity.
    + unfold frameInterval. lia.
    + unfold frameInjection. lia.
  - intros Hm. unfold enableExpr. rewrite Hm.
    split; [reflexivity|]. split; [|split; [|apply randomProb_bounds]].
    + intros i Hi. unfold randomProb. rewrite Hi, orNum_some_max. reflexivity.
    + intros Hi. unfold randomProb. rewrite Hi. reflexivity.
  - intros Hm.
    split; [unfold enableExpr; destruct Hm as [-> | ->]; reflexivity|].
    split; [reflexivity|]. split; [apply Q.le_max_l|].
    unfold timeDuration, orNum, nonzero.
    split; [|split].
    + intros ->. reflexivity.
    + intros d -> Hd. apply Qeq_bool_iff in Hd. rewrite Hd. reflexivity.
    + intros d -> Hd. destruct (Qeq_bool d 0) eqn:E; [|reflexivity].
      apply Qeq_bool_iff in E. contradiction.
Qed.

End ProtectionFacts.

(** The effect filters of all types but subtle noise carry the enable
    expression; an image effect carries it to [build] with its logo. *)
Lemma protectionEffect_enabled `{JsNumber} (pr : Protection) :
  pr_type pr <> PtSubtleNoise ->
  match protectionEffect pr with
  | EffFilter f => exists base, f = base +:+ enableSuffix (enableExpr pr)
  | EffLogo l => logo_enable l = Some (enableExpr pr)
  end.
Proof.
  intros Hne. unfold protectionEffect.
  cbv zeta. set (suffix := enableSuffix (enableExpr pr)).
  destruct (pr_type pr); try contradiction;
    try (destruct (pr_imagePath pr) as [path|]; [destruct (truthy path)|]);
    try reflexivity; rewrite <- ?append_assoc; eexists; reflexivity.
Qed.

(** C9 (where the code departs from the specification). For the subtle-noise effect
    the compiler emits [noise=alls=N:allf=t] with no enable expression,
    whatever the trigger mode and its parameters; the static-noise effect,
    built on the same filter, carries one. *)
Theorem C9_subtle_noise_lacks_enable :
  (forall (N : JsNumber) mode interval duration strength frames image,
     @protectionEffect N
       {| pr_type := PtSubtleNoise; pr_mode := mode; pr_interval := interval;
          pr_duration := duration; pr_strength := strength;
          pr_injectionFrames := frames; pr_imagePath := image |}
     = EffFilter ("noise=alls=" +:+ @showZ N (round (5 * orNum strength 1)) +:+ ":allf=t"))
  /\ @protectionEffect exampleNumber (CompilerExamples.everyFiveSeconds PtSubtleNoise)
     = EffFilter "noise=alls=5:allf=t"
  /\ includes "noise=alls=5:allf=t" "enable" = false
  /\ @protectionEffect exampleNumber (CompilerExamples.everyFiveSeconds PtStatic)
     = EffFilter "noise=alls=100:allf=t+u:enable='lt(mod(t,5),0.04)'".
Proof. repeat split; reflexivity. Qed.

(** C7 (where the code departs from the specification). With an image background and
    no overlay image, the background is registered as input 1, but the
    arguments are assembled on the [-vf] path, which leaves the placeholder
    [[bg_img]] in the filter graph; with one overlay image the
    [-filter_complex] path rewrites it to the background's index, 2. *)
Theorem C7_placeholder_kept_without_overlay_images :
  CompilerExamples.compiled
    (CompilerExamples.withBackground CompilerExamples.imageBackground [])
  = ["-re"; "-i"; "in.mp4"; "-i"; "bg.png"; "-vf";
     "split=1[fg_src];[bg_img]scale=1920:1080:force_original_aspect_ratio=increase,crop=1920:1080[bg];[fg_src]scale=iw*1:ih*1,scale=w=1920:h=1080:force_original_aspect_ratio=decrease[fg];[bg][fg]overlay=(W-w)/2+(0*W/100):(H-h)/2+(0*H/100)";
     "-c:v"; "libx264"; "-b:v"; "4500k"; "-pix_fmt"; "yuv420p"; "-c:a";
     "aac"; "-b:a"; "128k"; "-ar"; "44100"; "-f"; "flv"; "rtmp://ingest/key"]
  /\ CompilerExamples.compiled
       (CompilerExamples.withBackground CompilerExamples.imageBackground
          [CompilerExamples.logoOverlay])
     = ["-re"; "-i"; "in.mp4"; "-i"; "logo.png"; "-i"; "bg.png"; "-filter_complex";
        "[0:v]split=1[fg_src];[2:v]scale=1920:1080:force_original_aspect_ratio=increase,crop=1920:1080[bg];[fg_src]scale=iw*1:ih*1,scale=w=1920:h=1080:force_original_aspect_ratio=decrease[fg];[bg][fg]overlay=(W-w)/2+(0*W/100):(H-h)/2+(0*H/100)[vbase];[1:v]scale=192:-1[sc1];[vbase][sc1]overlay=x=(W*0.05):y=(H*0.05)[vov1]";
        "-map"; "[vov1]"; "-map"; "0:a"; "-c:v"; "libx264"; "-b:v"; "4500k";
        "-pix_fmt"; "yuv420p"; "-c:a"; "aac"; "-b:a"; "128k"; "-ar"; "44100";
        "-f"; "flv"; "rtmp://ingest/key"].
Proof. split; vm_compute; reflexivity. Qed.

(** The [-vf] path never rewrites the placeholder, whatever the filters. *)
Lemma filterArgs_without_logos `{JsNumber} (b : Builder) (f : string) (fs : list string) :
  logoInputs b = [] -> videoFilters b = f :: fs ->
  filterArgs b = ["-vf"; join "," (f :: fs)].
Proof. intros Hl Hf. unfold filterArgs. rewrite Hl, Hf. reflexivity. Qed.

Lemma C6_layout_witness :
  @layoutFilter exampleNumber CompilerExamples.plain
  = "scale=1920:1080:force_original_aspect_ratio=decrease,pad=1920:1080:(ow-iw)/2:(oh-ih)/2"
  /\ includes (@layoutFilter exampleNumber (CompilerExamples.withZoom (3 # 2))) "overlay" = true.
Proof.
  split.
  - exact (proj2 (proj1 (proj2
             (@C6_layout_simple_iff_default exampleNumber CompilerExamples.plain "in.mp4")))
             (conj eq_refl eq_refl)).
  - refine (proj2 (proj2 (proj2 (proj2
             (@C6_layout_simple_iff_default exampleNumber (CompilerExamples.withZoom (3 # 2))
                "in.mp4"))) _)).
    intros [Hz _]. discriminate Hz.
Defined.

Lemma C10_trigger_witness :
  @enableExpr exampleNumber (CompilerExamples.trigger (Some ModeFrame) 0 (Some 0%Q))
  = "lt(mod(n,2),1)"
  /\ @enableExpr exampleNumber (CompilerExamples.trigger (Some ModeRandom) 2 (Some 5%Q))
     = "lt(random(1),1)"
  /\ @enableExpr exampleNumber (CompilerExamples.trigger (Some ModeTime) 0 None)
     = "lt(mod(t,0.1),0.04)".
Proof.
  split; [|split].
  - exact (proj1 (proj1 (@C10_trigger_parameters_normalised exampleNumber
                           (CompilerExamples.trigger (Some ModeFrame) 0 (Some 0%Q))) eq_refl)).
  - exact (proj1 (proj1 (proj2 (@C10_trigger_parameters_normalised exampleNumber
                           (CompilerExamples.trigger (Some ModeRandom) 2 (Some 5%Q)))) eq_refl)).
  - exact (proj1 (proj2 (proj2 (@C10_trigger_parameters_normalised exampleNumber
                           (CompilerExamples.trigger (Some ModeTime) 0 None)))
                    (or_introl eq_refl))).
Defined.

(* ================================================================== *)
(** ** Properties of the orchestrator *)
(* ================================================================== *)

Import Orchestrator.

Section StoreFacts.

Lemma lookup_updateJobStatus (k k' : string) (s : JobStatus) (d : Db) :
  stream_queue (updateJobStatus k s d) !! k'
  = if decide (k = k') then jobWithStatus s <$> stream_queue d !! k' else stream_queue d !! k'.
Proof.
  unfold updateJobStatus. simpl. rewrite lookup_alter. case_decide; subst; reflexivity.
Qed.

Lemma lookup_updateJobAttempts (k k' : string) (s : JobStatus) (n : Z) (d : Db) :
  stream_queue (updateJobAttempts k s n d) !! k'
  = if decide (k = k') then jobWithAttempts s n <$> stream_queue d !! k'
    else stream_queue d !! k'.
Proof.
  unfold updateJobAttempts. simpl. rewrite lookup_alter. case_decide; subst; reflexivity.
Qed.

Lemma queue_updateSessions sel f d :
  stream_queue (updateSessions sel f d) = stream_queue d.
Proof. reflexivity. Qed.

Lemma sessions_updateJobStatus k s d :
  stream_sessions (updateJobStatus k s d) = stream_sessions d.
Proof. reflexivity. Qed.

Lemma elem_of_updateSessions sel f d (s : Session) :
  s ∈ stream_sessions (updateSessions sel f d) ->
  exists s0, s0 ∈ stream_sessions d /\ s = if sel s0 then f s0 else s0.
Proof.
  unfold updateSessions. simpl. intros Hs.
  apply list_elem_of_fmap in Hs as [s0 [-> Hs0]]. eauto.
Qed.

Lemma ofJob_true jobId s : ofJob jobId s = true <-> s_job_id s = jobId.
Proof. unfold ofJob. apply String.eqb_eq. Qed.

Lemma finalizeStopped_status now jobId d j :
  stream_queue d !! jobId = Some j ->
  stream_queue (finalizeStopped now jobId d) !! jobId = Some (jobWithStatus Stopped j).
Proof.
  intros Hj. unfold finalizeStopped. rewrite queue_updateSessions, lookup_updateJobStatus.
  rewrite decide_True by reflexivity. rewrite Hj. reflexivity.
Qed.

Lemma finalizeStopped_sessions now jobId d (s : Session) :
  s ∈ stream_sessions (finalizeStopped now jobId d) -> s_job_id s = jobId ->
  s_status s = SStopped /\ ended_at s = Some now.
Proof.
  unfold finalizeStopped. intros Hs Hid.
  apply elem_of_updateSessions in Hs as [s0 [_ ->]].
  destruct (ofJob jobId s0) eqn:E; [split; reflexivity|].
  apply ofJob_true in Hid. congruence.
Qed.

End StoreFacts.

Section ExitFacts.
Context `{JsNumber} `{Vault}.

Lemma isStopping_false cur : status cur <> Stopping -> isStopping (Some cur) = false.
Proof. simpl. destruct (status cur); congruence. Qed.

Lemma loopMode_inv z mode :
  Spec.loopMode z = Some mode ->
  (z = 0%Z /\ mode = Spec.Off) \/ (z = 1%Z /\ mode = Spec.LoopAll)
  \/ (z = 2%Z /\ mode = Spec.LoopOne).
Proof.
  unfold Spec.loopMode. intros Hm.
  destruct (Z.eqb_spec z 0); [injection Hm as <-; auto|].
  destruct (Z.eqb_spec z 1); [injection Hm as <-; auto|].
  destruct (Z.eqb_spec z 2); [injection Hm as <-; auto|discriminate].
Qed.

(** C1. When the process of a job exits with code 0 while the job is not
    stopping, the exit handler decides exactly as the specification's table:
    with a multi-item playlist LoopOne restarts at the same index, otherwise
    the next index is taken when it exists, otherwise LoopAll wraps to index
    0, otherwise job and sessions become stopped; with a single item LoopAll
    and LoopOne restart at index 0 and Off stops. A restart is the start
    sequence at that index. *)
Theorem C1_exit_restarts_at_table_index (env : Env) (job : StreamJob) (videoIndex : Z)
  (st : Orch) (cur : StreamJob) (mode : Spec.LoopMode) :
  stream_queue (db st) !! id job = Some cur ->
  status cur <> Stopping ->
  Spec.loopMode (loop cur) = Some mode ->
  let st1 := withStreams (delete (id job)) st in
  let res := onClose (now env) job videoIndex (Some 0%Z) st in
  snd res = Spec.exitDecision mode (length (default [] (playlist cur))) videoIndex
  /\ activeStreams (fst res) !! id job = None
  /\ match snd res with
     | Restart i =>
         fst res = st1
         /\ closeAndRestart env job videoIndex (Some 0%Z) st
            = sr_state (startStream env job i st1)
     | _ =>
         Spec.statusOf (id job) (fst res) = Some Stopped
         /\ (forall s : Session, s ∈ stream_sessions (db (fst res)) ->
               s_job_id s = id job -> s_status s = SStopped)
         /\ closeAndRestart env job videoIndex (Some 0%Z) st = fst res
     end.
Proof.
  intros Hcur Hst Hmode st1 res.
  assert (Hres : res = onClose (now env) job videoIndex (Some 0%Z) st) by reflexivity.
  assert (Hcr : closeAndRestart env job videoIndex (Some 0%Z) st
                = match snd res with
                  | Restart i => sr_state (startStream env job i (fst res))
                  | _ => fst res
                  end).
  { unfold closeAndRestart. fold res. destruct res as [s a]. reflexivity. }
  unfold onClose in Hres. fold st1 in Hres.
  change (stream_queue (db st1) !! id job) with (stream_queue (db st) !! id job) in Hres.
  rewrite Hcur, (isStopping_false _ Hst) in Hres.
  assert (Hgone : activeStreams st1 !! id job = None) by apply lookup_delete_eq.
  assert (Hfin : forall r, r = (withDb (finalizeStopped (now env) (id job)) st1, Finished) ->
    activeStreams (fst r) !! id job = None
    /\ Spec.statusOf (id job) (fst r) = Some Stopped
    /\ (forall s : Session, s ∈ stream_sessions (db (fst r)) ->
               s_job_id s = id job -> s_status s = SStopped)).
  { intros r ->. split; [exact Hgone|]. split.
    - unfold Spec.statusOf. cbn [fst withDb db].
      rewrite (finalizeStopped_status _ _ _ cur) by exact Hcur. reflexivity.
    - intros s Hs Hid. cbn [fst withDb db] in Hs.
      now apply (finalizeStopped_sessions _ _ _ _ Hs). }
  unfold Spec.exitDecision.
  destruct (playlist cur) as [l|] eqn:Hpl; simpl default in *; simpl length.
  - replace (1 <? Z.of_nat (length l))%Z with (1 <? length l)%nat in Hres
      by (destruct (Nat.ltb_spec 1 (length l)), (Z.ltb_spec 1 (Z.of_nat (length l))); lia).
    destruct (1 <? length l)%nat;
      destruct (loopMode_inv _ _ Hmode) as [[E ->]|[[E ->]|[E ->]]];
      rewrite E in Hres; simpl in Hres;
      try destruct (videoIndex + 1 <? Z.of_nat (length l))%Z;
      try (rewrite Hcr, Hres; simpl; auto; fail);
      destruct (Hfin _ Hres) as (? & ? & ?); rewrite Hcr, Hres; simpl;
      rewrite Hres in *; auto.
  - simpl in Hres.
    destruct (loopMode_inv _ _ Hmode) as [[E ->]|[[E ->]|[E ->]]];
      rewrite E in Hres; simpl in Hres;
      try (rewrite Hcr, Hres; simpl; auto; fail);
      destruct (Hfin _ Hres) as (? & ? & ?); rewrite Hcr, Hres; simpl;
      rewrite Hres in *; auto.
Qed.

End ExitFacts.

Section RecoveryCounter.

Lemma processQueue_admissible now st (j : StreamJob) :
  j ∈ processQueue now st -> admissible now j = true.
Proof.
  unfold processQueue. destruct (maxConcurrent <=? size (activeStreams st))%nat.
  - intros Hj. inversion Hj.
  - intros Hj. apply subseteq_take in Hj. rewrite merge_sort_Permutation in Hj.
    apply list_elem_of_filter in Hj as [Hadm _]. now apply Is_true_true.
Qed.

Lemma processQueue_length now st :
  (length (processQueue now st) + size (activeStreams st) <= Nat.max maxConcurrent (size (activeStreams st)))%nat.
Proof.
  unfold processQueue. destruct (Nat.leb_spec maxConcurrent (size (activeStreams st))).
  - simpl. lia.
  - rewrite length_take. lia.
Qed.

(** C2 (as amended). An exit with a non-zero or abnormal code while the job is
    not stopping increments [recovery_attempts] by one and makes the job
    [failed] exactly when the incremented counter is at least
    [MAX_RECOVERY_ATTEMPTS] (for a job below the maximum: exactly when it
    reaches it), [failed_recovery] otherwise; an exit of a stopping job, or
    with code 0, leaves the counter as it is, so it never decreases; and the
    admission loop selects no job whose counter is at or above the maximum. *)
Theorem C2_recovery_counter (now : Z) (job : StreamJob) (videoIndex : Z) (code : option Z)
  (st : Orch) (cur : StreamJob) :
  stream_queue (db st) !! id job = Some cur ->
  let st' := fst (onClose now job videoIndex code st) in
  let n := default 0%Z (recovery_attempts cur) in
  (status cur <> Stopping -> code <> Some 0%Z ->
     Spec.attemptsOf (id job) st' = (n + 1)%Z
     /\ (Spec.statusOf (id job) st' = Some Failed <-> (MAX_RECOVERY_ATTEMPTS <= n + 1)%Z)
     /\ (Spec.statusOf (id job) st' = Some FailedRecovery <-> (n + 1 < MAX_RECOVERY_ATTEMPTS)%Z)
     /\ ((n < MAX_RECOVERY_ATTEMPTS)%Z ->
         (Spec.statusOf (id job) st' = Some Failed <-> (n + 1 = MAX_RECOVERY_ATTEMPTS)%Z)))
  /\ (status cur = Stopping \/ code = Some 0%Z -> Spec.attemptsOf (id job) st' = n)
  /\ (n <= Spec.attemptsOf (id job) st')%Z
  /\ (forall j : StreamJob, j ∈ processQueue now st ->
        (default 0 (recovery_attempts j) < MAX_RECOVERY_ATTEMPTS)%Z).
Proof.
  intros Hcur st' n.
  assert (Hfail : status cur <> Stopping -> code <> Some 0%Z ->
     Spec.attemptsOf (id job) st' = (n + 1)%Z
     /\ (Spec.statusOf (id job) st' = Some Failed <-> (MAX_RECOVERY_ATTEMPTS <= n + 1)%Z)
     /\ (Spec.statusOf (id job) st' = Some FailedRecovery <-> (n + 1 < MAX_RECOVERY_ATTEMPTS)%Z)).
  { intros Hst Hcode. subst st'. unfold onClose.
    change (stream_queue (db (withStreams (delete (id job)) st)) !! id job)
      with (stream_queue (db st) !! id job).
    rewrite Hcur, (isStopping_false _ Hst).
    assert (Hbranch : forall A (a b : A),
              match code with Some 0%Z => a | _ => b end = b).
    { intros A a b. destruct code as [[| |]|]; congruence. }
    rewrite Hbranch. clear Hbranch. fold n.
    unfold Spec.attemptsOf, Spec.statusOf. cbn [fst withDb db].
    rewrite queue_updateSessions.
    destruct (Z.leb_spec MAX_RECOVERY_ATTEMPTS (n + 1));
      rewrite lookup_updateJobAttempts, decide_True by reflexivity;
      cbn [withStreams db]; rewrite Hcur; cbn.
    - split; [reflexivity|]. split; split; try reflexivity; try lia; discriminate.
    - split; [reflexivity|]. split; split; try reflexivity; try lia; discriminate. }
  assert (Hsame : status cur = Stopping \/ code = Some 0%Z ->
                  Spec.attemptsOf (id job) st' = n).
  { intros Hor. subst st'. unfold onClose.
    change (stream_queue (db (withStreams (delete (id job)) st)) !! id job)
      with (stream_queue (db st) !! id job).
    rewrite Hcur. unfold Spec.attemptsOf.
    assert (Hfin : stream_queue (db (withDb (finalizeStopped now (id job))
                     (withStreams (delete (id job)) st))) !! id job
                   = Some (jobWithStatus Stopped cur)).
    { cbn [withDb db withStreams]. now apply finalizeStopped_status. }
    assert (Hkeep : stream_queue (db (withStreams (delete (id job)) st)) !! id job = Some cur)
      by exact Hcur.
    destruct (isStopping (Some cur)) eqn:Es.
    { cbn [fst]. rewrite Hfin. reflexivity. }
    destruct Hor as [Hs | ->].
    { simpl in Es. rewrite Hs in Es. discriminate. }
    repeat match goal with
           | |- context [if ?c then _ else _] => destruct c
           end; cbn [fst]; rewrite ?Hfin, ?Hkeep; reflexivity. }
  split.
  { intros Hs Hc. destruct (Hfail Hs Hc) as (Ha & Hf & Hfr).
    split; [exact Ha|]. split; [exact Hf|]. split; [exact Hfr|].
    intros Hlt. rewrite Hf. lia. }
  split; [exact Hsame|]. split.
  - destruct (decide (status cur = Stopping)) as [Hs|Hs].
    { rewrite Hsame by auto. lia. }
    destruct (decide (code = Some 0%Z)) as [Hc|Hc].
    { rewrite Hsame by auto. lia. }
    destruct (Hfail Hs Hc) as [-> _]. lia.
  - intros j Hj. apply processQueue_admissible in Hj. unfold admissible in Hj.
    apply andb_true_iff in Hj as [_ Hj]. now apply Z.ltb_lt in Hj.
Qed.

End RecoveryCounter.

Section TokenRecovery.
Context `{Vault} {A : Type}.

Lemma pageWithToken_twice enc1 enc2 p :
  pageWithToken enc2 (pageWithToken enc1 p) = pageWithToken enc2 p.
Proof. reflexivity. Qed.

(** The loop over the refresh batch, row by row. *)
Lemma storeFresh_fold (pageId : string) (batch : list PageInfo) (d : Db) (tok : string) :
  let '(d', tok') := fold_left (storeFresh pageId) batch (d, tok) in
  (forall pid, pages d' !! pid
               = match Spec.refreshedToken pid batch with
                 | Some t => pageWithToken (encrypt t) <$> pages d !! pid
                 | None => pages d !! pid
                 end)
  /\ tok' = default tok (Spec.refreshedToken pageId batch)
  /\ settings d' = settings d /\ stream_queue d' = stream_queue d
  /\ stream_sessions d' = stream_sessions d /\ videos d' = videos d
  /\ editing_profiles d' = editing_profiles d.
Proof.
  revert d tok. induction batch as [|p rest IH]; intros d tok.
  - simpl. repeat split; reflexivity.
  - cbn [fold_left].
    change (storeFresh pageId (d, tok) p)
      with (setPages (alter (pageWithToken (encrypt (pi_access_token p))) (pi_id p)) d,
            if String.eqb (pi_id p) pageId then pi_access_token p else tok).
    specialize (IH (setPages (alter (pageWithToken (encrypt (pi_access_token p))) (pi_id p)) d)
                   (if String.eqb (pi_id p) pageId then pi_access_token p else tok)).
    destruct (fold_left (storeFresh pageId) rest _) as [d' tok'].
    destruct IH as (Hp & Ht & Hs & Hq & Hss & Hv & He).
    split; [|split; [|repeat split; assumption]].
    + intros pid. rewrite Hp. simpl. rewrite lookup_alter.
      destruct (Spec.refreshedToken pid rest) as [t|].
      * case_decide; [subst|reflexivity].
        destruct (pages d !! pi_id p); reflexivity.
      * destruct (String.eqb_spec (pi_id p) pid) as [->|Hne].
        -- rewrite decide_True by reflexivity. reflexivity.
        -- rewrite decide_False by exact Hne. reflexivity.
    + rewrite Ht. simpl. destruct (Spec.refreshedToken pageId rest); [reflexivity|].
      destruct (String.eqb (pi_id p) pageId); reflexivity.
Qed.

(** Whatever happens, the callback is invoked at most twice. *)
Lemma withTokenRecovery_calls (remote : Remote) (pageId : string) (action : Action A) (d : Db) :
  (length (rc_calls (withTokenRecovery remote pageId action d)) <= 2)%nat.
Proof.
  unfold withTokenRecovery.
  repeat match goal with
         | |- context [match ?x with _ => _ end] => destruct x; simpl; try lia
         end.
Qed.

Variables (remote : Remote) (pageId : string) (action : Action A) (d : Db).
Variables (page : Page) (token : string) (e : Error).
Hypothesis Hpage : pages d !! pageId = Some page.
Hypothesis Htoken :
  decrypt (access_token_encrypted page) (access_token_nonce page) (access_token_tag page)
  = Ok token.
Hypothesis Hfirst : action O token = Throw e.
Hypothesis Hexpired : isExpired e = true.

Let r := withTokenRecovery remote pageId action d.

Lemma recovery_unfold :
  r = match settings d !! "app_id", settings d !! "app_secret",
            settings d !! "user_token_encrypted" with
      | Some dbAppId, Some dbAppSecret, Some encToken =>
        match settings d !! "user_token_nonce", settings d !! "user_token_tag" with
        | Some n, Some t =>
          match decrypt encToken n t with
          | Throw de => {| rc_db := d; rc_result := Throw de; rc_calls := [token] |}
          | Ok userToken =>
            match syncPageTokens remote userToken with
            | Throw _ => {| rc_db := d; rc_result := Throw e; rc_calls := [token] |}
            | Ok freshPages =>
              let '(d', newToken) := fold_left (storeFresh pageId) freshPages (d, "") in
              if truthy newToken then
                match action 1%nat newToken with
                | Ok a => {| rc_db := d'; rc_result := Ok a; rc_calls := [token; newToken] |}
                | Throw _ =>
                    {| rc_db := d'; rc_result := Throw e; rc_calls := [token; newToken] |}
                end
              else {| rc_db := d'; rc_result := Throw e; rc_calls := [token] |}
            end
          end
        | _, _ =>
          {| rc_db := d;
             rc_result :=
               Throw (mkError "Cannot read properties of undefined (reading 'value')");
             rc_calls := [token] |}
        end
      | _, _, _ => {| rc_db := d; rc_result := Throw e; rc_calls := [token] |}
      end.
Proof.
  unfold r, withTokenRecovery. rewrite Hpage, Htoken, Hfirst, Hexpired. reflexivity.
Qed.

Lemma recovery_missing_credentials :
  settings d !! "app_id" = None \/ settings d !! "app_secret" = None
  \/ settings d !! "user_token_encrypted" = None ->
  r = {| rc_db := d; rc_result := Throw e; rc_calls := [token] |}.
Proof.
  intros Hm. rewrite recovery_unfold.
  destruct (settings d !! "app_id"), (settings d !! "app_secret"),
    (settings d !! "user_token_encrypted"); try reflexivity.
  destruct Hm as [Hm|[Hm|Hm]]; discriminate.
Qed.

(** The three rows that the code tests are present, but the nonce or the tag
    of the account credential is not: reading its [value] throws, outside the
    inner [try]. *)
Lemma recovery_incomplete_credentials appId appSecret encToken :
  settings d !! "app_id" = Some appId ->
  settings d !! "app_secret" = Some appSecret ->
  settings d !! "user_token_encrypted" = Some encToken ->
  settings d !! "user_token_nonce" = None \/ settings d !! "user_token_tag" = None ->
  r = {| rc_db := d;
         rc_result := Throw (mkError "Cannot read properties of undefined (reading 'value')");
         rc_calls := [token] |}.
Proof.
  intros Ha Hs He Hm. rewrite recovery_unfold, Ha, Hs, He.
  destruct Hm as [Hm|Hm]; rewrite Hm; [reflexivity|].
  destruct (settings d !! "user_token_nonce"); reflexivity.
Qed.

(** The account credential is complete but cannot be decrypted: the error of
    [decrypt] leaves the wrapper, again outside the inner [try]. *)
Lemma recovery_undecryptable appId appSecret encToken n t de :
  settings d !! "app_id" = Some appId ->
  settings d !! "app_secret" = Some appSecret ->
  settings d !! "user_token_encrypted" = Some encToken ->
  settings d !! "user_token_nonce" = Some n ->
  settings d !! "user_token_tag" = Some t ->
  decrypt encToken n t = Throw de ->
  r = {| rc_db := d; rc_result := Throw de; rc_calls := [token] |}.
Proof.
  intros Ha Hs He Hn Ht Hd. rewrite recovery_unfold, Ha, Hs, He, Hn, Ht, Hd. reflexivity.
Qed.

(** The error of the failed property read is not the original one, which
    carries an expiry message. *)
Lemma typeError_not_original :
  @Throw A (mkError "Cannot read properties of undefined (reading 'value')") <> Throw e.
Proof.
  intros [= He]. rewrite <- He in Hexpired. discriminate Hexpired.
Qed.

Section Refreshed.
Variables (appId appSecret encToken n t userToken : string) (batch : list PageInfo).
Hypothesis HappId : settings d !! "app_id" = Some appId.
Hypothesis HappSecret : settings d !! "app_secret" = Some appSecret.
Hypothesis Henc : settings d !! "user_token_encrypted" = Some encToken.
Hypothesis Hnonce : settings d !! "user_token_nonce" = Some n.
Hypothesis Htag : settings d !! "user_token_tag" = Some t.
Hypothesis Huser : decrypt encToken n t = Ok userToken.

Lemma recovery_refresh_failed e' :
  syncPageTokens remote userToken = Throw e' ->
  r = {| rc_db := d; rc_result := Throw e; rc_calls := [token] |}.
Proof.
  intros Hs. rewrite recovery_unfold, HappId, HappSecret, Henc, Hnonce, Htag, Huser, Hs.
  reflexivity.
Qed.

Hypothesis Hsync : syncPageTokens remote userToken = Ok batch.

Lemma recovery_store pid :
  pages (rc_db r) !! pid
  = match Spec.refreshedToken pid batch with
    | Some tk => pageWithToken (encrypt tk) <$> pages d !! pid
    | None => pages d !! pid
    end.
Proof.
  rewrite recovery_unfold, HappId, HappSecret, Henc, Hnonce, Htag, Huser, Hsync.
  pose proof (storeFresh_fold pageId batch d "") as Hf.
  destruct (fold_left (storeFresh pageId) batch (d, "")) as [d' tok'].
  destruct Hf as (Hp & _).
  destruct (truthy tok'); [destruct (action 1%nat tok')|]; apply Hp.
Qed.

Lemma recovery_retry newToken :
  Spec.refreshedToken pageId batch = Some newToken -> truthy newToken = true ->
  rc_calls r = [token; newToken]
  /\ rc_result r = match action 1%nat newToken with
                   | Ok a => Ok a
                   | Throw _ => Throw e
                   end.
Proof.
  intros Hr Ht.
  rewrite recovery_unfold, HappId, HappSecret, Henc, Hnonce, Htag, Huser, Hsync.
  pose proof (storeFresh_fold pageId batch d "") as Hf.
  destruct (fold_left (storeFresh pageId) batch (d, "")) as [d' tok'].
  destruct Hf as (_ & Htok & _). rewrite Hr in Htok. simpl in Htok. subst tok'.
  rewrite Ht. destruct (action 1%nat newToken); split; reflexivity.
Qed.

Lemma recovery_absent :
  Spec.refreshedToken pageId batch = None \/ Spec.refreshedToken pageId batch = Some "" ->
  rc_calls r = [token] /\ rc_result r = Throw e.
Proof.
  intros Hr.
  rewrite recovery_unfold, HappId, HappSecret, Henc, Hnonce, Htag, Huser, Hsync.
  pose proof (storeFresh_fold pageId batch d "") as Hf.
  destruct (fold_left (storeFresh pageId) batch (d, "")) as [d' tok'].
  destruct Hf as (_ & Htok & _).
  assert (tok' = "") as -> by (destruct Hr as [Hr|Hr]; rewrite Hr in Htok; exact Htok).
  split; reflexivity.
Qed.

End Refreshed.


(** C3. When the first attempt of a wrapped call fails with an expired or
    invalid credential message, the callback is never invoked more than
    twice, and:
    - if [app_id], [app_secret] or [user_token_encrypted] is missing, the
      original error is propagated and nothing else happens;
    - if those are present but the nonce or the tag of the account
      credential is missing, or the credential cannot be decrypted, the
      wrapper throws the error of that step (a failed property read, or the
      decryption error) and not the original one: the code diverges here
      from the rule that the original error is propagated;
    - if the refresh itself fails the original error is propagated;
    - otherwise the credential of every destination of the refresh batch is
      re-encrypted and stored, and the call is retried exactly once with the
      refreshed credential of the requested destination, the original error
      being propagated when that destination is absent from the batch or the
      retry fails. *)
Theorem C3_token_recovery :
  (length (rc_calls r) <= 2)%nat
  /\ (settings d !! "app_id" = None \/ settings d !! "app_secret" = None
      \/ settings d !! "user_token_encrypted" = None ->
      rc_result r = Throw e /\ rc_calls r = [token] /\ rc_db r = d)
  /\ (forall appId appSecret encToken,
        settings d !! "app_id" = Some appId ->
        settings d !! "app_secret" = Some appSecret ->
        settings d !! "user_token_encrypted" = Some encToken ->
        (settings d !! "user_token_nonce" = None \/ settings d !! "user_token_tag" = None ->
           rc_result r
           = Throw (mkError "Cannot read properties of undefined (reading 'value')")
           /\ rc_result r <> Throw e /\ rc_calls r = [token] /\ rc_db r = d)
        /\ (forall n t de,
              settings d !! "user_token_nonce" = Some n ->
              settings d !! "user_token_tag" = Some t ->
              decrypt encToken n t = Throw de ->
              rc_result r = Throw de /\ (de <> e -> rc_result r <> Throw e)
              /\ rc_calls r = [token] /\ rc_db r = d))
  /\ (forall appId appSecret encToken n t userToken,
        settings d !! "app_id" = Some appId ->
        settings d !! "app_secret" = Some appSecret ->
        settings d !! "user_token_encrypted" = Some encToken ->
        settings d !! "user_token_nonce" = Some n ->
        settings d !! "user_token_tag" = Some t ->
        decrypt encToken n t = Ok userToken ->
        (forall e', syncPageTokens remote userToken = Throw e' ->
           rc_result r = Throw e /\ rc_calls r = [token] /\ rc_db r = d)
        /\ (forall batch, syncPageTokens remote userToken = Ok batch ->
              (forall pid,
                 pages (rc_db r) !! pid
                 = match Spec.refreshedToken pid batch with
                   | Some tk => pageWithToken (encrypt tk) <$> pages d !! pid
                   | None => pages d !! pid
                   end)
              /\ (forall newToken,
                    Spec.refreshedToken pageId batch = Some newToken ->
                    truthy newToken = true ->
                    rc_calls r = [token; newToken]
                    /\ rc_result r = match action 1%nat newToken with
                                     | Ok a => Ok a
                                     | Throw _ => Throw e
                                     end)
              /\ (Spec.refreshedToken pageId batch = None
                  \/ Spec.refreshedToken pageId batch = Some "" ->
                  rc_calls r = [token] /\ rc_result r = Throw e))).
Proof.
  split; [apply withTokenRecovery_calls|]. split; [|split].
  - intros Hm. rewrite (recovery_missing_credentials Hm). auto.
  - intros appId appSecret encToken Ha Hs He. split.
    + intros Hm. rewrite (recovery_incomplete_credentials appId appSecret encToken Ha Hs He Hm).
      cbn [rc_result rc_calls rc_db].
      split; [reflexivity|]. split; [apply typeError_not_original|]. split; reflexivity.
    + intros n t de Hn Ht Hd.
      rewrite (recovery_undecryptable appId appSecret encToken n t de Ha Hs He Hn Ht Hd).
      cbn [rc_result rc_calls rc_db].
      split; [reflexivity|]. split; [|split; reflexivity].
      intros Hne [= Heq]. contradiction.
  - intros appId appSecret encToken n t userToken Ha Hs He Hn Ht Hu. split.
    + intros e' Hsync.
      rewrite (recovery_refresh_failed appId appSecret encToken n t userToken
                 Ha Hs He Hn Ht Hu e' Hsync). auto.
    + intros batch Hsync. split; [|split].
      * intros pid.
        exact (recovery_store appId appSecret encToken n t userToken batch
                 Ha Hs He Hn Ht Hu Hsync pid).
      * intros newToken Hr Htr.
        exact (recovery_retry appId appSecret encToken n t userToken batch
                 Ha Hs He Hn Ht Hu Hsync newToken Hr Htr).
      * intros Hr.
        exact (recovery_absent appId appSecret encToken n t userToken batch
                 Ha Hs He Hn Ht Hu Hsync Hr).
Qed.

End TokenRecovery.

Section ReuseFacts.

Lemma later_fold (l : list Session) (best : option Session) :
  match fold_left later l best with
  | Some s =>
      (s ∈ l \/ best = Some s)
      /\ (forall s' : Session, s' ∈ l -> (started_at s' <= started_at s)%Z)
      /\ (forall b, best = Some b -> (started_at b <= started_at s)%Z)
  | None => l = [] /\ best = None
  end.
Proof.
  revert best. induction l as [|x l IH]; intros best.
  - simpl. destruct best as [b|]; [|auto].
    split; [auto|]. split; [intros s' Hs'; inversion Hs'|]. intros b' [= ->]. lia.
  - simpl. specialize (IH (later best x)).
    destruct (fold_left later l (later best x)) as [s|].
    + destruct IH as (Hin & Hmax & Hbest).
      assert (Hx : (started_at x <= started_at s)%Z).
      { unfold later in Hbest. destruct best as [b|]; [|now apply Hbest].
        destruct (Z.ltb_spec (started_at b) (started_at x)).
        - now apply Hbest.
        - specialize (Hbest b eq_refl). lia. }
      split; [|split].
      * destruct Hin as [Hin|Hin]; [left; now right|].
        unfold later in Hin. destruct best as [b|].
        -- destruct (started_at b <? started_at x)%Z; injection Hin as <-;
             [left; now left | now right].
        -- injection Hin as <-. left. now left.
      * intros s' Hs'. apply elem_of_cons in Hs' as [->|Hs']; auto.
      * intros b ->. unfold later in Hbest.
        destruct (Z.ltb_spec (started_at b) (started_at x)).
        -- lia.
        -- now apply Hbest.
    + destruct IH as [_ Hl]. unfold later in Hl. destruct best as [b|]; [|discriminate].
      destruct (started_at b <? started_at x)%Z; discriminate.
Qed.

Lemma statusReusable_true s : statusReusable s = true.
Proof. unfold statusReusable. destruct (s_status s); reflexivity. Qed.

Lemma candidate_iff jobId (s : Session) :
  Is_true (ofJob jobId s && statusReusable s) <-> s_job_id s = jobId.
Proof.
  rewrite statusReusable_true, andb_true_r, Is_true_true. apply ofJob_true.
Qed.

(** The query of step 2: the latest session of the job, if it has one. *)
Lemma existingSession_spec (jobId : string) (d : Db) :
  match existingSession jobId d with
  | Some s =>
      s ∈ stream_sessions d /\ s_job_id s = jobId
      /\ (forall s' : Session, s' ∈ stream_sessions d -> s_job_id s' = jobId ->
            (started_at s' <= started_at s)%Z)
  | None => forall s : Session, s ∈ stream_sessions d -> s_job_id s <> jobId
  end.
Proof.
  unfold existingSession.
  pose proof (later_fold (filter (fun s => ofJob jobId s && statusReusable s)
                            (stream_sessions d)) None) as Hf.
  destruct (fold_left later _ None) as [s|].
  - destruct Hf as ([Hin|Hin] & Hmax & _); [|discriminate].
    apply list_elem_of_filter in Hin as [Hc Hin]. apply candidate_iff in Hc.
    split; [exact Hin|]. split; [exact Hc|].
    intros s' Hs' Hid. apply Hmax. apply list_elem_of_filter. split; [|exact Hs'].
    now apply candidate_iff.
  - destruct Hf as [Hnil _]. intros s Hs Hid.
    assert (Hin : s ∈ filter (fun s => ofJob jobId s && statusReusable s) (stream_sessions d)).
    { apply list_elem_of_filter. split; [now apply candidate_iff|exact Hs]. }
    rewrite Hnil in Hin. inversion Hin.
Qed.


Section StartFacts.
Context `{JsNumber} `{Vault}.

Lemma forStreaming_last hw url lo (b : Ffmpeg.Builder) :
  last (Ffmpeg.forStreaming hw url lo b) = Some url.
Proof.
  unfold Ffmpeg.forStreaming, Ffmpeg.build. rewrite !last_app. reflexivity.
Qed.

Lemma startFailed_requests env job e reqs st :
  sr_requests (startFailed env job e reqs st) = reqs.
Proof. unfold startFailed. destruct (insertOrReplaceSession _ _); reflexivity. Qed.

(** The catch block leaves the supervision table as it finds it. *)
Lemma startFailed_streams env job e reqs st :
  activeStreams (sr_state (startFailed env job e reqs st)) = activeStreams st.
Proof. unfold startFailed. destruct (insertOrReplaceSession _ _); reflexivity. Qed.

Lemma startFailed_outcome env job e reqs st :
  sr_outcome (startFailed env job e reqs st) <> Started.
Proof. unfold startFailed. destruct (insertOrReplaceSession _ _); discriminate. Qed.

Lemma launch_requests env job videoIndex video live vod url reqs st :
  sr_requests (launch env job videoIndex video live vod url reqs st) = reqs.
Proof.
  unfold launch. destruct (videoIndex =? 0)%Z; [destruct (insertSession _ _)|];
    cbn [sr_requests]; try reflexivity. apply startFailed_requests.
Qed.

Lemma launch_started env job videoIndex video live vod url reqs st :
  sr_outcome (launch env job videoIndex video live vod url reqs st) = Started ->
  exists child,
    activeStreams (sr_state (launch env job videoIndex video live vod url reqs st)) !! id job
    = Some child
    /\ last (child_args child) = Some (default "null" url).
Proof.
  unfold launch.
  set (args := Ffmpeg.forStreaming _ _ _ _).
  assert (Hlast : last args = Some (default "null" url)) by apply forStreaming_last.
  destruct (videoIndex =? 0)%Z; [destruct (insertSession _ _)|]; intros Ho;
    try (exfalso; revert Ho; apply startFailed_outcome);
    (eexists; split; [cbn; apply lookup_insert_eq | exact Hlast]).
Qed.

(** What a launch leaves behind: the process is registered under the job's
    id whatever happens afterwards; at index 0 a session with the given
    broadcast id and URL is appended, which succeeds exactly when its id is
    new and the job row is there; at a later index the job's sessions are
    marked live, which cannot fail. *)
Lemma launch_effects env job videoIndex video live vod url reqs st :
  let r := launch env job videoIndex video live vod url reqs st in
  let d2 := interleaved env (db st) in
  let child := {| child_args := Ffmpeg.forStreaming (hw env) (default "null" url)
                                  (Some (shouldLoopFfmpeg job))
                                  (builderFor env job video (db st));
                  sigterm := false |} in
  let fresh := newSession (randomUUID env d2) (id job) live vod url (now env) 0 in
  activeStreams (sr_state r) = <[id job := child]> (activeStreams st)
  /\ (videoIndex = 0%Z ->
      (sr_outcome r = Started
       <-> existsb (withId (randomUUID env d2)) (stream_sessions d2) = false
           /\ is_Some (stream_queue d2 !! id job))
      /\ (sr_outcome r = Started ->
          stream_sessions (db (sr_state r)) = stream_sessions d2 ++ [fresh]))
  /\ (videoIndex <> 0%Z ->
      sr_outcome r = Started
      /\ stream_sessions (db (sr_state r))
         = map (fun x => if ofJob (id job) x then setLiveAt videoIndex x else x)
             (stream_sessions d2)).
Proof.
  cbv zeta. unfold launch.
  set (args := Ffmpeg.forStreaming _ _ _ _).
  set (st2 := withStreams _ (withDb (interleaved env) st)).
  destruct (Z.eqb_spec videoIndex 0) as [->|Hnz].
  - unfold insertSession. cbn [newSession s_id s_job_id].
    change (db st2) with (interleaved env (db st)).
    destruct (existsb _ _) eqn:Eex.
    + split; [rewrite startFailed_streams; reflexivity|]. split; [|intros Hc; contradiction].
      intros _. split.
      * split; [intros Ho; exfalso; revert Ho; apply startFailed_outcome|].
        intros [Hc _]. discriminate.
      * intros Ho. exfalso. revert Ho. apply startFailed_outcome.
    + destruct (stream_queue (interleaved env (db st)) !! id job) as [row|] eqn:Erow.
      * cbn [sr_state sr_outcome withDb db activeStreams].
        split; [reflexivity|]. split; [|intros Hc; contradiction].
        intros _. split; [|intros _; reflexivity].
        split; [intros _; split; [reflexivity|eauto]|reflexivity].
      * split; [rewrite startFailed_streams; reflexivity|].
        split; [|intros Hc; contradiction].
        intros _. split.
        -- split; [intros Ho; exfalso; revert Ho; apply startFailed_outcome|].
           intros [_ [row Hrow]]. discriminate.
        -- intros Ho. exfalso. revert Ho. apply startFailed_outcome.
  - cbn [sr_state sr_outcome withDb db activeStreams].
    split; [reflexivity|]. split; [intros Hc; contradiction|].
    intros _. split; reflexivity.
Qed.

Lemma withTokenRecovery_first_call {A : Type} remote pageId (action : Action A) d pg token :
  pages d !! pageId = Some pg ->
  decrypt (access_token_encrypted pg) (access_token_nonce pg) (access_token_tag pg) = Ok token ->
  exists rest, rc_calls (withTokenRecovery remote pageId action d) = token :: rest.
Proof.
  intros Hpg Htok. unfold withTokenRecovery. rewrite Hpg, Htok.
  repeat match goal with
         | |- context [match ?x with _ => _ end] => destruct x
         end; eexists; reflexivity.
Qed.

(** What a start sequence that creates a broadcast sends to the platform. *)
Lemma create_requests env job videoIndex video title description (st0 : Orch) pg :
  pages (db st0) !! job_page_id job = Some pg ->
  let rr := withTokenRecovery (remote env) (job_page_id job)
              (createLiveVideo (remote env) (job_page_id job) title description) (db st0) in
  let reqs := createRequests (job_page_id job) title description (rc_calls rr) in
  let st1 := withDb (fun _ => rc_db rr) st0 in
  let r := match rc_result rr with
           | Ok fbResult =>
               launch env job videoIndex video (Some (lv_id fbResult)) (lv_video_id fbResult)
                 (Some (lv_stream_url fbResult)) reqs st1
           | Throw e => startFailed env job e reqs st1
           end in
  (forall req, req ∈ sr_requests r ->
     exists token, req = ReqCreateLiveVideo (job_page_id job) token title description)
  /\ (forall token,
        decrypt (access_token_encrypted pg) (access_token_nonce pg) (access_token_tag pg)
        = Ok token ->
        ReqCreateLiveVideo (job_page_id job) token title description ∈ sr_requests r).
Proof.
  intros Hpg rr reqs st1 r.
  assert (Hreqs : sr_requests r = reqs).
  { unfold r. destruct (rc_result rr); [apply launch_requests | apply startFailed_requests]. }
  rewrite Hreqs. unfold reqs, createRequests. split.
  - intros req Hreq. apply list_elem_of_fmap in Hreq as [token [-> _]]. eauto.
  - intros token Htok.
    destruct (withTokenRecovery_first_call (remote env) (job_page_id job)
                (createLiveVideo (remote env) (job_page_id job) title description)
                (db st0) pg token Hpg Htok) as [rest Hrest].
    fold rr in Hrest. rewrite Hrest. simpl. apply list_elem_of_here.
Qed.

(** C5. A start sequence whose components are all present reuses the stored
    broadcast id and ingest URL if and only if the job has a prior session
    with status live, failed or stopped and either the index is positive or
    the job has had a recovery attempt. The session reused is the job's
    latest; no request is sent; the process is spawned on the stored URL
    and registered whatever happens afterwards; at index 0 the session row
    that is written carries the stored broadcast id and the stored URL, and
    it is written exactly when its id is new and the job row is still
    there; at a later index the job's sessions are marked live again. In
    every other case a new broadcast is requested with the job's title and
    description templates, the title defaulting to one that names the
    content file. *)
Theorem C5_broadcast_reused_iff_prior_session (env : Env) (job : StreamJob)
  (videoIndex : Z) (st : Orch) (pg : Page) (video : Video) (appId appSecret : string) :
  pages (db st) !! job_page_id job = Some pg ->
  currentVideoId job videoIndex ≫= (fun vid => videos (db st) !! vid) = Some video ->
  settings (db st) !! "app_id" = Some appId ->
  settings (db st) !! "app_secret" = Some appSecret ->
  let prior := exists s : Session,
                 s ∈ stream_sessions (db st) /\ s_job_id s = id job
                 /\ (s_status s = SLive \/ s_status s = SFailed \/ s_status s = SStopped) in
  let again := (0 < videoIndex)%Z \/ (0 < default 0 (recovery_attempts job))%Z in
  let title := orStr (title_template job) ("Live: " +:+ filename video) in
  let description := orStr (description_template job) "Bulk Streamer Live" in
  let r := startStream env job videoIndex st in
  let written := interleaved env (updateJobStatus (id job) Starting (db st)) in
  ((exists s, resolveBroadcast job videoIndex video (db st) = Reuse s) <-> prior /\ again)
  /\ (forall s, resolveBroadcast job videoIndex video (db st) = Reuse s ->
        s ∈ stream_sessions (db st) /\ s_job_id s = id job
        /\ (forall s' : Session, s' ∈ stream_sessions (db st) -> s_job_id s' = id job ->
              (started_at s' <= started_at s)%Z)
        /\ sr_requests r = []
        /\ (exists child, activeStreams (sr_state r) !! id job = Some child
                          /\ last (child_args child) = Some (default "null" (stream_url s)))
        /\ activeStreams (sr_state r)
           = <[id job := {| child_args :=
                              Ffmpeg.forStreaming (hw env) (default "null" (stream_url s))
                                (Some (shouldLoopFfmpeg job))
                                (builderFor env job video (db st));
                            sigterm := false |}]> (activeStreams st)
        /\ (videoIndex = 0%Z ->
            (sr_outcome r = Started
             <-> existsb (withId (randomUUID env written)) (stream_sessions written) = false
                 /\ is_Some (stream_queue written !! id job))
            /\ (sr_outcome r = Started ->
                stream_sessions (db (sr_state r))
                = stream_sessions written
                  ++ [newSession (randomUUID env written) (id job) (live_video_id s) None
                        (stream_url s) (now env) 0]))
        /\ (videoIndex <> 0%Z ->
            sr_outcome r = Started
            /\ stream_sessions (db (sr_state r))
               = map (fun x => if ofJob (id job) x then setLiveAt videoIndex x else x)
                   (stream_sessions written)))
  /\ (~ (prior /\ again) ->
        resolveBroadcast job videoIndex video (db st) = Create title description
        /\ (forall req, req ∈ sr_requests r ->
              exists token, req = ReqCreateLiveVideo (job_page_id job) token title description)
        /\ (forall token,
              decrypt (access_token_encrypted pg) (access_token_nonce pg) (access_token_tag pg)
              = Ok token ->
              ReqCreateLiveVideo (job_page_id job) token title description ∈ sr_requests r)).
Proof.
  intros Hpg Hvid Hid Hsec prior again title description r written.
  set (d0 := db (withDb (updateJobStatus (id job) Starting) st)).
  assert (Hres : resolveBroadcast job videoIndex video d0
                 = resolveBroadcast job videoIndex video (db st)) by reflexivity.
  assert (Hr : r = match resolveBroadcast job videoIndex video (db st) with
      | Reuse s => launch env job videoIndex video (live_video_id s) None (stream_url s) []
                     (withDb (updateJobStatus (id job) Starting) st)
      | Create title description =>
          let rr := withTokenRecovery (remote env) (job_page_id job)
                     (createLiveVideo (remote env) (job_page_id job) title description) d0 in
          let reqs := createRequests (job_page_id job) title description (rc_calls rr) in
          let st1 := withDb (fun _ => rc_db rr) (withDb (updateJobStatus (id job) Starting) st) in
          match rc_result rr with
          | Ok fbResult =>
              launch env job videoIndex video (Some (lv_id fbResult)) (lv_video_id fbResult)
                (Some (lv_stream_url fbResult)) reqs st1
          | Throw e => startFailed env job e reqs st1
          end
      end).
  { unfold r, startStream. fold d0.
    change (pages d0) with (pages (db st)). change (videos d0) with (videos (db st)).
    change (settings d0) with (settings (db st)).
    rewrite Hpg, Hvid, Hid, Hsec, Hres. reflexivity. }
  pose proof (existingSession_spec (id job) (db st)) as Hex.
  assert (Hagain : (0 <? videoIndex)%Z || (0 <? default 0 (recovery_attempts job))%Z = true
                   <-> again).
  { unfold again. rewrite orb_true_iff, !Z.ltb_lt. reflexivity. }
  unfold resolveBroadcast in *. fold title description in Hr |- *.
  destruct (existingSession (id job) (db st)) as [s|].
  - destruct Hex as (Hin & Hjob & Hmax).
    assert (Hprior : prior).
    { exists s. split; [exact Hin|]. split; [exact Hjob|]. destruct (s_status s); auto. }
    destruct ((0 <? videoIndex)%Z || (0 <? default 0 (recovery_attempts job))%Z) eqn:Ea.
    + assert (Ha : again) by now apply Hagain.
      split; [split; [auto | intros _; eauto]|]. split.
      * intros s0 [= <-]. split; [exact Hin|]. split; [exact Hjob|]. split; [exact Hmax|].
        rewrite Hr. split; [apply launch_requests|].
        destruct (launch_effects env job videoIndex video (live_video_id s) None
                    (stream_url s) [] (withDb (updateJobStatus (id job) Starting) st))
          as (Hstreams & Hzero & Hlater).
        split; [|split; [exact Hstreams|split; [exact Hzero|exact Hlater]]].
        rewrite Hstreams. eexists. split; [apply lookup_insert_eq|].
        apply forStreaming_last.
      * intros Hn. exfalso. apply Hn. auto.
    + assert (Ha : ~ again) by (intros Ha; apply Hagain in Ha; discriminate).
      split; [split; [intros [s0 Hs0]; discriminate | intros [_ Ha']; contradiction]|].
      split; [intros s0 Hs0; discriminate|]. intros _. split; [reflexivity|].
      rewrite Hr.
      exact (create_requests env job videoIndex video title description
               (withDb (updateJobStatus (id job) Starting) st) pg Hpg).
  - assert (Hprior : ~ prior).
    { intros (s & Hin & Hjob & _). exact (Hex s Hin Hjob). }
    split; [split; [intros [s0 Hs0]; discriminate | intros [Hp _]; contradiction]|].
    split; [intros s0 Hs0; discriminate|]. intros _. split; [reflexivity|].
    rewrite Hr.
      exact (create_requests env job videoIndex video title description
               (withDb (updateJobStatus (id job) Starting) st) pg Hpg).
Qed.

End StartFacts.

End ReuseFacts.

Section StartFailure.

(** With the job row in place, the catch block marks the job failed and
    records the exception message in a session row. *)
Lemma startFailed_records env job e reqs st j :
  stream_queue (db st) !! id job = Some j ->
  let r := startFailed env job e reqs st in
  sr_outcome r = Aborted e
  /\ Spec.statusOf (id job) (sr_state r) = Some Failed
  /\ failedSession (id job) (errorText e) (now env) ∈ stream_sessions (db (sr_state r)).
Proof.
  intros Hj r. subst r. unfold startFailed, insertOrReplaceSession.
  cbn [s_job_id failedSession].
  rewrite lookup_updateJobStatus, decide_True by reflexivity. rewrite Hj.
  cbn [fmap option_fmap option_map sr_outcome sr_state].
  split; [reflexivity|]. split.
  - unfold Spec.statusOf. cbn [withDb db setSessions stream_queue].
    rewrite lookup_updateJobStatus, decide_True by reflexivity. rewrite Hj. reflexivity.
  - cbn [withDb db setSessions stream_sessions]. apply elem_of_app. right.
    apply list_elem_of_here.
Qed.

(** C8 (where the code departs from the specification). The catch block of the start
    sequence never touches the supervision table. When the step-6 insert
    fails after the process has been registered (here the job row was
    deleted while the sequence was suspended, so the insert violates the
    foreign key), the entry of the job stays in the table. *)
Theorem C8_failed_start_keeps_supervision_entry :
  (forall env job e reqs st,
     activeStreams (sr_state (startFailed env job e reqs st)) = activeStreams st)
  /\ let queued := Examples.job Queued 1 None None in
     let before := Examples.idle (Examples.store queued []) in
     let r := @startStream exampleNumber Examples.plainVault
                (Examples.env Examples.platform (setQueue (delete "job1"))) queued 0 before in
     activeStreams before !! "job1" = None
     /\ sr_outcome r = Rejected (mkError "FOREIGN KEY constraint failed")
     /\ is_Some (activeStreams (sr_state r) !! "job1").
Proof.
  split; [apply startFailed_streams|].
  vm_compute. repeat split. eexists. reflexivity.
Qed.

End StartFailure.

Section PollFacts.
Context `{Vault}.

(** A wrapped call writes to [pages] only. *)
Lemma withTokenRecovery_queue {A : Type} remote pageId (action : Action A) d :
  stream_queue (rc_db (withTokenRecovery remote pageId action d)) = stream_queue d
  /\ stream_sessions (rc_db (withTokenRecovery remote pageId action d)) = stream_sessions d.
Proof.
  unfold withTokenRecovery.
  destruct (pages d !! pageId) as [page|]; [|split; reflexivity].
  destruct (decrypt _ _ _) as [token|]; [|split; reflexivity].
  destruct (action O token) as [|e]; [split; reflexivity|].
  destruct (isExpired e); [|split; reflexivity].
  destruct (settings d !! "app_id"), (settings d !! "app_secret"),
    (settings d !! "user_token_encrypted"); try (split; reflexivity).
  destruct (settings d !! "user_token_nonce"), (settings d !! "user_token_tag");
    try (split; reflexivity).
  destruct (decrypt _ _ _) as [userToken|]; [|split; reflexivity].
  destruct (syncPageTokens remote userToken) as [batch|]; [|split; reflexivity].
  pose proof (storeFresh_fold pageId batch d "") as Hf.
  destruct (fold_left (storeFresh pageId) batch (d, "")) as [d' tok'].
  destruct Hf as (_ & _ & _ & Hq & Hs & _).
  destruct (truthy tok'); [destruct (action 1%nat tok')|]; split; assumption.
Qed.

(** C4 (where the code departs from the specification). When a failed status query
    brings the counter of a session to the threshold, the handler writes
    [circuit_breaker] and then calls [stopStream], whose first statement
    overwrites the status: after the poll the job is [stopping] if its process
    is supervised (and [stopped] once that process exits), [stopped] if not,
    and never [circuit_breaker]. The process is sent the termination signal. *)
Theorem C4_breaker_status_overwritten (env : Env) (ps : Polled) (st : Orch) (pg : Page)
  (e : Error) (j : StreamJob) :
  pages (db st) !! p_page_id ps = Some pg ->
  rc_result (withTokenRecovery (remote env) (p_page_id ps)
               (getLiveInfo (remote env) (default "null" (live_video_id (p_session ps))))
               (db st)) = Throw e ->
  (MAX_API_FAILURES <= default 0 (api_fail_count (p_session ps)) + 1)%Z ->
  stream_queue (db st) !! s_job_id (p_session ps) = Some j ->
  let jobId := s_job_id (p_session ps) in
  let st' := pollSession env ps st in
  Spec.statusOf jobId st'
  = Some (match activeStreams st !! jobId with Some _ => Stopping | None => Stopped end)
  /\ Spec.statusOf jobId st' <> Some CircuitBreaker
  /\ activeStreams st' !! jobId = signalled <$> activeStreams st !! jobId.
Proof.
  intros Hpg Hres Hmax Hj jobId st'.
  assert (Hst : Spec.statusOf jobId st'
    = Some (match activeStreams st !! jobId with Some _ => Stopping | None => Stopped end)
    /\ activeStreams st' !! jobId = signalled <$> activeStreams st !! jobId).
  { subst st'. unfold pollSession. rewrite Hpg, Hres.
    apply Z.leb_le in Hmax. rewrite Hmax.
    set (r := withTokenRecovery _ _ _ _).
    assert (Hq : stream_queue (rc_db r) !! jobId = Some j).
    { unfold r. rewrite (proj1 (withTokenRecovery_queue _ _ _ _)). exact Hj. }
    unfold stopStream, Spec.statusOf. cbn [withDb withStreams db activeStreams].
    fold jobId.
    destruct (activeStreams st !! jobId) as [c|] eqn:Hc; cbn [withDb withStreams db activeStreams].
    - rewrite lookup_alter, decide_True by reflexivity. rewrite Hc.
      rewrite !lookup_updateJobStatus, !decide_True by reflexivity.
      rewrite queue_updateSessions, Hq. split; reflexivity.
    - rewrite Hc. rewrite queue_updateSessions.
      rewrite !lookup_updateJobStatus, !decide_True by reflexivity.
      rewrite queue_updateSessions, Hq. split; reflexivity. }
  destruct Hst as [Hs Ha]. split; [exact Hs|]. split; [|exact Ha].
  rewrite Hs. destruct (activeStreams st !! jobId); discriminate.
Qed.

End PollFacts.

Section CounterFacts.
Context `{Vault}.

Lemma withId_true sid s : withId sid s = true <-> s_id s = sid.
Proof. unfold withId. apply String.eqb_eq. Qed.

Lemma CountIs_set sid c d :
  Spec.CountIs sid c (updateSessions (withId sid) (setFailCount c) d).
Proof.
  intros s Hs Hid. apply elem_of_updateSessions in Hs as [s0 [_ ->]].
  destruct (withId sid s0) eqn:E; [reflexivity|].
  apply withId_true in Hid. congruence.
Qed.

Lemma CountIs_update sid c sel f d :
  (forall s, s_id (f s) = s_id s /\ api_fail_count (f s) = api_fail_count s) ->
  Spec.CountIs sid c d -> Spec.CountIs sid c (updateSessions sel f d).
Proof.
  intros Hf Hc s Hs Hid. apply elem_of_updateSessions in Hs as [s0 [Hs0 ->]].
  destruct (sel s0).
  - destruct (Hf s0) as [Hi Ha]. rewrite Ha. apply Hc; [exact Hs0|congruence].
  - now apply Hc.
Qed.

Lemma CountIs_sessions sid c d d' :
  stream_sessions d' = stream_sessions d -> Spec.CountIs sid c d -> Spec.CountIs sid c d'.
Proof. intros He Hc s Hs. rewrite He in Hs. now apply Hc. Qed.

Lemma stopStream_count sid c now jobId st :
  Spec.CountIs sid c (db st) -> Spec.CountIs sid c (db (stopStream now jobId st)).
Proof.
  intros Hc. unfold stopStream. cbn [withDb db activeStreams].
  destruct (activeStreams st !! jobId); cbn [withDb withStreams db].
  - exact Hc.
  - apply CountIs_update; [intros s; split; reflexivity|]. exact Hc.
Qed.

Lemma autoComment_count sid c env ps st :
  Spec.CountIs sid c (db st) -> Spec.CountIs sid c (db (autoComment env ps st)).
Proof.
  intros Hc. unfold autoComment.
  destruct (truthyOpt (p_first_comment ps) && (comment_posted (p_session ps) =? 0)%Z);
    [|exact Hc].
  destruct (15 <? now env - started_at (p_session ps))%Z; [|exact Hc].
  set (r := withTokenRecovery _ _ _ _).
  assert (Hr : Spec.CountIs sid c (rc_db r)).
  { eapply CountIs_sessions; [|exact Hc]. apply withTokenRecovery_queue. }
  destruct (rc_result r); cbn [withDb db]; [|exact Hr].
  apply CountIs_update; [intros s; split; reflexivity|exact Hr].
Qed.

(** The counter that a poll leaves on the session: zero after a successful
    status query, one more than before after a failed one. *)
Lemma pollSession_counter env ps st pg :
  pages (db st) !! p_page_id ps = Some pg ->
  let r := withTokenRecovery (remote env) (p_page_id ps)
             (getLiveInfo (remote env) (default "null" (live_video_id (p_session ps))))
             (db st) in
  Spec.CountIs (s_id (p_session ps))
    (match rc_result r with
     | Ok _ => 0
     | Throw _ => default 0 (api_fail_count (p_session ps)) + 1
     end)%Z
    (db (pollSession env ps st)).
Proof.
  intros Hpg r. unfold pollSession. rewrite Hpg. fold r.
  destruct (rc_result r) as [info|e].
  - destruct (negb (isLiveStatus (fb_status info))).
    + apply stopStream_count. cbn [withDb db]. apply CountIs_set.
    + apply autoComment_count. cbn [withDb db].
      apply CountIs_update; [intros s; split; reflexivity|]. apply CountIs_set.
  - destruct (MAX_API_FAILURES <=? default 0 (api_fail_count (p_session ps)) + 1)%Z.
    + apply stopStream_count. cbn [withDb db]. apply CountIs_set.
    + apply autoComment_count. cbn [withDb db]. apply CountIs_set.
Qed.

(** Below the threshold a failed poll leaves the job's status alone. *)
Lemma pollSession_below_threshold env ps st pg e :
  pages (db st) !! p_page_id ps = Some pg ->
  rc_result (withTokenRecovery (remote env) (p_page_id ps)
               (getLiveInfo (remote env) (default "null" (live_video_id (p_session ps))))
               (db st)) = Throw e ->
  (default 0 (api_fail_count (p_session ps)) + 1 < MAX_API_FAILURES)%Z ->
  stream_queue (db (pollSession env ps st)) = stream_queue (db st)
  /\ activeStreams (pollSession env ps st) = activeStreams st.
Proof.
  intros Hpg Hres Hlt. unfold pollSession. rewrite Hpg, Hres.
  apply Z.leb_gt in Hlt. rewrite Hlt.
  set (r := withTokenRecovery _ _ _ _).
  unfold autoComment.
  destruct (truthyOpt (p_first_comment ps) && (comment_posted (p_session ps) =? 0)%Z);
    [destruct (15 <? now env - started_at (p_session ps))%Z|];
    try (split; [cbn [withDb db]; rewrite queue_updateSessions;
                 apply withTokenRecovery_queue | reflexivity]).
  set (r2 := withTokenRecovery _ _ _ _).
  assert (Hq : stream_queue (rc_db r2) = stream_queue (db st)).
  { unfold r2. rewrite (proj1 (withTokenRecovery_queue _ _ _ _)). cbn [withDb db].
    rewrite queue_updateSessions. apply withTokenRecovery_queue. }
  destruct (rc_result r2); cbn [withDb db]; split; try reflexivity;
    rewrite ?queue_updateSessions; exact Hq.
Qed.

End CounterFacts.

(** Four failures, one success, four failures: the breaker does not trip and
    the counter stands at 4; a fifth consecutive failure then ends the job's
    process. *)
Example breaker_four_one_four :
  let j := Examples.job Live 1 None None in
  let st := Examples.supervised (Examples.store j [Examples.session "s1" SLive None]) in
  let down := Examples.offline in
  let up := Examples.platform in
  let st9 := Examples.polls [down; down; down; down; up; down; down; down; down] st in
  Spec.statusOf "job1" st9 = Some Live
  /\ map api_fail_count (stream_sessions (db st9)) = [Some 4%Z]
  /\ Spec.statusOf "job1" (Examples.polls [down] st9) = Some Stopping
  /\ map api_fail_count (stream_sessions (db (Examples.polls [down] st9))) = [Some 5%Z].
Proof. vm_compute. repeat split. Qed.

(* ================================================================== *)
(** ** The theorems at work *)
(* ================================================================== *)

(** The specification's example: a 3-item playlist with LoopAll, exiting at
    index 2, restarts at index 0. *)
Lemma C1_exit_witness :
  let j := Examples.job Live 1 (Some ["v1"; "v2"; "v3"]) None in
  snd (onClose 100 j 2 (Some 0%Z) (Examples.supervised (Examples.store j [])))
  = Restart 0.
Proof.
  intros j.
  refine (proj1 (@C1_exit_restarts_at_table_index exampleNumber Examples.plainVault
                   (Examples.env Examples.platform (fun d => d)) j 2
                   (Examples.supervised (Examples.store j [])) j Spec.LoopAll _ _ _)).
  - reflexivity.
  - discriminate.
  - reflexivity.
Defined.

(** The third failure of a job makes it [failed]. *)
Lemma C2_counter_witness :
  let j := Examples.job Live 1 None (Some 2%Z) in
  Spec.statusOf "job1"
    (fst (onClose 100 j 0 (Some 1%Z) (Examples.supervised (Examples.store j []))))
  = Some Failed.
Proof.
  intros j.
  refine (proj2 (proj1 (proj2 (proj1
            (C2_recovery_counter 100 j 0 (Some 1%Z)
               (Examples.supervised (Examples.store j [])) j _) _ _))) _).
  - reflexivity.
  - discriminate.
  - discriminate.
  - discriminate.
Defined.

(** A stopping job that exits with a non-zero code keeps its counter. *)
Lemma C2_stopping_exit_counterexample :
  let j := Examples.job Stopping 1 None (Some 1%Z) in
  ~ Spec.IncrementsOnAbnormalExit 100 j 0 (Some 255%Z)
      (Examples.supervised (Examples.store j [])).
Proof.
  intros j Hinc. unfold Spec.IncrementsOnAbnormalExit in Hinc.
  assert (Hcode : Some 255%Z <> Some 0%Z) by discriminate.
  specialize (Hinc Hcode). vm_compute in Hinc. discriminate.
Qed.

(** An expired first attempt against a store whose account credential has
    lost its nonce row: the caller gets the error of the failed property read
    instead of the expiry error, after one invocation and with the store as
    it was. With the credential complete, the same call succeeds on the
    retry, and both destinations of the batch are stored afresh. *)
Lemma C3_recovery_witness :
  let d := Examples.store (Examples.job Queued 1 None None) [] in
  let broken := @withTokenRecovery Examples.plainVault LiveVideo Examples.platform "page1"
                  (Examples.acceptsFresh Examples.broadcast) (Examples.withoutNonce d) in
  let r := @withTokenRecovery Examples.plainVault LiveVideo Examples.platform "page1"
             (Examples.acceptsFresh Examples.broadcast) d in
  (rc_result broken
   = Throw (mkError "Cannot read properties of undefined (reading 'value')")
   /\ rc_result broken <> Throw Examples.expired
   /\ rc_calls broken = ["stale1"])
  /\ rc_calls r = ["stale1"; "fresh1"]
  /\ rc_result r = Ok Examples.broadcast
  /\ access_token_encrypted <$> pages (rc_db r) !! "page2" = Some "fresh2".
Proof.
  intros d broken r. split.
  - destruct (@C3_token_recovery Examples.plainVault LiveVideo Examples.platform "page1"
                (Examples.acceptsFresh Examples.broadcast) (Examples.withoutNonce d)
                (Examples.page "stale1") "stale1" Examples.expired
                eq_refl eq_refl eq_refl eq_refl) as (_ & _ & T & _).
    destruct (T "app" "secret" "user" eq_refl eq_refl eq_refl) as [Tm _].
    destruct (Tm (or_introl eq_refl)) as (Hres & Hne & Hc & _).
    split; [exact Hres|]. split; [exact Hne|exact Hc].
  - destruct (@C3_token_recovery Examples.plainVault LiveVideo Examples.platform "page1"
                (Examples.acceptsFresh Examples.broadcast) d
                (Examples.page "stale1") "stale1" Examples.expired
                eq_refl eq_refl eq_refl eq_refl) as (_ & _ & _ & T).
    destruct (T "app" "secret" "user" "nonce" "tag" "user"
                eq_refl eq_refl eq_refl eq_refl eq_refl eq_refl) as [_ Tb].
    destruct (Tb Examples.freshBatch eq_refl) as (Hstore & Hretry & _).
    destruct (Hretry "fresh1" eq_refl eq_refl) as [Hc Hr].
    split; [exact Hc|]. split; [exact Hr|].
    fold r in Hstore. rewrite (Hstore "page2"). reflexivity.
Defined.

(** A job that failed once is restarted on its stored broadcast: no request
    goes to the platform, and the session written for the new process
    carries the stored broadcast id and ingest URL. *)
Lemma C5_reuse_witness :
  let j := Examples.job FailedRecovery 1 None (Some 1%Z) in
  let r := @startStream exampleNumber Examples.plainVault
             (Examples.env Examples.offline (fun d => d)) j 0
             (Examples.idle (Examples.store j [Examples.session "s1" SFailed None])) in
  sr_requests r = []
  /\ sr_outcome r = Started
  /\ stream_sessions (db (sr_state r))
     = [Examples.session "s1" SFailed None;
        newSession "uuid1" "job1" (Some "live1") None (Some "rtmps://ingest/key1") 100 0].
Proof.
  intros j r.
  destruct (@C5_broadcast_reused_iff_prior_session exampleNumber Examples.plainVault
              (Examples.env Examples.offline (fun d => d)) j 0
              (Examples.idle (Examples.store j [Examples.session "s1" SFailed None]))
              (Examples.page "stale1") {| filename := "a.mp4"; path := "/media/a.mp4" |}
              "app" "secret" eq_refl eq_refl eq_refl eq_refl) as (_ & Hreuse & _).
  destruct (Hreuse (Examples.session "s1" SFailed None) eq_refl)
    as (_ & _ & _ & Hreq & _ & _ & Hzero & _).
  destruct (Hzero eq_refl) as [Hiff Hsess].
  assert (Hst : sr_outcome r = Started).
  { apply Hiff. split; [reflexivity|]. exists (jobWithStatus Starting j). reflexivity. }
  split; [exact Hreq|]. split; [exact Hst|]. exact (Hsess Hst).
Defined.

(** The fifth failed poll of a supervised job leaves it [stopping]. *)
Lemma C4_breaker_witness :
  let j := Examples.job Live 1 None None in
  let s := Examples.session "s1" SLive (Some 4%Z) in
  Spec.statusOf "job1"
    (@pollSession Examples.plainVault (Examples.env Examples.offline (fun d => d))
       {| p_session := s; p_page_id := "page1"; p_first_comment := None |}
       (Examples.supervised (Examples.store j [s])))
  = Some Stopping.
Proof.
  intros j s.
  refine (proj1 (@C4_breaker_status_overwritten Examples.plainVault
                   (Examples.env Examples.offline (fun d => d))
                   {| p_session := s; p_page_id := "page1"; p_first_comment := None |}
                   (Examples.supervised (Examples.store j [s]))
                   (Examples.page "stale1") Examples.unreachable j _ _ _ _)).
  - reflexivity.
  - reflexivity.
  - discriminate.
  - reflexivity.
Defined.

(* ================================================================== *)
(** ** Further properties of the pipeline compiler *)
(* ================================================================== *)

(* ================================================================== *)
(** ** Further properties of the pipeline compiler *)
(* ================================================================== *)

Section AppendOnly.
Context `{JsNumber}.
Import Ffmpeg.

Lemma Adds_id : Shape.Adds (fun b => b) [] [] [] [].
Proof. split; intros b; rewrite ?app_nil_r; reflexivity. Qed.

Lemma Adds_compose f g dv da dl dt dv' da' dl' dt' :
  Shape.Adds f dv da dl dt -> Shape.Adds g dv' da' dl' dt' ->
  Shape.Adds (fun b => g (f b)) (dv ++ dv') (da ++ da') (dl ++ dl') (dt ++ dt').
Proof.
  intros [Fv Fa Fl Ft Fi Fb Fab] [Gv Ga Gl Gt Gi Gb Gab].
  split; intros b; rewrite ?Gv, ?Ga, ?Gl, ?Gt, ?Gi, ?Gb, ?Gab, ?Fv, ?Fa, ?Fl, ?Ft, ?Fi, ?Fb, ?Fab;
    rewrite ?app_assoc; reflexivity.
Qed.

Lemma Adds_pushVideo f : Shape.Adds (pushVideo f) [f] [] [] [].
Proof. split; intros b; cbn; rewrite ?app_nil_r; reflexivity. Qed.

Lemma Adds_pushAudio f : Shape.Adds (pushAudio f) [] [f] [] [].
Proof. split; intros b; cbn; rewrite ?app_nil_r; reflexivity. Qed.

Lemma Adds_pushLogo l : Shape.Adds (pushLogo l) [] [] [l] [].
Proof. split; intros b; cbn; rewrite ?app_nil_r; reflexivity. Qed.

Lemma Adds_pushTrim xs : Shape.Adds (pushTrim xs) [] [] [] xs.
Proof. split; intros b; cbn; rewrite ?app_nil_r; reflexivity. Qed.

Lemma Adds_setLoop l : Shape.Adds (setLoop l) [] [] [] [].
Proof. split; intros b; cbn; rewrite ?app_nil_r; reflexivity. Qed.

Lemma Adds_setTarget w h : Shape.Adds (setTarget w h) [] [] [] [].
Proof. split; intros b; cbn; rewrite ?app_nil_r; reflexivity. Qed.

Lemma Adds_setBackgroundInput p : Shape.Adds (setBackgroundInput p) [] [] [] [].
Proof. split; intros b; cbn; rewrite ?app_nil_r; reflexivity. Qed.

Lemma AddsSome_intro f dv da dl dt : Shape.Adds f dv da dl dt -> Shape.AddsSome f.
Proof. intros Hf. now exists dv, da, dl, dt. Qed.

Lemma AddsSome_compose f g : Shape.AddsSome f -> Shape.AddsSome g -> Shape.AddsSome (fun b => g (f b)).
Proof.
  intros (dv & da & dl & dt & Hf) (dv' & da' & dl' & dt' & Hg).
  eapply AddsSome_intro, Adds_compose; eassumption.
Qed.

Lemma AddsSome_ext f g : (forall b, f b = g b) -> Shape.AddsSome f -> Shape.AddsSome g.
Proof.
  intros He (dv & da & dl & dt & [Fv Fa Fl Ft Fi Fb Fab]).
  exists dv, da, dl, dt. split; intros b; rewrite <- He; auto.
Qed.


Ltac adds :=
  lazymatch goal with
  | |- Shape.AddsSome (fun b => b) => exact (AddsSome_intro _ _ _ _ _ Adds_id)
  | |- Shape.AddsSome (fun b => pushVideo ?f (@?g b)) =>
      apply (AddsSome_compose g (pushVideo f)); [adds | exact (AddsSome_intro _ _ _ _ _ (Adds_pushVideo f))]
  | |- Shape.AddsSome (fun b => pushAudio ?f (@?g b)) =>
      apply (AddsSome_compose g (pushAudio f)); [adds | exact (AddsSome_intro _ _ _ _ _ (Adds_pushAudio f))]
  | |- Shape.AddsSome (fun b => pushLogo ?f (@?g b)) =>
      apply (AddsSome_compose g (pushLogo f)); [adds | exact (AddsSome_intro _ _ _ _ _ (Adds_pushLogo f))]
  | |- Shape.AddsSome (fun b => pushTrim ?f (@?g b)) =>
      apply (AddsSome_compose g (pushTrim f)); [adds | exact (AddsSome_intro _ _ _ _ _ (Adds_pushTrim f))]
  | |- Shape.AddsSome (fun b => setLoop ?f (@?g b)) =>
      apply (AddsSome_compose g (setLoop f)); [adds | exact (AddsSome_intro _ _ _ _ _ (Adds_setLoop f))]
  | |- Shape.AddsSome (fun b => setTarget ?w ?h (@?g b)) =>
      apply (AddsSome_compose g (setTarget w h)); [adds | exact (AddsSome_intro _ _ _ _ _ (Adds_setTarget w h))]
  | |- Shape.AddsSome (fun b => setBackgroundInput ?f (@?g b)) =>
      apply (AddsSome_compose g (setBackgroundInput f));
      [adds | exact (AddsSome_intro _ _ _ _ _ (Adds_setBackgroundInput f))]
  end.

Lemma stageLoop_adds p : Shape.AddsSome (stageLoop p).
Proof. unfold stageLoop. destruct (loop p); adds. Qed.

Lemma stageTrim_adds p : Shape.AddsSome (stageTrim p).
Proof. unfold stageTrim. destruct (trim p); adds. Qed.

Lemma stageCrop_adds p : Shape.AddsSome (stageCrop p).
Proof.
  unfold stageCrop. destruct (crop p) as [c|]; [|adds].
  destruct (gt (crop_width c) 0 && gt (crop_height c) 0); adds.
Qed.

Lemma stageLayout_adds p : Shape.AddsSome (stageLayout p).
Proof.
  unfold stageLayout. destruct (targetOf p) as [w h].
  destruct (needsSmartLayout p); [destruct (bgTypeOf p), (bgImageOf p)|]; cbv zeta; adds.
Qed.

Lemma stageRotate_adds p : Shape.AddsSome (stageRotate p).
Proof.
  unfold stageRotate. destruct (rotate p) as [angle|]; [|adds].
  destruct (Qeq_bool angle 90); [adds|].
  destruct (Qeq_bool angle 180); [adds|].
  destruct (Qeq_bool angle 270); adds.
Qed.

Lemma stageFlip_adds p : Shape.AddsSome (stageFlip p).
Proof.
  unfold stageFlip. destruct (flip p) as [f|]; [|adds].
  destruct (horizontal f), (vertical f); cbv zeta; adds.
Qed.

Lemma stageColor_adds p : Shape.AddsSome (stageColor p).
Proof.
  unfold stageColor. destruct (color p) as [c|]; [|adds].
  destruct (eqParams c); destruct (sharpness c) as [sh|];
    try destruct (nonzero sh && gt sh 0); cbv zeta; adds.
Qed.

Lemma stageProtection_adds p : Shape.AddsSome (stageProtection p).
Proof.
  unfold stageProtection. destruct (protection p) as [pr|]; [|adds].
  destruct (protectionActive pr); [|adds]. destruct (protectionEffect pr); adds.
Qed.

Lemma applyOverlay_adds o : Shape.AddsSome (fun b => applyOverlay b o).
Proof.
  unfold applyOverlay. destruct (ov_content o) as [content|]; [|adds].
  destruct (truthy content); [|adds]. destruct (ov_type o); [|adds].
  destruct (ov_bannerColor o) as [bc|]; [destruct (truthy bc)|]; cbv zeta; adds.
Qed.

Lemma stageOverlays_adds p : Shape.AddsSome (stageOverlays p).
Proof.
  unfold stageOverlays. generalize (overlays p). intros os.
  induction os as [|o os IH]; [exact (AddsSome_intro _ _ _ _ _ Adds_id)|].
  apply (AddsSome_ext (fun b => fold_left applyOverlay os (applyOverlay b o)));
    [reflexivity|].
  exact (AddsSome_compose _ _ (applyOverlay_adds o) IH).
Qed.

Lemma stageSpeed_adds p : Shape.AddsSome (stageSpeed p).
Proof.
  unfold stageSpeed. destruct (speed p) as [sp|]; [|adds].
  destruct (nonzero sp && negb (Qeq_bool sp 1)); adds.
Qed.

Lemma stageAudio_adds p : Shape.AddsSome (stageAudio p).
Proof.
  unfold stageAudio. destruct (audio p) as [a|]; [|adds].
  destruct (negb (Qeq_bool (volume a) 1)), (normalize a) as [[|]|], (pitch a) as [pt|];
    try destruct (nonzero pt && negb (Qeq_bool pt 1)); cbv zeta; adds.
Qed.

Lemma applyProfile_adds p : Shape.AddsSome (applyProfile p).
Proof.
  unfold applyProfile.
  repeat (first
    [ apply (AddsSome_compose _ (stageAudio p)); [|apply stageAudio_adds]
    | apply (AddsSome_compose _ (stageSpeed p)); [|apply stageSpeed_adds]
    | apply (AddsSome_compose _ (stageOverlays p)); [|apply stageOverlays_adds]
    | apply (AddsSome_compose _ (stageProtection p)); [|apply stageProtection_adds]
    | apply (AddsSome_compose _ (stageColor p)); [|apply stageColor_adds]
    | apply (AddsSome_compose _ (stageFlip p)); [|apply stageFlip_adds]
    | apply (AddsSome_compose _ (stageRotate p)); [|apply stageRotate_adds]
    | apply (AddsSome_compose _ (stageLayout p)); [|apply stageLayout_adds]
    | apply (AddsSome_compose _ (stageCrop p)); [|apply stageCrop_adds]
    | apply (AddsSome_compose _ (stageTrim p)); [|apply stageTrim_adds] ]).
  apply stageLoop_adds.
Qed.

End AppendOnly.

Section CompilerShape.
Context `{JsNumber}.
Import Ffmpeg.

(** X1. [applyProfile] only appends, and what it appends depends on the
    profile alone: the video filters, audio filters, logo inputs and trim
    arguments of the result are those of the builder followed by those the
    profile yields on a fresh builder; the input path is kept, the target
    resolution is the profile's, and at least one video filter is added. *)
Theorem X1_applyProfile_appends (p : ProfileData) (b : Builder) (path : string) :
  let fresh := applyProfile p (newBuilder path) in
  videoFilters (applyProfile p b) = videoFilters b ++ videoFilters fresh
  /\ audioFilters (applyProfile p b) = audioFilters b ++ audioFilters fresh
  /\ logoInputs (applyProfile p b) = logoInputs b ++ logoInputs fresh
  /\ trimArgs (applyProfile p b) = trimArgs b ++ trimArgs fresh
  /\ inputPath (applyProfile p b) = inputPath b
  /\ (targetW (applyProfile p b), targetH (applyProfile p b)) = targetOf p
  /\ videoFilters fresh <> [].
Proof.
  intros fresh.
  destruct (applyProfile_adds p) as (dv & da & dl & dt & [Hv Ha Hl Ht Hi _ _]).
  assert (Hfv : videoFilters fresh = dv) by (unfold fresh; rewrite Hv; reflexivity).
  assert (Hfa : audioFilters fresh = da) by (unfold fresh; rewrite Ha; reflexivity).
  assert (Hfl : logoInputs fresh = dl) by (unfold fresh; rewrite Hl; reflexivity).
  assert (Hft : trimArgs fresh = dt) by (unfold fresh; rewrite Ht; reflexivity).
  rewrite Hfv, Hfa, Hfl, Hft.
  split; [apply Hv|]. split; [apply Ha|]. split; [apply Hl|]. split; [apply Ht|].
  split; [apply Hi|]. split.
  - destruct (afterLayout_extends p b) as [_ HW HH _ _].
    rewrite HW, HH. apply stageLayout_target.
  - rewrite <- Hfv. unfold fresh.
    destruct (afterLayout_extends p (newBuilder path)) as [[more Hf] _ _ _ _].
    rewrite Hf, stageLayout_filters. intros Hnil.
    apply (f_equal (@length string)) in Hnil. rewrite !length_app in Hnil.
    simpl in Hnil. lia.
Qed.

(** X2. Whatever the profile, the compiled argument list ends with the same
    output parameters: the chosen encoder, the fixed bitrates, pixel format,
    audio codec and sample rate, the FLV container and the destination. *)
Theorem X2_output_parameters_fixed (p : ProfileData) (path : string)
  (hw : Hardware.Encoders) (url : string) (loopOverride : option bool) :
  exists pre,
    forStreaming hw url loopOverride (applyProfile p (newBuilder path))
    = pre ++ Shape.outputArgs (Hardware.getBestEncoder hw) url.
Proof.
  destruct (applyProfile_adds p) as (dv & da & dl & dt & [_ _ _ _ _ Hb Hab]).
  unfold forStreaming, build.
  change (bitrate (setRtmpUrl url (applyProfile p (newBuilder path))))
    with (bitrate (applyProfile p (newBuilder path))).
  change (audioBitrate (setRtmpUrl url (applyProfile p (newBuilder path))))
    with (audioBitrate (applyProfile p (newBuilder path))).
  rewrite Hb, Hab.
  set (b := setRtmpUrl url (applyProfile p (newBuilder path))).
  change (["-c:v"; Hardware.getBestEncoder hw] ++
          ["-b:v"; showZ (bitrate (newBuilder path)) +:+ "k"] ++
          ["-pix_fmt"; "yuv420p"] ++
          ["-c:a"; "aac"; "-b:a"; showZ (audioBitrate (newBuilder path)) +:+ "k"; "-ar"; "44100"] ++
          ["-f"; "flv"; default "undefined" (rtmpUrl b)])
    with (Shape.outputArgs (Hardware.getBestEncoder hw) url).
  generalize (Shape.outputArgs (Hardware.getBestEncoder hw) url). intros tail.
  rewrite !app_assoc. eexists. reflexivity.
Qed.

End CompilerShape.

Section Escaping.
Import Ffmpeg.

Lemma colonsEscaped_replace (t : string) (prev : bool) :
  Shape.colonsEscapedFrom prev (replaceAllChar ":" "\:" t) = true.
Proof.
  revert prev. induction t as [|d t IH]; intros prev; [reflexivity|].
  cbn [replaceAllChar]. destruct (Ascii.eqb d ":") eqn:E.
  - change ("\:" +:+ replaceAllChar ":" "\:" t)
      with (String "\" (String ":" (replaceAllChar ":" "\:" t))).
    cbn [Shape.colonsEscapedFrom]. cbn. apply IH.
  - cbn [Shape.colonsEscapedFrom]. rewrite E. apply IH.
Qed.

Lemma hasChar_replace_backslash (s : string) :
  Shape.hasChar "\" (replaceAllChar "\" "/" s) = false.
Proof.
  induction s as [|d s IH]; [reflexivity|].
  cbn [replaceAllChar]. destruct (Ascii.eqb d "\") eqn:E.
  - change ("/" +:+ replaceAllChar "\" "/" s) with (String "/" (replaceAllChar "\" "/" s)).
    cbn [Shape.hasChar]. rewrite IH. reflexivity.
  - cbn [Shape.hasChar]. rewrite E, IH. reflexivity.
Qed.

Lemma startsWith_empty (s : string) : startsWith s "" = true.
Proof. destruct s; reflexivity. Qed.

Lemma backslashes_replace (t : string) :
  Shape.hasChar "\" t = false ->
  Shape.backslashesEscapeColons (replaceAllChar ":" "\:" t) = true.
Proof.
  induction t as [|d t IH]; intros Hb; [reflexivity|].
  cbn [Shape.hasChar] in Hb. apply orb_false_iff in Hb as [Hd Hb].
  cbn [replaceAllChar]. destruct (Ascii.eqb d ":") eqn:E.
  - change ("\:" +:+ replaceAllChar ":" "\:" t)
      with (String "\" (String ":" (replaceAllChar ":" "\:" t))).
    cbn [Shape.backslashesEscapeColons]. cbn. rewrite startsWith_empty. now apply IH.
  - cbn [Shape.backslashesEscapeColons]. rewrite Hd. cbn. now apply IH.
Qed.

Lemma replaceAllChar_absent (c : ascii) (repl s : string) :
  Shape.hasChar c s = false -> replaceAllChar c repl s = s.
Proof.
  induction s as [|d s IH]; intros Hc; [reflexivity|].
  cbn [Shape.hasChar] in Hc. apply orb_false_iff in Hc as [Hd Hc].
  cbn [replaceAllChar]. rewrite Hd, IH by exact Hc. reflexivity.
Qed.

(** X3. The escaping of overlay text and font paths: in the escaped text
    every colon directly follows a backslash; in the escaped font path, in
    addition, every backslash is directly followed by a colon (the path's own
    backslashes have become slashes); and a text with neither quote nor colon
    is passed on as it is. *)
Theorem X3_overlay_escaping (s : string) :
  Shape.colonsEscaped (escapeText s) = true
  /\ Shape.colonsEscaped (escapeFontPath s) = true
  /\ Shape.backslashesEscapeColons (escapeFontPath s) = true
  /\ (Shape.hasChar "'" s = false -> Shape.hasChar ":" s = false -> escapeText s = s).
Proof.
  split; [apply colonsEscaped_replace|]. split; [apply colonsEscaped_replace|].
  split; [apply backslashes_replace, hasChar_replace_backslash|].
  intros Hq Hc. unfold escapeText.
  rewrite (replaceAllChar_absent "'" _ s Hq). now apply replaceAllChar_absent.
Qed.

End Escaping.

Section FilterComplex.
Context `{JsNumber}.
Import Ffmpeg.

Lemma logoStep_fold (b : Builder) (l : list Logo) (chain lastV : string) (i : nat) :
  let '(_, lastV', i') := fold_left (logoStep b) l (chain, lastV, i) in
  i' = (i + length l)%nat
  /\ lastV' = match l with
              | [] => lastV
              | _ :: _ => "vov" +:+ showZ (Z.of_nat (i + length l))
              end.
Proof.
  revert chain lastV i. induction l as [|logo l IH]; intros chain lastV i.
  - simpl. split; [lia|reflexivity].
  - cbn [fold_left].
    set (acc := logoStep b (chain, lastV, i) logo).
    assert (Hacc : exists c, acc = (c, "vov" +:+ showZ (Z.of_nat i + 1), S i)).
    { unfold acc, logoStep. eexists. reflexivity. }
    destruct Hacc as [c ->]. specialize (IH c ("vov" +:+ showZ (Z.of_nat i + 1)) (S i)).
    destruct (fold_left (logoStep b) l _) as [[c' v'] i'].
    destruct IH as [Hi Hv]. split; [simpl; lia|].
    rewrite Hv. destruct l as [|x l'].
    + simpl. do 2 f_equal. lia.
    + do 2 f_equal. simpl. lia.
Qed.

(** X4. The shape of the filter arguments: without logo inputs they are the
    plain [-vf] chain (or nothing when there is no filter); with [n] logo
    inputs they are one [-filter_complex] graph whose mapped video output is
    the label of the last overlay, [vov<n>], together with the main input's
    audio. *)
Theorem X4_filter_arguments_shape (b : Builder) :
  match logoInputs b with
  | [] =>
      filterArgs b = match videoFilters b with
                     | [] => []
                     | fs => ["-vf"; join "," fs]
                     end
  | logos =>
      exists chain,
        filterArgs b = ["-filter_complex"; chain; "-map";
                        "[" +:+ ("vov" +:+ showZ (Z.of_nat (length logos))) +:+ "]";
                        "-map"; "0:a"]
  end.
Proof.
  unfold filterArgs. destruct (logoInputs b) as [|logo rest] eqn:Hl; [reflexivity|].
  pose proof (logoStep_fold b (logo :: rest) (baseChain b) "vbase" 0) as Hf.
  destruct (fold_left (logoStep b) (logo :: rest) _) as [[c v] i].
  destruct Hf as [_ ->]. eexists. reflexivity.
Qed.

Lemma lookup_flat_map_pairs (logos : list Logo) (i : nat) (logo : Logo) :
  logos !! i = Some logo ->
  flat_map (fun l => ["-i"; logo_path l]) logos !! (2 * i)%nat = Some "-i"
  /\ flat_map (fun l => ["-i"; logo_path l]) logos !! (2 * i + 1)%nat = Some (logo_path logo).
Proof.
  revert i. induction logos as [|x logos IH]; intros i Hi; [inversion Hi|].
  destruct i as [|i].
  - injection Hi as ->. split; reflexivity.
  - simpl in Hi. destruct (IH i Hi) as [H0 H1].
    replace (2 * S i)%nat with (S (S (2 * i))) by lia.
    replace (S (S (2 * i)) + 1)%nat with (S (S (2 * i + 1))) by lia.
    split; [exact H0 | exact H1].
Qed.

Lemma length_flat_map_pairs (logos : list Logo) :
  length (flat_map (fun l => ["-i"; logo_path l]) logos) = (2 * length logos)%nat.
Proof. induction logos as [|x logos IH]; [reflexivity|]. simpl. lia. Qed.

Lemma lookup_after_two {A : Type} (x y : A) (l : list A) (n : nat) :
  ([x; y] ++ l) !! S (S n) = l !! n.
Proof. reflexivity. Qed.

Lemma startsWith_refl (s : string) : startsWith s s = true.
Proof. induction s as [|c s IH]; [reflexivity|]. simpl. now rewrite Ascii.eqb_refl. Qed.

Lemma includes_prefix (pat rest : string) : includes (pat +:+ rest) pat = true.
Proof.
  apply includes_app_l. destruct pat as [|c pat]; [reflexivity|].
  cbn [includes]. now rewrite startsWith_refl.
Qed.

(** X5. The inputs are numbered the same way in the argument list and in the
    filter graph: the main content is input 0, the [i]-th logo is the input
    [i+1] that its scale stage reads ([[i+1:v]]), and a background image is
    registered last, at the index [bgInputIdx] that replaces the placeholder. *)
Theorem X5_input_numbering (b : Builder) :
  (inputArgs b !! 0%nat = Some "-i" /\ inputArgs b !! 1%nat = Some (inputPath b))
  /\ (forall (i : nat) (logo : Logo) chain lastV,
        logoInputs b !! i = Some logo ->
        inputArgs b !! (2 * (i + 1))%nat = Some "-i"
        /\ inputArgs b !! (2 * (i + 1) + 1)%nat = Some (logo_path logo)
        /\ includes (fst (fst (logoStep b (chain, lastV, i) logo)))
             ("[" +:+ showZ (Z.of_nat (i + 1)) +:+ ":v]scale=") = true)
  /\ match backgroundInput b with
     | Some bg =>
         bgInputIdx b = Z.of_nat (length (logoInputs b) + 1)
         /\ inputArgs b !! (2 * (length (logoInputs b) + 1))%nat = Some "-i"
         /\ inputArgs b !! (2 * (length (logoInputs b) + 1) + 1)%nat = Some bg
         /\ length (inputArgs b) = (2 * (length (logoInputs b) + 2))%nat
     | None =>
         bgInputIdx b = (-1)%Z
         /\ length (inputArgs b) = (2 * (length (logoInputs b) + 1))%nat
     end.
Proof.
  unfold inputArgs. split; [split; reflexivity|]. split.
  - intros i logo chain lastV Hi.
    destruct (lookup_flat_map_pairs _ _ _ Hi) as [H0 H1].
    replace (2 * (i + 1))%nat with (S (S (2 * i))) by lia.
    replace (S (S (2 * i)) + 1)%nat with (S (S (2 * i + 1))) by lia.
    split; [|split].
    + rewrite lookup_after_two, lookup_app_l; [exact H0|].
      apply lookup_lt_Some in H0. exact H0.
    + rewrite lookup_after_two, lookup_app_l; [exact H1|].
      apply lookup_lt_Some in H1. exact H1.
    + unfold logoStep. cbn [fst].
      replace (Z.of_nat i + 1)%Z with (Z.of_nat (i + 1)) by lia.
      set (idx := showZ (Z.of_nat (i + 1))).
      apply includes_app_l, includes_app_r.
      match goal with
      | |- includes (_ +:+ _ +:+ _ +:+ ?rest) _ = true =>
          replace ("[" +:+ idx +:+ ":v]scale=" +:+ rest)
            with (("[" +:+ idx +:+ ":v]scale=") +:+ rest)
            by (rewrite !append_assoc; reflexivity)
      end.
      apply includes_prefix.
  - unfold bgInputIdx. destruct (backgroundInput b) as [bg|].
    + split; [lia|].
      assert (Hlen : length (flat_map (fun l => ["-i"; logo_path l]) (logoInputs b))
                     = (2 * length (logoInputs b))%nat) by apply length_flat_map_pairs.
      replace (2 * (length (logoInputs b) + 1))%nat
        with (S (S (2 * length (logoInputs b)))) by lia.
      replace (S (S (2 * length (logoInputs b))) + 1)%nat
        with (S (S (2 * length (logoInputs b) + 1))) by lia.
      split; [|split].
      * rewrite lookup_after_two, lookup_app_r by lia. rewrite Hlen, Nat.sub_diag. reflexivity.
      * rewrite lookup_after_two, lookup_app_r by lia. rewrite Hlen.
        replace (2 * length (logoInputs b) + 1 - 2 * length (logoInputs b))%nat with 1%nat by lia.
        reflexivity.
      * rewrite !length_app, Hlen. simpl. lia.
    + split; [reflexivity|]. rewrite !length_app, length_flat_map_pairs.
      simpl. lia.
Qed.

End FilterComplex.

Section ProtectionStage.
Context `{JsNumber}.
Import Ffmpeg.

Lemma gt_false (a b : Q) : gt a b = false <-> (a <= b)%Q.
Proof. unfold gt. rewrite negb_false_iff. apply Qle_bool_iff. Qed.

Lemma enableExpr_truthy (pr : Protection) : truthy (enableExpr pr) = true.
Proof. unfold enableExpr. destruct (pr_mode pr) as [[| |]|]; reflexivity. Qed.

(** X6. The gate of the protection stage: a descriptor is ignored exactly
    when its interval is not positive and it is either in time mode or has no
    positive injection count; an ignored descriptor leaves the builder as it
    is, an applied one adds exactly one video filter or one image input and
    no audio filter. *)
Theorem X6_protection_gate (p : ProfileData) (b : Builder) (pr : Protection) :
  protection p = Some pr ->
  (protectionActive pr = false
   <-> (pr_interval pr <= 0)%Q
       /\ (pr_mode pr = Some ModeTime \/ (orNum (pr_injectionFrames pr) 0 <= 0)%Q))
  /\ (protectionActive pr = false -> stageProtection p b = b)
  /\ (protectionActive pr = true ->
      (length (videoFilters (stageProtection p b)) + length (logoInputs (stageProtection p b))
       = S (length (videoFilters b) + length (logoInputs b)))%nat
      /\ audioFilters (stageProtection p b) = audioFilters b).
Proof.
  intros Hp. split; [|split].
  - unfold protectionActive. rewrite orb_false_iff, andb_false_iff, negb_false_iff, !gt_false.
    split; intros [Hi Hm]; (split; [exact Hi|]).
    + destruct Hm as [Hm|Hm]; [left|right; exact Hm].
      unfold isTimeMode in Hm. destruct (pr_mode pr) as [[| |]|]; congruence.
    + destruct Hm as [Hm|Hm]; [left; rewrite Hm; reflexivity|right; exact Hm].
  - intros Hg. unfold stageProtection. rewrite Hp, Hg. reflexivity.
  - intros Hg. unfold stageProtection. rewrite Hp, Hg.
    destruct (protectionEffect pr); cbn [pushVideo pushLogo videoFilters logoInputs audioFilters];
      rewrite length_app; simpl; split; try reflexivity; lia.
Qed.

(** X7. The position of a protection image: the image input carries the
    position expressions as strings, which [build] converts with [Number]; as
    that yields NaN on them, the overlay is emitted at [x=(W*NaN):y=(H*NaN)],
    unscaled and with the enable expression. *)
Theorem X7_protection_image_position (pr : Protection) (path : string) (b : Builder)
  (chain lastV : string) (i : nat) :
  parseNum "(W-w)/2" = NaN -> parseNum "(H-h)/2" = NaN ->
  pr_type pr = PtImage -> pr_imagePath pr = Some path -> Js.truthy path = true ->
  exists logo,
    protectionEffect pr = EffLogo logo
    /\ logo_path logo = path
    /\ includes (fst (fst (logoStep b (chain, lastV, i) logo)))
         (":v]scale=" +:+ showZ (-1) +:+ ":" +:+ showZ (-1)) = true
    /\ includes (fst (fst (logoStep b (chain, lastV, i) logo)))
         ("overlay=x=(W*NaN):y=(H*NaN):enable='" +:+ enableExpr pr +:+ "'") = true.
Proof.
  intros Hx Hy Ht Hp Htr. unfold protectionEffect. rewrite Ht, Hp, Htr.
  eexists. split; [reflexivity|]. split; [reflexivity|].
  unfold logoStep. cbn [fst logo_x logo_y logo_width logo_height logo_enable logoDim].
  rewrite (enableExpr_truthy pr).
  unfold orZero, toNumber. cbn [Js.truthy String.eqb negb]. rewrite Hx, Hy.
  cbn [divBy showNumber]. split.
  - apply includes_app_l, includes_app_r, includes_app_r, includes_app_r.
    cbn [logoDim].
    match goal with
    | |- includes (_ +:+ _ +:+ _ +:+ _ +:+ ?rest) _ = true =>
        replace (":v]scale=" +:+ showZ (-1) +:+ ":" +:+ showZ (-1) +:+ rest)
          with ((":v]scale=" +:+ showZ (-1) +:+ ":" +:+ showZ (-1)) +:+ rest)
          by (rewrite !append_assoc; reflexivity)
    end.
    apply includes_prefix.
  - do 6 apply includes_app_r. unfold enableSuffix.
    match goal with
    | |- includes (_ +:+ ?rest) _ = true =>
        replace (("overlay=x=(W*" +:+ "NaN" +:+ "):y=(H*" +:+ "NaN" +:+ ")")
                 +:+ (":enable='" +:+ @enableExpr H pr +:+ "'") +:+ rest)
          with (("overlay=x=(W*NaN):y=(H*NaN):enable='" +:+ @enableExpr H pr +:+ "'") +:+ rest)
    end.
    + apply includes_prefix.
    + rewrite !append_assoc. reflexivity.
Qed.

End ProtectionStage.

Lemma X6_protection_gate_witness :
  @Ffmpeg.stageProtection exampleNumber
    (CompilerExamples.withProtection
       (CompilerExamples.trigger (Some Ffmpeg.ModeTime) 0 (Some 5%Q)))
    (Ffmpeg.newBuilder "in.mp4")
  = Ffmpeg.newBuilder "in.mp4".
Proof.
  refine (proj1 (proj2 (@X6_protection_gate exampleNumber
            (CompilerExamples.withProtection
               (CompilerExamples.trigger (Some Ffmpeg.ModeTime) 0 (Some 5%Q)))
            (Ffmpeg.newBuilder "in.mp4") _ eq_refl)) eq_refl).
Defined.

Lemma X7_protection_image_witness :
  exists logo,
    @Ffmpeg.protectionEffect exampleNumber MoreExamples.imageFlash = Ffmpeg.EffLogo logo
    /\ includes
         (fst (fst (@Ffmpeg.logoStep exampleNumber (Ffmpeg.newBuilder "in.mp4")
                      ("[0:v]null[vbase];", "vbase", O) logo)))
         "overlay=x=(W*NaN):y=(H*NaN):enable='lt(mod(n,30),1)'" = true.
Proof.
  destruct (@X7_protection_image_position exampleNumber MoreExamples.imageFlash "mark.png"
              (Ffmpeg.newBuilder "in.mp4") "[0:v]null[vbase];" "vbase" O
              eq_refl eq_refl eq_refl eq_refl eq_refl) as (logo & He & _ & _ & Hi).
  exists logo. split; [exact He | exact Hi].
Defined.

(* ================================================================== *)
(** ** Further properties of the orchestrator and its callers *)
(* ================================================================== *)

Import Orchestrator.

Section ExitHandler.

(** What one [UPDATE stream_queue ... WHERE id = k] followed by one
    [UPDATE stream_sessions ... WHERE job_id = k ...] leaves alone. *)
Lemma job_write_frame (k : string) (sel : Session -> bool) (f : Session -> Session)
  (g : StreamJob -> StreamJob) (d : Db) :
  (forall s, s_job_id (f s) = s_job_id s) ->
  (forall s, sel s = true -> s_job_id s = k) ->
  let d' := updateSessions sel f (setQueue (alter g k) d) in
  pages d' = pages d /\ videos d' = videos d /\ settings d' = settings d
  /\ editing_profiles d' = editing_profiles d
  /\ (forall k', k' <> k -> stream_queue d' !! k' = stream_queue d !! k')
  /\ (forall k', is_Some (stream_queue d' !! k') <-> is_Some (stream_queue d !! k'))
  /\ length (stream_sessions d') = length (stream_sessions d)
  /\ (forall s : Session, s_job_id s <> k ->
        s ∈ stream_sessions d' <-> s ∈ stream_sessions d).
Proof.
  intros Hf Hsel d'. subst d'. simpl.
  do 4 (split; [reflexivity|]).
  split; [|split; [|split]].
  - intros k' Hk. rewrite lookup_alter. rewrite decide_False by congruence. reflexivity.
  - intros k'. rewrite lookup_alter. case_decide; [subst|tauto].
    rewrite fmap_is_Some. tauto.
  - apply length_map.
  - intros s Hne. split.
    + intros Hs. apply list_elem_of_fmap in Hs as [s0 [-> Hs0]].
      destruct (sel s0) eqn:E; [|exact Hs0].
      exfalso. apply Hne. rewrite Hf. now apply Hsel.
    + intros Hs. apply list_elem_of_fmap. exists s. split; [|exact Hs].
      destruct (sel s) eqn:E; [|reflexivity].
      exfalso. apply Hne. now apply Hsel.
Qed.

Lemma exit_frame_of (job : StreamJob) (st st' : Orch) :
  st' = withStreams (delete (id job)) st
  \/ (exists (f : Session -> Session) (g : StreamJob -> StreamJob),
        (forall s, s_job_id (f s) = s_job_id s)
        /\ st' = withDb (fun _ => updateSessions (ofJob (id job)) f
                                    (setQueue (alter g (id job)) (db st)))
                   (withStreams (delete (id job)) st)) ->
  activeStreams st' = delete (id job) (activeStreams st)
  /\ pages (db st') = pages (db st) /\ videos (db st') = videos (db st)
  /\ settings (db st') = settings (db st)
  /\ editing_profiles (db st') = editing_profiles (db st)
  /\ (forall k, k <> id job -> stream_queue (db st') !! k = stream_queue (db st) !! k)
  /\ (forall k, is_Some (stream_queue (db st') !! k) <-> is_Some (stream_queue (db st) !! k))
  /\ length (stream_sessions (db st')) = length (stream_sessions (db st))
  /\ (forall s : Session, s_job_id s <> id job ->
        s ∈ stream_sessions (db st') <-> s ∈ stream_sessions (db st)).
Proof.
  intros [->|(f & g & Hf & ->)].
  - simpl. do 5 (split; [reflexivity|]). split; [reflexivity|]. split; [tauto|].
    split; [reflexivity|tauto].
  - cbn [fst withDb withStreams db activeStreams].
    split; [reflexivity|].
    apply (job_write_frame (id job) (ofJob (id job)) f g (db st) Hf).
    intros s. apply ofJob_true.
Qed.

(** X8. The exit handler always removes the job's entry from the supervision
    table, and whatever the exit code and the state of the store it writes
    only to the job's own queue row and to the sessions of that job: the
    other tables, the other queue rows, the set of queue keys, the number of
    sessions and the sessions of other jobs are as before. *)
Theorem X8_exit_handler_frame (now : Z) (job : StreamJob) (videoIndex : Z)
  (code : option Z) (st : Orch) :
  let st' := fst (onClose now job videoIndex code st) in
  activeStreams st' = delete (id job) (activeStreams st)
  /\ pages (db st') = pages (db st) /\ videos (db st') = videos (db st)
  /\ settings (db st') = settings (db st)
  /\ editing_profiles (db st') = editing_profiles (db st)
  /\ (forall k, k <> id job -> stream_queue (db st') !! k = stream_queue (db st) !! k)
  /\ (forall k, is_Some (stream_queue (db st') !! k) <-> is_Some (stream_queue (db st) !! k))
  /\ length (stream_sessions (db st')) = length (stream_sessions (db st))
  /\ (forall s : Session, s_job_id s <> id job ->
        s ∈ stream_sessions (db st') <-> s ∈ stream_sessions (db st)).
Proof.
  intros st'. apply exit_frame_of. subst st'. unfold onClose.
  set (st1 := withStreams (delete (id job)) st).
  assert (Hstop : forall a : CloseAction,
            exists (f : Session -> Session) (g : StreamJob -> StreamJob),
              (forall s, s_job_id (f s) = s_job_id s)
              /\ fst (withDb (finalizeStopped now (id job)) st1, a)
                 = withDb (fun _ => updateSessions (ofJob (id job)) f
                                      (setQueue (alter g (id job)) (db st))) st1).
  { intros a. exists (setFinal SStopped now), (jobWithStatus Stopped).
    split; reflexivity. }
  destruct (isStopping (stream_queue (db st1) !! id job)); [right; apply Hstop|].
  destruct (stream_queue (db st1) !! id job) as [cur|]; [|left; reflexivity].
  destruct code as [[| |]|];
    try (right; destruct (MAX_RECOVERY_ATTEMPTS <=? default 0 (recovery_attempts cur) + 1)%Z;
         eexists (setFailedLog _), (jobWithAttempts _ _); split; reflexivity).
  destruct (match playlist cur with Some l => (1 <? Z.of_nat (length l))%Z | None => false end).
  - destruct (loop cur =? 2)%Z; [left; reflexivity|].
    destruct (videoIndex + 1 <? _)%Z; [left; reflexivity|].
    destruct (loop cur =? 1)%Z; [left; reflexivity|].
    right; apply Hstop.
  - destruct (1 <=? loop cur)%Z; [left; reflexivity|].
    right; apply Hstop.
Qed.

(** X9. An exit while the job is [stopping]: whatever the exit code, the job
    becomes [stopped], nothing is restarted, and every session of the job,
    also one that had failed or ended before, is marked [stopped] with the
    current time as its end. *)
Theorem X9_exit_of_stopping_job (now : Z) (job : StreamJob) (videoIndex : Z)
  (code : option Z) (st : Orch) (cur : StreamJob) :
  stream_queue (db st) !! id job = Some cur ->
  status cur = Stopping ->
  let res := onClose now job videoIndex code st in
  snd res = Finished
  /\ stream_queue (db (fst res)) !! id job = Some (jobWithStatus Stopped cur)
  /\ stream_sessions (db (fst res))
     = map (fun s => if ofJob (id job) s then setFinal SStopped now s else s)
         (stream_sessions (db st))
  /\ (forall s : Session, s ∈ stream_sessions (db (fst res)) -> s_job_id s = id job ->
        s_status s = SStopped /\ ended_at s = Some now).
Proof.
  intros Hcur Hst res. subst res. unfold onClose.
  cbn [withStreams db]. rewrite Hcur. cbn [isStopping]. rewrite Hst.
  cbn [fst snd withDb db]. split; [reflexivity|]. split; [|split].
  - now apply finalizeStopped_status.
  - reflexivity.
  - intros s. apply finalizeStopped_sessions.
Qed.

(** X10. A failure exit (any code but 0, or the end by a signal) of a job
    that is not stopping: nothing is restarted by the handler, every session
    of the job becomes [failed] with the log text [Process exited with code]
    followed by the code ([null] for a signal), and the end time of those
    sessions is left as it was. *)
Theorem X10_failure_exit_sessions (now : Z) (job : StreamJob) (videoIndex : Z)
  (code : option Z) (st : Orch) (cur : StreamJob) :
  stream_queue (db st) !! id job = Some cur ->
  status cur <> Stopping ->
  code <> Some 0%Z ->
  let res := onClose now job videoIndex code st in
  let text := "Process exited with code "
              +:+ match code with Some c => showDecimal (inject_Z c) | None => "null" end in
  snd res = Finished
  /\ stream_sessions (db (fst res))
     = map (fun s => if ofJob (id job) s then setFailedLog text s else s)
         (stream_sessions (db st))
  /\ (forall s : Session, s ∈ stream_sessions (db (fst res)) -> s_job_id s = id job ->
        s_status s = SFailed /\ error_log s = Some text
        /\ exists s0 : Session, s0 ∈ stream_sessions (db st) /\ ended_at s = ended_at s0
                                /\ s_id s = s_id s0).
Proof.
  intros Hcur Hst Hcode res text. subst res. unfold onClose.
  cbn [withStreams db]. rewrite Hcur.
  assert (Hns : isStopping (Some cur) = false).
  { simpl. destruct (status cur); congruence. }
  rewrite Hns.
  assert (Hgoal : forall d1,
    stream_sessions d1 = stream_sessions (db st) ->
    let r := (withDb (fun _ => updateSessions (ofJob (id job)) (setFailedLog text) d1)
                (withStreams (delete (id job)) st), Finished) in
    snd r = Finished
    /\ stream_sessions (db (fst r))
       = map (fun s => if ofJob (id job) s then setFailedLog text s else s)
           (stream_sessions (db st))
    /\ (forall s : Session, s ∈ stream_sessions (db (fst r)) -> s_job_id s = id job ->
          s_status s = SFailed /\ error_log s = Some text
          /\ exists s0 : Session, s0 ∈ stream_sessions (db st) /\ ended_at s = ended_at s0
                                  /\ s_id s = s_id s0)).
  { intros d1 Hd1 r. subst r. cbn [fst snd withDb db]. split; [reflexivity|].
    split; [simpl; rewrite Hd1; reflexivity|].
    intros s Hs Hid. apply elem_of_updateSessions in Hs as [s0 [Hs0 ->]].
    rewrite Hd1 in Hs0.
    destruct (ofJob (id job) s0) eqn:E.
    - split; [reflexivity|]. split; [reflexivity|]. exists s0.
      split; [exact Hs0|]. split; reflexivity.
    - apply ofJob_true in Hid. congruence. }
  destruct code as [[| |]|]; try congruence;
    destruct (MAX_RECOVERY_ATTEMPTS <=? default 0 (recovery_attempts cur) + 1)%Z;
    apply Hgoal; reflexivity.
Qed.

(** X11. The index handed to a restart stays inside the playlist: when the
    stored playlist has more than one entry and the process was started at an
    index inside it, any restart the exit handler asks for is at an index
    inside it as well. *)
Theorem X11_restart_index_in_playlist (now : Z) (job : StreamJob) (videoIndex i : Z)
  (code : option Z) (st : Orch) (cur : StreamJob) (l : list string) :
  stream_queue (db st) !! id job = Some cur ->
  playlist cur = Some l -> (1 < length l)%nat ->
  (0 <= videoIndex < Z.of_nat (length l))%Z ->
  snd (onClose now job videoIndex code st) = Restart i ->
  (0 <= i < Z.of_nat (length l))%Z /\ code = Some 0%Z /\ status cur <> Stopping.
Proof.
  intros Hcur Hpl Hlen Hidx. unfold onClose. cbn [withStreams db]. rewrite Hcur.
  destruct (isStopping (Some cur)) eqn:Hs; [cbn [snd]; discriminate|].
  assert (Hns : status cur <> Stopping).
  { intros Hc. simpl in Hs. rewrite Hc in Hs. discriminate. }
  destruct code as [[| |]|];
    try (destruct (MAX_RECOVERY_ATTEMPTS <=? _)%Z; cbn [snd]; discriminate).
  rewrite Hpl. change (default [] (Some l)) with l.
  destruct (Z.ltb_spec 1 (Z.of_nat (length l))); [|lia].
  destruct (loop cur =? 2)%Z.
  { cbn [snd]; intros [= <-]. repeat split; try lia; assumption. }
  destruct (Z.ltb_spec (videoIndex + 1) (Z.of_nat (length l))).
  { cbn [snd]; intros [= <-]. repeat split; try lia; assumption. }
  destruct (loop cur =? 1)%Z; [|cbn [snd]; discriminate].
  cbn [snd]; intros [= <-]. repeat split; try lia; assumption.
Qed.

End ExitHandler.

Lemma X9_stopping_exit_witness :
  let j := Examples.job Stopping 1 None (Some 1%Z) in
  snd (onClose 100 j 0 (Some 255%Z)
         (Examples.supervised (Examples.store j [Examples.session "s1" SFailed None])))
  = Finished
  /\ stream_sessions
       (db (fst (onClose 100 j 0 (Some 255%Z)
                   (Examples.supervised
                      (Examples.store j [Examples.session "s1" SFailed None])))))
     = [setFinal SStopped 100 (Examples.session "s1" SFailed None)].
Proof.
  intros j.
  destruct (X9_exit_of_stopping_job 100 j 0 (Some 255%Z)
              (Examples.supervised (Examples.store j [Examples.session "s1" SFailed None]))
              j eq_refl eq_refl) as (Ha & _ & Hs & _).
  split; [exact Ha | exact Hs].
Defined.

Lemma X10_failure_exit_witness :
  let j := Examples.job Live 1 None None in
  stream_sessions
    (db (fst (onClose 100 j 0 None
                (Examples.supervised (Examples.store j [Examples.session "s1" SLive None])))))
  = [setFailedLog "Process exited with code null" (Examples.session "s1" SLive None)].
Proof.
  intros j.
  refine (proj1 (proj2 (X10_failure_exit_sessions 100 j 0 None
            (Examples.supervised (Examples.store j [Examples.session "s1" SLive None]))
            j eq_refl _ _))); discriminate.
Defined.

Lemma X11_restart_index_witness :
  (0 <= 0 < 3)%Z /\ Some 0%Z = Some 0%Z /\ Live <> Stopping.
Proof.
  exact (X11_restart_index_in_playlist 100
           (Examples.job Live 1 (Some ["v1"; "v2"; "v3"]) None) 2 0 (Some 0%Z)
           (Examples.supervised
              (Examples.store (Examples.job Live 1 (Some ["v1"; "v2"; "v3"]) None) []))
           (Examples.job Live 1 (Some ["v1"; "v2"; "v3"]) None) ["v1"; "v2"; "v3"]
           eq_refl eq_refl ltac:(simpl; lia) ltac:(simpl; lia) eq_refl).
Defined.

Section StopFacts.

Lemma jobWithStatus_twice s s' j : jobWithStatus s' (jobWithStatus s j) = jobWithStatus s' j.
Proof. reflexivity. Qed.

Lemma signalled_twice c : signalled (signalled c) = signalled c.
Proof. reflexivity. Qed.

Lemma stopStream_queue now k st k' :
  stream_queue (db (stopStream now k st)) !! k'
  = if decide (k = k')
    then jobWithStatus (match activeStreams st !! k with Some _ => Stopping | None => Stopped end)
           <$> stream_queue (db st) !! k'
    else stream_queue (db st) !! k'.
Proof.
  unfold stopStream. cbn [withDb db activeStreams].
  destruct (activeStreams st !! k); cbn [withDb withStreams db].
  - apply lookup_updateJobStatus.
  - rewrite queue_updateSessions, !lookup_updateJobStatus.
    case_decide; [|reflexivity]. destruct (stream_queue (db st) !! k'); reflexivity.
Qed.

Lemma stopStream_streams now k st k' :
  activeStreams (stopStream now k st) !! k'
  = if decide (k = k') then signalled <$> activeStreams st !! k' else activeStreams st !! k'.
Proof.
  unfold stopStream. cbn [withDb db activeStreams].
  destruct (activeStreams st !! k) eqn:E; cbn [withDb withStreams activeStreams].
  - rewrite lookup_alter. case_decide; subst; reflexivity.
  - case_decide; [subst; rewrite E|]; reflexivity.
Qed.

Lemma stopStream_supervision now k st k' :
  is_Some (activeStreams (stopStream now k st) !! k') <-> is_Some (activeStreams st !! k').
Proof.
  rewrite stopStream_streams. case_decide; [|tauto]. apply fmap_is_Some.
Qed.

(** X12. A stop request for a supervised job and the exit that follows it:
    the request signals the process and marks the job [stopping] without
    touching the sessions; the exit, whatever its code, then makes the job
    [stopped], restarts nothing, leaves the recovery counter as it was and
    clears the supervision entry. *)
Theorem X12_stop_then_exit (now now' : Z) (job : StreamJob) (videoIndex : Z)
  (code : option Z) (st : Orch) (cur : StreamJob) (c : Child) :
  stream_queue (db st) !! id job = Some cur ->
  activeStreams st !! id job = Some c ->
  let st1 := stopStream now (id job) st in
  let res := onClose now' job videoIndex code st1 in
  activeStreams st1 !! id job = Some (signalled c)
  /\ stream_queue (db st1) !! id job = Some (jobWithStatus Stopping cur)
  /\ stream_sessions (db st1) = stream_sessions (db st)
  /\ snd res = Finished
  /\ stream_queue (db (fst res)) !! id job = Some (jobWithStatus Stopped cur)
  /\ recovery_attempts (jobWithStatus Stopped cur) = recovery_attempts cur
  /\ activeStreams (fst res) !! id job = None.
Proof.
  intros Hcur Hc st1 res.
  assert (H1 : activeStreams st1 !! id job = Some (signalled c)).
  { subst st1. rewrite stopStream_streams, decide_True by reflexivity. rewrite Hc. reflexivity. }
  assert (H2 : stream_queue (db st1) !! id job = Some (jobWithStatus Stopping cur)).
  { subst st1. rewrite stopStream_queue, decide_True by reflexivity.
    rewrite Hc, Hcur. reflexivity. }
  assert (H3 : stream_sessions (db st1) = stream_sessions (db st)).
  { subst st1. unfold stopStream. cbn [withDb db activeStreams]. rewrite Hc. reflexivity. }
  split; [exact H1|]. split; [exact H2|]. split; [exact H3|].
  subst res. unfold onClose. cbn [withStreams db]. rewrite H2.
  cbn [isStopping jobWithStatus status]. cbn [fst snd withDb db activeStreams].
  split; [reflexivity|]. split.
  { exact (finalizeStopped_status now' (id job) (db st1) _ H2). }
  split; [reflexivity|].
  apply lookup_delete_eq.
Qed.

(** X13. A stop request for a job without a supervised process: the
    supervision table is left alone, the job row (if there is one) becomes
    [stopped] at once, exactly the live sessions of the job are closed as
    [stopped] with the current time, and a second request changes nothing
    more in the queue. *)
Theorem X13_stop_without_process (now : Z) (k : string) (st : Orch) :
  activeStreams st !! k = None ->
  let st' := stopStream now k st in
  activeStreams st' = activeStreams st
  /\ stream_queue (db st') = alter (jobWithStatus Stopped) k (stream_queue (db st))
  /\ stream_sessions (db st')
     = map (fun s => if ofJob k s && isLive s then setFinal SStopped now s else s)
         (stream_sessions (db st))
  /\ (forall s : Session, s ∈ stream_sessions (db st') -> s_job_id s = k ->
        s_status s <> SLive)
  /\ (forall s : Session, s ∈ stream_sessions (db st) -> s_status s <> SLive ->
        s ∈ stream_sessions (db st'))
  /\ stream_queue (db (stopStream now k st')) = stream_queue (db st').
Proof.
  intros Hk st'.
  assert (Hq : stream_queue (db st') = alter (jobWithStatus Stopped) k (stream_queue (db st))).
  { apply map_eq. intros k'. subst st'. rewrite stopStream_queue, Hk, lookup_alter.
    case_decide; subst; reflexivity. }
  assert (Ha : activeStreams st' = activeStreams st).
  { subst st'. unfold stopStream. cbn [withDb db activeStreams]. rewrite Hk. reflexivity. }
  assert (Hs : stream_sessions (db st')
               = map (fun s => if ofJob k s && isLive s then setFinal SStopped now s else s)
                   (stream_sessions (db st))).
  { subst st'. unfold stopStream. cbn [withDb db activeStreams]. rewrite Hk. reflexivity. }
  split; [exact Ha|]. split; [exact Hq|]. split; [exact Hs|]. split; [|split].
  - intros s Hin Hid. rewrite Hs in Hin. apply list_elem_of_fmap in Hin as [s0 [-> Hs0]].
    destruct (ofJob k s0 && isLive s0) eqn:E; [discriminate|].
    intros Hl. apply andb_false_iff in E as [E|E].
    + apply ofJob_true in Hid. congruence.
    + unfold isLive in E. rewrite Hl in E. discriminate.
  - intros s Hin Hl. rewrite Hs. apply list_elem_of_fmap. exists s. split; [|exact Hin].
    replace (isLive s) with false; [rewrite andb_false_r; reflexivity|].
    unfold isLive. destruct (s_status s); congruence.
  - apply map_eq. intros k'. rewrite stopStream_queue, Ha, Hk.
    case_decide; [subst|reflexivity]. rewrite Hq, lookup_alter, decide_True by reflexivity.
    destruct (stream_queue (db st) !! k'); reflexivity.
Qed.

End StopFacts.

Lemma X12_stop_then_exit_witness :
  let j := Examples.job Live 1 None (Some 2%Z) in
  let st1 := stopStream 100 "job1" (Examples.supervised (Examples.store j [])) in
  snd (onClose 101 j 0 (Some 255%Z) st1) = Finished
  /\ stream_queue (db (fst (onClose 101 j 0 (Some 255%Z) st1))) !! "job1"
     = Some (jobWithStatus Stopped j).
Proof.
  intros j st1.
  destruct (X12_stop_then_exit 100 101 j 0 (Some 255%Z)
              (Examples.supervised (Examples.store j [])) j Examples.ffmpegProcess
              eq_refl eq_refl) as (_ & _ & _ & Ha & Hq & _).
  split; [exact Ha | exact Hq].
Defined.

Lemma X13_stop_without_process_witness :
  let j := Examples.job Live 1 None None in
  stream_sessions
    (db (stopStream 100 "job1"
           (Examples.idle (Examples.store j [Examples.session "s1" SLive None;
                                             Examples.session "s0" SFailed None]))))
  = [setFinal SStopped 100 (Examples.session "s1" SLive None);
     Examples.session "s0" SFailed None].
Proof.
  intros j.
  exact (proj1 (proj2 (proj2 (X13_stop_without_process 100 "job1"
           (Examples.idle (Examples.store j [Examples.session "s1" SLive None;
                                             Examples.session "s0" SFailed None]))
           eq_refl)))).
Defined.

Section StopAll.

Lemma supervised_stopStream now a st k :
  match activeStreams (stopStream now a st) !! k with Some _ => Stopping | None => Stopped end
  = match activeStreams st !! k with Some _ => Stopping | None => Stopped end.
Proof.
  rewrite stopStream_streams. case_decide; [|reflexivity].
  destruct (activeStreams st !! k); reflexivity.
Qed.

(** The first loop of [stopAllStreams], over any list of job ids. *)
Lemma stopEach now (l : list string) (st : Orch) (k : string) :
  let st1 := fold_left (fun acc jobId => stopStream now jobId acc) l st in
  (k ∈ l ->
     activeStreams st1 !! k = signalled <$> activeStreams st !! k
     /\ stream_queue (db st1) !! k
        = jobWithStatus (match activeStreams st !! k with
                         | Some _ => Stopping | None => Stopped end)
            <$> stream_queue (db st) !! k)
  /\ (k ∉ l ->
        activeStreams st1 !! k = activeStreams st !! k
        /\ stream_queue (db st1) !! k = stream_queue (db st) !! k).
Proof.
  revert st. induction l as [|a l IH]; intros st; cbn [fold_left].
  - split; [intros Hin; inversion Hin|]. intros _. split; reflexivity.
  - specialize (IH (stopStream now a st)). cbv zeta in IH. destruct IH as [IHin IHout].
    destruct (decide (k ∈ l)) as [Hl|Hl].
    + split; [|intros Hn; exfalso; apply Hn; right; exact Hl]. intros _.
      destruct (IHin Hl) as [Hs Hq]. rewrite Hs, Hq, supervised_stopStream.
      rewrite stopStream_streams, stopStream_queue.
      case_decide; [subst|split; reflexivity].
      split.
      * destruct (activeStreams st !! k); reflexivity.
      * destruct (activeStreams st !! k); destruct (stream_queue (db st) !! k); reflexivity.
    + destruct (IHout Hl) as [Hs Hq]. rewrite Hs, Hq.
      rewrite stopStream_streams, stopStream_queue. split.
      * intros Hin. apply elem_of_cons in Hin as [->|Hin]; [|contradiction].
        rewrite !decide_True by reflexivity. split; reflexivity.
      * intros Hn. rewrite !decide_False; [split; reflexivity| |];
          intros ->; apply Hn; left.
Qed.

(** The second loop of [stopAllStreams], over any list of jobs. *)
Lemma stopStuck now (js : list StreamJob) (st : Orch) (k : string) :
  let step := fun acc j => match activeStreams acc !! id j with
                           | Some _ => acc
                           | None => stopStream now (id j) acc
                           end in
  let st2 := fold_left step js st in
  activeStreams st2 !! k = activeStreams st !! k
  /\ stream_queue (db st2) !! k
     = if decide (k ∈ map id js /\ activeStreams st !! k = None)
       then jobWithStatus Stopped <$> stream_queue (db st) !! k
       else stream_queue (db st) !! k.
Proof.
  cbv zeta. revert st. induction js as [|j js IH]; intros st; cbn [fold_left map].
  - split; [reflexivity|]. rewrite decide_False; [reflexivity|].
    intros [Hin _]. inversion Hin.
  - set (st1 := match activeStreams st !! id j with
                | Some _ => st
                | None => stopStream now (id j) st
                end).
    assert (Hs1 : activeStreams st1 !! k = activeStreams st !! k).
    { subst st1. destruct (activeStreams st !! id j) eqn:E; [reflexivity|].
      rewrite stopStream_streams. destruct (decide (id j = k)) as [<-|Hne]; [rewrite E|]; reflexivity. }
    assert (Hq1 : stream_queue (db st1) !! k
                  = if decide (id j = k /\ activeStreams st !! k = None)
                    then jobWithStatus Stopped <$> stream_queue (db st) !! k
                    else stream_queue (db st) !! k).
    { subst st1. destruct (activeStreams st !! id j) eqn:E.
      - rewrite decide_False; [reflexivity|]. intros [<- Hn]. congruence.
      - rewrite stopStream_queue, E. destruct (decide (id j = k)) as [<-|Hne].
        + rewrite decide_True by (split; [reflexivity|exact E]). reflexivity.
        + rewrite decide_False by tauto. reflexivity. }
    destruct (IH st1) as [Hs Hq]. clear IH. rewrite Hs, Hq, Hs1, Hq1. split; [reflexivity|].
    assert (Hc : k ∈ id j :: map id js <-> k = id j \/ k ∈ map id js) by apply elem_of_cons.
    destruct (decide (k ∈ map id js /\ activeStreams st !! k = None)) as [[Hin Hn]|Hno];
      destruct (decide (id j = k /\ activeStreams st !! k = None)) as [[He Hn']|Hno'];
      destruct (decide (k ∈ id j :: map id js /\ activeStreams st !! k = None))
        as [[Hin2 Hn2]|Hno2];
      try reflexivity;
      try (destruct (stream_queue (db st) !! k); reflexivity);
      exfalso; intuition (auto; congruence).
Qed.

Lemma elem_of_keys {V : Type} (m : gmap string V) (k : string) :
  k ∈ map fst (map_to_list m) <-> is_Some (m !! k).
Proof.
  split.
  - intros Hin. apply list_elem_of_fmap in Hin as [[k' v] [-> Hin]].
    apply elem_of_map_to_list in Hin. simpl. eauto.
  - intros [v Hv]. apply list_elem_of_fmap. exists (k, v). split; [reflexivity|].
    now apply elem_of_map_to_list.
Qed.

Lemma elem_of_rows {V : Type} (m : gmap string V) (v : V) :
  v ∈ map snd (map_to_list m) <-> exists k, m !! k = Some v.
Proof.
  split.
  - intros Hin. apply list_elem_of_fmap in Hin as [[k v'] [-> Hin]].
    apply elem_of_map_to_list in Hin. simpl. eauto.
  - intros [k Hv]. apply list_elem_of_fmap. exists (k, v). split; [reflexivity|].
    now apply elem_of_map_to_list.
Qed.

(** What [stopAllStreams] leaves behind, job by job. *)
Lemma stopAllStreams_lookup (now : Z) (st : Orch) (k : string) :
  (forall k j, stream_queue (db st) !! k = Some j -> id j = k) ->
  let st' := stopAllStreams now st in
  activeStreams st' !! k = signalled <$> activeStreams st !! k
  /\ stream_queue (db st') !! k
     = (fun j => match activeStreams st !! k with
                 | Some _ => jobWithStatus Stopping j
                 | None => if isStuck j then jobWithStatus Stopped j else j
                 end) <$> stream_queue (db st) !! k.
Proof.
  intros Hwf st'. subst st'. unfold stopAllStreams.
  set (st1 := fold_left (fun acc jobId => stopStream now jobId acc)
                (map fst (map_to_list (activeStreams st))) st).
  assert (H1 : forall k',
            activeStreams st1 !! k' = signalled <$> activeStreams st !! k'
            /\ stream_queue (db st1) !! k'
               = match activeStreams st !! k' with
                 | Some _ => jobWithStatus Stopping <$> stream_queue (db st) !! k'
                 | None => stream_queue (db st) !! k'
                 end).
  { intros k'.
    destruct (stopEach now (map fst (map_to_list (activeStreams st))) st k') as [Hin Hout].
    fold st1 in Hin, Hout.
    destruct (activeStreams st !! k') as [c|] eqn:E.
    - apply Hin. apply elem_of_keys. rewrite E. eauto.
    - destruct Hout as [Hs Hq]; [|split; [rewrite Hs; reflexivity|exact Hq]].
      rewrite elem_of_keys, E. intros [? ?]. discriminate. }
  assert (Hwf1 : forall k' j, stream_queue (db st1) !! k' = Some j -> id j = k').
  { intros k' j. rewrite (proj2 (H1 k')).
    destruct (activeStreams st !! k'); [|apply Hwf].
    destruct (stream_queue (db st) !! k') as [j0|] eqn:E; [|discriminate].
    intros [= <-]. simpl. now apply Hwf. }
  set (stuck := filter (fun j => isStuck j) (map snd (map_to_list (stream_queue (db st1))))).
  destruct (stopStuck now stuck st1 k) as [Hs Hq]. cbv zeta in Hs, Hq.
  rewrite Hs, Hq. clear Hs Hq. destruct (H1 k) as [Hs1 Hq1]. rewrite Hs1, Hq1.
  split; [reflexivity|].
  destruct (activeStreams st !! k) as [c|] eqn:E.
  - rewrite decide_False by (intros [_ Hn]; discriminate).
    destruct (stream_queue (db st) !! k); reflexivity.
  - destruct (stream_queue (db st) !! k) as [j|] eqn:Ej; [|case_decide; reflexivity].
    destruct (isStuck j) eqn:Est.
    + rewrite decide_True; [simpl; rewrite Est; reflexivity|]. split; [|reflexivity].
      apply list_elem_of_fmap. exists j. split; [symmetry; now apply Hwf|].
      apply list_elem_of_filter. split; [now apply Is_true_true|].
      apply elem_of_rows. exists k. exact Hq1.
    + rewrite decide_False; [simpl; rewrite Est; reflexivity|]. intros [Hin _].
      apply list_elem_of_fmap in Hin as [j' [Hid Hin]].
      apply list_elem_of_filter in Hin as [Hst Hin].
      apply elem_of_rows in Hin as [k' Hk'].
      pose proof (Hwf1 _ _ Hk') as Hid'.
      assert (k' = k) by congruence. subst k'.
      rewrite <- Hid, Hq1 in Hk'. injection Hk' as <-. apply Is_true_true in Hst. congruence.
Qed.

(** X14. [stopAllStreams], on a store whose queue rows are keyed by their id:
    every supervised process is signalled and stays in the supervision table;
    the job of a supervised process becomes [stopping]; a job that the store
    shows as live or stopping without a process becomes [stopped]; every
    other row is left as it was. Afterwards no job is [live], and a job is
    [stopping] only if a process is supervised for it. *)
Theorem X14_stop_all_streams (now : Z) (st : Orch) :
  (forall k j, stream_queue (db st) !! k = Some j -> id j = k) ->
  let st' := stopAllStreams now st in
  activeStreams st' = signalled <$> activeStreams st
  /\ (forall k, stream_queue (db st') !! k
                = (fun j => match activeStreams st !! k with
                            | Some _ => jobWithStatus Stopping j
                            | None => if isStuck j then jobWithStatus Stopped j else j
                            end) <$> stream_queue (db st) !! k)
  /\ (forall k c, activeStreams st' !! k = Some c -> sigterm c = true)
  /\ (forall k j, stream_queue (db st') !! k = Some j ->
        status j <> Live /\ (status j = Stopping -> is_Some (activeStreams st !! k))).
Proof.
  intros Hwf st'.
  assert (Hs : activeStreams st' = signalled <$> activeStreams st).
  { apply map_eq. intros k. rewrite lookup_fmap.
    apply (stopAllStreams_lookup now st k Hwf). }
  assert (Hq : forall k, stream_queue (db st') !! k
                = (fun j => match activeStreams st !! k with
                            | Some _ => jobWithStatus Stopping j
                            | None => if isStuck j then jobWithStatus Stopped j else j
                            end) <$> stream_queue (db st) !! k).
  { intros k. apply (stopAllStreams_lookup now st k Hwf). }
  split; [exact Hs|]. split; [exact Hq|]. split.
  - intros k c. rewrite Hs, lookup_fmap.
    destruct (activeStreams st !! k); [|discriminate]. intros [= <-]. reflexivity.
  - intros k j. rewrite Hq.
    destruct (stream_queue (db st) !! k) as [j0|]; [|discriminate].
    destruct (activeStreams st !! k) as [c|].
    + intros [= <-]. split; [discriminate|]. eauto.
    + unfold isStuck. destruct (status j0) eqn:Est; intros [= <-]; simpl;
        rewrite ?Est; (split; [discriminate|intros Hx; discriminate Hx]).
Qed.

(** X15. [system:reset-streams] while processes are supervised: the queue and
    the sessions are emptied, but every process stays in the supervision
    table, merely signalled, so it still occupies its slot; and when such a
    process exits, whatever the code, the exit handler finds no job row and
    throws after removing the supervision entry, writing nothing. *)
Theorem X15_reset_streams_then_exit (now now' : Z) (st : Orch) (job : StreamJob)
  (videoIndex : Z) (code : option Z) :
  (forall k j, stream_queue (db st) !! k = Some j -> id j = k) ->
  let st' := Ipc.resetStreams now st in
  stream_queue (db st') = ∅
  /\ stream_sessions (db st') = []
  /\ activeStreams st' = signalled <$> activeStreams st
  /\ size (activeStreams st') = size (activeStreams st)
  /\ onClose now' job videoIndex code st' = (withStreams (delete (id job)) st', HandlerThrew)
  /\ (forall t, processQueue t st' = []).
Proof.
  intros Hwf st'.
  assert (Hs : activeStreams st' = signalled <$> activeStreams st).
  { apply map_eq. intros k. rewrite lookup_fmap.
    apply (stopAllStreams_lookup now st k Hwf). }
  split; [reflexivity|]. split; [reflexivity|]. split; [exact Hs|].
  split; [rewrite Hs; apply map_size_fmap|]. split.
  - unfold onClose. cbn [withStreams db].
    change (stream_queue (db st')) with (∅ : gmap string StreamJob).
    rewrite lookup_empty. reflexivity.
  - intros t. unfold processQueue.
    change (stream_queue (db st')) with (∅ : gmap string StreamJob).
    rewrite map_to_list_empty.
    destruct (maxConcurrent <=? size (activeStreams st'))%nat; [reflexivity|].
    apply take_nil.
Qed.

End StopAll.

Lemma X14_stop_all_witness :
  let j := Examples.job Live 1 None None in
  stream_queue (db (stopAllStreams 100 (Examples.idle (Examples.store j [])))) !! "job1"
  = Some (jobWithStatus Stopped j).
Proof.
  intros j.
  refine (proj1 (proj2 (X14_stop_all_streams 100 (Examples.idle (Examples.store j [])) _))
            "job1").
  intros k j0 Hk. change (({[ "job1" := j ]} : gmap string StreamJob) !! k = Some j0) in Hk.
    apply lookup_singleton_Some in Hk as [<- <-]. reflexivity.
Defined.

Lemma X15_reset_streams_witness :
  let j := Examples.job Live 1 None None in
  let st' := Ipc.resetStreams 100 (Examples.supervised (Examples.store j [])) in
  size (activeStreams st') = 1%nat
  /\ onClose 101 j 0 None st' = (withStreams (delete "job1") st', HandlerThrew).
Proof.
  intros j st'.
  destruct (X15_reset_streams_then_exit 100 101 (Examples.supervised (Examples.store j []))
              j 0 None) as (_ & _ & _ & Hsz & Hc & _).
  - intros k j0 Hk. change (({[ "job1" := j ]} : gmap string StreamJob) !! k = Some j0) in Hk.
    apply lookup_singleton_Some in Hk as [<- <-]. reflexivity.
  - split; [|exact Hc]. subst st'. rewrite Hsz. apply map_size_singleton.
Defined.

Section Admission.

Lemma jobBefore_spec (a b : StreamJob) :
  jobBefore a b = true
  <-> (priority b < priority a)%Z
      \/ (priority a = priority b /\ created_at a <= created_at b)%Z.
Proof.
  unfold jobBefore. rewrite orb_true_iff, andb_true_iff.
  rewrite Z.ltb_lt, Z.eqb_eq, Z.leb_le. reflexivity.
Qed.

#[local] Instance jobBefore_total : Total (fun a b : StreamJob => Is_true (jobBefore a b)).
Proof.
  intros a b. rewrite !Is_true_true, !jobBefore_spec. lia.
Qed.

#[local] Instance jobBefore_trans : Transitive (fun a b : StreamJob => Is_true (jobBefore a b)).
Proof.
  intros a b c. rewrite !Is_true_true, !jobBefore_spec. lia.
Qed.

(** X16. The admission query: the jobs handed to the start sequence are
    rows of the queue that pass the admission test, in the order of the
    query (higher priority first, earlier creation first among equals); their
    number is the smaller of the free slots and the number of admissible
    rows; and no admissible row is left out in favour of one that the order
    puts behind it. *)
Theorem X16_admission_order (now : Z) (st : Orch) :
  let rows := map snd (map_to_list (stream_queue (db st))) in
  let chosen := processQueue now st in
  StronglySorted (fun a b => jobBefore a b) chosen
  /\ length chosen
     = Nat.min (maxConcurrent - size (activeStreams st))
         (length (filter (fun j => admissible now j) rows))
  /\ (forall j : StreamJob, j ∈ chosen -> j ∈ rows /\ admissible now j = true)
  /\ (forall j j' : StreamJob,
        j' ∈ chosen -> j ∈ rows -> admissible now j = true -> j ∉ chosen ->
        (priority j < priority j')%Z
        \/ (priority j' = priority j /\ created_at j' <= created_at j)%Z).
Proof.
  intros rows chosen. subst chosen. unfold processQueue. fold rows.
  set (R := fun a b : StreamJob => Is_true (jobBefore a b)).
  set (cands := filter (fun j => admissible now j) rows).
  set (sorted := merge_sort _ cands).
  assert (Hsorted : StronglySorted R sorted) by apply (StronglySorted_merge_sort R).
  assert (Hperm : sorted ≡ₚ cands) by apply (merge_sort_Permutation R).
  destruct (Nat.leb_spec maxConcurrent (size (activeStreams st))) as [Hfull|Hfree].
  { split; [constructor|]. split; [|split].
    - replace (maxConcurrent - size (activeStreams st))%nat with 0%nat by lia. reflexivity.
    - intros j Hj. inversion Hj.
    - intros j j' Hj'. inversion Hj'. }
  set (n := (maxConcurrent - size (activeStreams st))%nat).
  assert (Hsplit : take n sorted ++ drop n sorted = sorted) by apply take_drop.
  split; [|split; [|split]].
  - rewrite <- Hsplit in Hsorted. now apply StronglySorted_app_1_l in Hsorted.
  - rewrite length_take. rewrite (Permutation_length Hperm). reflexivity.
  - intros j Hj. apply subseteq_take in Hj. rewrite Hperm in Hj.
    apply list_elem_of_filter in Hj as [Hadm Hrow]. split; [exact Hrow|].
    now apply Is_true_true.
  - intros j j' Hj' Hrow Hadm Hout.
    assert (Hin : j ∈ sorted).
    { rewrite Hperm. apply list_elem_of_filter. split; [now apply Is_true_true|exact Hrow]. }
    rewrite <- Hsplit in Hin. apply elem_of_app in Hin as [Hin|Hin]; [contradiction|].
    rewrite <- Hsplit in Hsorted.
    pose proof (StronglySorted_app_1_elem_of R _ _ j' j Hsorted Hj' Hin) as Hb.
    apply Is_true_true in Hb. apply jobBefore_spec in Hb. exact Hb.
Qed.

(** X17. [stream:restart] puts the job back as [queued], due at once, and
    keeps its recovery counter: a job whose counter is below the maximum
    passes the admission test from then on, while a job that had used up its
    attempts is queued but is never handed to the start sequence, whatever
    the time and the load. *)
Theorem X17_restart_keeps_counter (now : Z) (jobId : string) (st : Orch) (j : StreamJob) :
  stream_queue (db st) !! jobId = Some j ->
  let st' := Ipc.streamRestart now jobId st in
  stream_queue (db st') !! jobId = Some (Ipc.jobRequeued now j)
  /\ status (Ipc.jobRequeued now j) = Queued
  /\ recovery_attempts (Ipc.jobRequeued now j) = recovery_attempts j
  /\ (forall t, (now <= t)%Z ->
        admissible t (Ipc.jobRequeued now j)
        = (default 0 (recovery_attempts j) <? MAX_RECOVERY_ATTEMPTS)%Z)
  /\ ((MAX_RECOVERY_ATTEMPTS <= default 0 (recovery_attempts j))%Z ->
      forall t st2, Ipc.jobRequeued now j ∉ processQueue t st2).
Proof.
  intros Hj st'. split; [|split; [reflexivity|split; [reflexivity|split]]].
  - subst st'. unfold Ipc.streamRestart. simpl. rewrite lookup_alter.
    rewrite decide_True by reflexivity. rewrite Hj. reflexivity.
  - intros t Ht. unfold admissible. cbn [Ipc.jobRequeued status scheduled_time recovery_attempts].
    destruct (Z.leb_spec now t); [reflexivity|lia].
  - intros Hmax t st2 Hin. apply processQueue_admissible in Hin.
    unfold admissible in Hin. cbn [Ipc.jobRequeued recovery_attempts] in Hin.
    apply andb_true_iff in Hin as [_ Hin]. apply Z.ltb_lt in Hin. lia.
Qed.

End Admission.

Lemma X17_restart_witness :
  let j := Examples.job Failed 1 None (Some 3%Z) in
  stream_queue (db (Ipc.streamRestart 100 "job1" (Examples.idle (Examples.store j [])))) !! "job1"
  = Some (Ipc.jobRequeued 100 j)
  /\ admissible 200 (Ipc.jobRequeued 100 j) = false.
Proof.
  intros j.
  destruct (X17_restart_keeps_counter 100 "job1" (Examples.idle (Examples.store j [])) j
              eq_refl) as (Hq & _ & _ & Ha & _).
  split; [exact Hq|]. rewrite Ha by lia. reflexivity.
Defined.

Section StartSequence.
Context `{JsNumber} `{Vault}.

Lemma currentVideoId_playlist (job : StreamJob) (i : Z) (l : list string) :
  playlist job = Some l -> l <> [] -> (0 <= i)%Z ->
  currentVideoId job i = l !! (Z.to_nat i mod length l)%nat
  /\ (exists v, currentVideoId job i = Some v /\ v ∈ l)
  /\ currentVideoId job (i + Z.of_nat (length l)) = currentVideoId job i.
Proof.
  unfold currentVideoId. intros -> Hne Hi.
  assert (Hlen : (0 < length l)%nat) by (destruct l; [congruence|simpl; lia]).
  destruct (Nat.eqb_spec (length l) 0) as [Hz|_]; [lia|].
  assert (Hrem : forall z, (0 <= z)%Z ->
            Z.rem z (Z.of_nat (length l)) = (z mod Z.of_nat (length l))%Z).
  { intros z Hz. apply Z.rem_mod_nonneg; lia. }
  assert (Hsel : forall z, (0 <= z)%Z ->
            (if (Z.rem z (Z.of_nat (length l)) <? 0)%Z then None
             else l !! Z.to_nat (Z.rem z (Z.of_nat (length l))))
            = l !! (Z.to_nat z mod length l)%nat).
  { intros z Hz. rewrite (Hrem z Hz).
    pose proof (Z.mod_pos_bound z (Z.of_nat (length l)) ltac:(lia)) as Hb.
    destruct (Z.ltb_spec (z mod Z.of_nat (length l)) 0); [lia|].
    f_equal. apply Nat2Z.inj. rewrite Nat2Z.inj_mod, !Z2Nat.id by lia. reflexivity. }
  rewrite !Hsel by lia. split; [reflexivity|]. split.
  - destruct (lookup_lt_is_Some_2 l (Z.to_nat i mod length l)%nat) as [v Hv].
    { apply Nat.mod_upper_bound. lia. }
    exists v. split; [exact Hv|]. eapply list_elem_of_lookup_2, Hv.
  - f_equal. rewrite Z2Nat.inj_add, Nat2Z.id by lia.
    rewrite <- (Nat.Div0.add_mod_idemp_r _ (length l)), Nat.Div0.mod_same, Nat.add_0_r.
    reflexivity.
Qed.

(** X18. The content of a start: without a playlist it is the job's own
    video at every index; with a playlist it is the entry at the index
    modulo the length, so always an entry of the playlist and the same entry
    again one playlist length later, and the job's own video is not
    consulted; with an empty playlist the index selects no video. *)
Theorem X18_playlist_selection (job : StreamJob) (i : Z) :
  (playlist job = None -> currentVideoId job i = Some (job_video_id job))
  /\ (playlist job = Some [] -> currentVideoId job i = None)
  /\ (forall l, playlist job = Some l -> l <> [] -> (0 <= i)%Z ->
        currentVideoId job i = l !! (Z.to_nat i mod length l)%nat
        /\ (exists v, currentVideoId job i = Some v /\ v ∈ l)
        /\ currentVideoId job (i + Z.of_nat (length l)) = currentVideoId job i).
Proof.
  split; [|split].
  - unfold currentVideoId. intros ->. reflexivity.
  - unfold currentVideoId. intros ->. reflexivity.
  - intros l. apply currentVideoId_playlist.
Qed.



(** The start sequence ends either in its catch block or in the launch, on
    a state that differs from the given one in the job's status and in the
    stored credentials only; a launch is that of the content at the index on
    the broadcast of step 2: the stored one, or the one just created. *)
Lemma startStream_cases env job videoIndex st :
  exists st1 reqs,
    activeStreams st1 = activeStreams st
    /\ stream_sessions (db st1) = stream_sessions (db st)
    /\ stream_queue (db st1) = alter (jobWithStatus Starting) (id job) (stream_queue (db st))
    /\ ((exists e, startStream env job videoIndex st = startFailed env job e reqs st1)
        \/ (exists video live vod url,
              currentVideoId job videoIndex ≫= (fun vid => videos (db st) !! vid) = Some video
              /\ match resolveBroadcast job videoIndex video (db st) with
                 | Reuse s => live = live_video_id s /\ vod = None /\ url = stream_url s
                 | Create title description =>
                     exists fb,
                       rc_result (withTokenRecovery (remote env) (job_page_id job)
                                    (createLiveVideo (remote env) (job_page_id job)
                                       title description)
                                    (updateJobStatus (id job) Starting (db st))) = Ok fb
                       /\ live = Some (lv_id fb) /\ vod = lv_video_id fb
                       /\ url = Some (lv_stream_url fb)
                 end
              /\ startStream env job videoIndex st
                 = launch env job videoIndex video live vod url reqs st1)).
Proof.
  unfold startStream.
  set (st0 := withDb (updateJobStatus (id job) Starting) st).
  change (videos (db st0)) with (videos (db st)).
  assert (Hfail : forall e,
    exists st1 reqs,
      activeStreams st1 = activeStreams st
      /\ stream_sessions (db st1) = stream_sessions (db st)
      /\ stream_queue (db st1) = alter (jobWithStatus Starting) (id job) (stream_queue (db st))
      /\ ((exists e', startFailed env job e [] st0 = startFailed env job e' reqs st1)
          \/ (exists video live vod url,
                currentVideoId job videoIndex ≫= (fun vid => videos (db st) !! vid) = Some video
                /\ match resolveBroadcast job videoIndex video (db st) with
                   | Reuse s => live = live_video_id s /\ vod = None /\ url = stream_url s
                   | Create title description =>
                       exists fb,
                         rc_result (withTokenRecovery (remote env) (job_page_id job)
                                      (createLiveVideo (remote env) (job_page_id job)
                                         title description)
                                      (updateJobStatus (id job) Starting (db st))) = Ok fb
                         /\ live = Some (lv_id fb) /\ vod = lv_video_id fb
                         /\ url = Some (lv_stream_url fb)
                   end
                /\ startFailed env job e [] st0
                   = launch env job videoIndex video live vod url reqs st1))).
  { intros e. exists st0, []. repeat (split; [reflexivity|]). left. eauto. }
  destruct (pages (db st0) !! job_page_id job); [|apply Hfail].
  destruct (currentVideoId job videoIndex ≫= _) as [video|] eqn:Hvid; [|apply Hfail].
  destruct (settings (db st0) !! "app_id"); [|apply Hfail].
  destruct (settings (db st0) !! "app_secret"); [|apply Hfail].
  change (resolveBroadcast job videoIndex video (db st0))
    with (resolveBroadcast job videoIndex video (db st)).
  destruct (resolveBroadcast job videoIndex video (db st)) as [sess|title description] eqn:Hbc.
  - exists st0, []. repeat (split; [reflexivity|]). right.
    exists video, (live_video_id sess), None, (stream_url sess).
    split; [reflexivity|]. rewrite Hbc. repeat split; reflexivity.
  - set (r := withTokenRecovery _ _ _ _).
    exists (withDb (fun _ => rc_db r) st0),
           (createRequests (job_page_id job) title description (rc_calls r)).
    split; [reflexivity|].
    destruct (withTokenRecovery_queue (remote env) (job_page_id job)
                (createLiveVideo (remote env) (job_page_id job) title description) (db st0))
      as [Hq Hs].
    fold r in Hq, Hs. cbn [withDb db]. split; [exact Hs|]. split; [exact Hq|].
    destruct (rc_result r) as [fb|e] eqn:Hres; [right|left; eauto].
    exists video, (Some (lv_id fb)), (lv_video_id fb), (Some (lv_stream_url fb)).
    split; [reflexivity|]. rewrite Hbc. split; [|reflexivity].
    exists fb. split; [exact Hres|]. repeat split; reflexivity.
Qed.


(** X19. A start that finds a component missing (the destination, the
    content at the index, or one of the two application settings) sends
    nothing to the platform and spawns nothing; if the job row exists it
    ends [failed] with a session row recording [Missing stream components],
    and otherwise the catch block itself fails on the foreign key. *)
Theorem X19_missing_components (env : Env) (job : StreamJob) (videoIndex : Z) (st : Orch) :
  pages (db st) !! job_page_id job = None
  \/ currentVideoId job videoIndex ≫= (fun vid => videos (db st) !! vid) = None
  \/ settings (db st) !! "app_id" = None
  \/ settings (db st) !! "app_secret" = None ->
  let r := startStream env job videoIndex st in
  sr_requests r = []
  /\ activeStreams (sr_state r) = activeStreams st
  /\ pages (db (sr_state r)) = pages (db st)
  /\ (forall j, stream_queue (db st) !! id job = Some j ->
        sr_outcome r = Aborted (mkError "Missing stream components")
        /\ stream_queue (db (sr_state r)) !! id job = Some (jobWithStatus Failed j)
        /\ failedSession (id job) "Missing stream components" (now env)
             ∈ stream_sessions (db (sr_state r)))
  /\ (stream_queue (db st) !! id job = None ->
        sr_outcome r = Rejected (mkError "FOREIGN KEY constraint failed")
        /\ stream_sessions (db (sr_state r)) = stream_sessions (db st)).
Proof.
  intros Hmiss r.
  set (st0 := withDb (updateJobStatus (id job) Starting) st).
  assert (Hr : r = startFailed env job (mkError "Missing stream components") [] st0).
  { subst r. unfold startStream. fold st0.
    change (pages (db st0)) with (pages (db st)).
    change (videos (db st0)) with (videos (db st)).
    change (settings (db st0)) with (settings (db st)).
    destruct Hmiss as [Hm|[Hm|[Hm|Hm]]]; rewrite Hm;
      repeat match goal with
             | |- context [match ?x with Some _ => _ | None => _ end] => destruct x
             end; reflexivity. }
  rewrite Hr. split; [apply startFailed_requests|].
  split; [rewrite startFailed_streams; reflexivity|].
  assert (Hq0 : stream_queue (updateJobStatus (id job) Failed (db st0)) !! id job
                = jobWithStatus Failed <$> stream_queue (db st) !! id job).
  { rewrite lookup_updateJobStatus, decide_True by reflexivity.
    subst st0. cbn [withDb db]. rewrite lookup_updateJobStatus, decide_True by reflexivity.
    destruct (stream_queue (db st) !! id job); reflexivity. }
  unfold startFailed, insertOrReplaceSession.
  cbn [failedSession s_job_id]. rewrite Hq0.
  destruct (stream_queue (db st) !! id job) as [j0|]; cbn [fmap option_fmap option_map];
    cbn [sr_state sr_outcome withDb db].
  - split; [reflexivity|]. split; [|intros Hn; discriminate].
    intros j [= <-]. split; [reflexivity|]. split.
    + cbn [setSessions stream_queue]. rewrite Hq0. reflexivity.
    + cbn [setSessions stream_sessions]. apply elem_of_app. right. apply list_elem_of_here.
  - split; [reflexivity|]. split; [intros j Hj; discriminate|].
    intros _. split; reflexivity.
Qed.

End StartSequence.

Section RecoveryFacts.
Context `{Vault}.

Lemma recovery_db_cases {A : Type} (remote : Remote) (pageId : string) (action : Action A)
  (d : Db) :
  let r := withTokenRecovery remote pageId action d in
  (rc_db r = d /\ (length (rc_calls r) <= 1)%nat)
  \/ (exists page token e user batch,
        pages d !! pageId = Some page
        /\ decrypt (access_token_encrypted page) (access_token_nonce page)
             (access_token_tag page) = Ok token
        /\ action O token = Throw e /\ isExpired e = true
        /\ syncPageTokens remote user = Ok batch
        /\ rc_db r = fst (fold_left (storeFresh pageId) batch (d, ""))).
Proof.
  cbv zeta. unfold withTokenRecovery.
  destruct (pages d !! pageId) as [page|]; [|left; split; [reflexivity|simpl; lia]].
  destruct (decrypt _ _ _) as [token|de] eqn:Htok; [|left; split; [reflexivity|simpl; lia]].
  destruct (action O token) as [a|e] eqn:Hact; [left; split; [reflexivity|simpl; lia]|].
  destruct (isExpired e) eqn:Hexp; [|left; split; [reflexivity|simpl; lia]].
  destruct (settings d !! "app_id"); [|left; split; [reflexivity|simpl; lia]].
  destruct (settings d !! "app_secret"); [|left; split; [reflexivity|simpl; lia]].
  destruct (settings d !! "user_token_encrypted") as [encToken|];
    [|left; split; [reflexivity|simpl; lia]].
  destruct (settings d !! "user_token_nonce") as [n|]; [|left; split; [reflexivity|simpl; lia]].
  destruct (settings d !! "user_token_tag") as [t|]; [|left; split; [reflexivity|simpl; lia]].
  destruct (decrypt encToken n t) as [user|de]; [|left; split; [reflexivity|simpl; lia]].
  destruct (syncPageTokens remote user) as [batch|se] eqn:Hsync;
    [|left; split; [reflexivity|simpl; lia]].
  right. exists page, token, e, user, batch.
  do 5 (split; [first [reflexivity|assumption]|]).
  destruct (fold_left (storeFresh pageId) batch (d, "")) as [d' newToken].
  destruct (truthy newToken); [destruct (action 1%nat newToken)|]; reflexivity.
Qed.

(** X22. No recovery without an expiry: when the destination is unknown or
    its credential cannot be decrypted, the callback is not invoked at all;
    when the first invocation succeeds, or fails with an error that does not
    carry one of the two expiry messages, its outcome is returned after that
    single invocation and the store is not written. A changed store or a
    second invocation therefore implies an expiry error on the first
    invocation and a completed credential refresh. *)
Theorem X22_recovery_only_when_expired {A : Type} (remote : Remote) (pageId : string)
  (action : Action A) (d : Db) :
  let r := withTokenRecovery remote pageId action d in
  (pages d !! pageId = None ->
     rc_calls r = [] /\ rc_db r = d
     /\ rc_result r = Throw (mkError ("Page " +:+ pageId +:+ " not found in database")))
  /\ (forall page de,
        pages d !! pageId = Some page ->
        decrypt (access_token_encrypted page) (access_token_nonce page)
          (access_token_tag page) = Throw de ->
        rc_calls r = [] /\ rc_db r = d /\ rc_result r = Throw de)
  /\ (forall page token,
        pages d !! pageId = Some page ->
        decrypt (access_token_encrypted page) (access_token_nonce page)
          (access_token_tag page) = Ok token ->
        (forall e, action O token = Throw e -> isExpired e = false) ->
        r = {| rc_db := d; rc_result := action O token; rc_calls := [token] |})
  /\ (rc_db r <> d \/ length (rc_calls r) = 2%nat ->
      exists page token e user batch,
        pages d !! pageId = Some page
        /\ decrypt (access_token_encrypted page) (access_token_nonce page)
             (access_token_tag page) = Ok token
        /\ action O token = Throw e /\ isExpired e = true
        /\ syncPageTokens remote user = Ok batch).
Proof.
  intros r. split; [|split; [|split]].
  - intros Hp. subst r. unfold withTokenRecovery. rewrite Hp. repeat split; reflexivity.
  - intros page de Hp Hd. subst r. unfold withTokenRecovery. rewrite Hp, Hd.
    repeat split; reflexivity.
  - intros page token Hp Hd Hne. subst r. unfold withTokenRecovery. rewrite Hp, Hd.
    destruct (action O token) as [a|e]; [reflexivity|].
    rewrite (Hne e eq_refl). reflexivity.
  - intros Hch.
    destruct (recovery_db_cases remote pageId action d)
      as [[Hd Hl]|(page & token & e & user & batch & Hp & Ht & Ha & He & Hs & _)].
    + fold r in Hd, Hl. destruct Hch as [Hch|Hch]; [contradiction|lia].
    + exists page, token, e, user, batch. repeat split; assumption.
Qed.

(** X23. What a wrapped call can write: only the three credential columns
    of rows of [pages] that already exist. The settings, the videos, the
    editing profiles, the queue and the sessions are unchanged; no
    destination is added or removed and none changes its name; and a changed
    row holds the sealed form of the credential that the batch returned by
    the account-level refresh holds for that destination. *)
Theorem X23_recovery_frame {A : Type} (remote : Remote) (pageId : string)
  (action : Action A) (d : Db) :
  let d' := rc_db (withTokenRecovery remote pageId action d) in
  settings d' = settings d /\ videos d' = videos d
  /\ editing_profiles d' = editing_profiles d
  /\ stream_queue d' = stream_queue d /\ stream_sessions d' = stream_sessions d
  /\ (forall pid, is_Some (pages d' !! pid) <-> is_Some (pages d !! pid))
  /\ (forall pid, page_name <$> pages d' !! pid = page_name <$> pages d !! pid)
  /\ (forall pid p', pages d' !! pid = Some p' ->
        pages d !! pid = Some p'
        \/ exists p t user batch,
             pages d !! pid = Some p /\ p' = pageWithToken (encrypt t) p
             /\ syncPageTokens remote user = Ok batch
             /\ Spec.refreshedToken pid batch = Some t).
Proof.
  intros d'. subst d'.
  destruct (recovery_db_cases remote pageId action d)
    as [[-> _]|(page & token & e & user & batch & _ & _ & _ & _ & Hsync & ->)].
  { do 5 (split; [reflexivity|]). split; [tauto|]. split; [reflexivity|]. intros; tauto. }
  pose proof (storeFresh_fold pageId batch d "") as Hf.
  destruct (fold_left (storeFresh pageId) batch (d, "")) as [d' tok].
  destruct Hf as (Hp & _ & Hs & Hq & Hss & Hv & He). cbn [fst].
  split; [exact Hs|]. split; [exact Hv|]. split; [exact He|]. split; [exact Hq|].
  split; [exact Hss|]. split; [|split].
  - intros pid. rewrite Hp. destruct (Spec.refreshedToken pid batch); [|tauto].
    apply fmap_is_Some.
  - intros pid. rewrite Hp. destruct (Spec.refreshedToken pid batch); [|reflexivity].
    destruct (pages d !! pid); reflexivity.
  - intros pid p'. rewrite Hp.
    destruct (Spec.refreshedToken pid batch) as [t|] eqn:Ht; [|tauto].
    destruct (pages d !! pid) as [p|]; [|discriminate].
    intros [= <-]. right. exists p, t, user, batch. auto.
Qed.

End RecoveryFacts.

Section StartRefused.
Context `{JsNumber} `{Vault}.

(** X21. A start whose broadcast request is refused for a reason other than
    an expired credential: exactly one request is sent, with the stored
    credential; no credential is refreshed and no process is spawned; the
    job becomes [failed] and a session row with the job's id records the
    error text. *)
Theorem X21_broadcast_refused (env : Env) (job : StreamJob) (videoIndex : Z) (st : Orch)
  (pg : Page) (video : Video) (appId appSecret token title description : string)
  (e : Error) (j : StreamJob) :
  pages (db st) !! job_page_id job = Some pg ->
  currentVideoId job videoIndex ≫= (fun vid => videos (db st) !! vid) = Some video ->
  settings (db st) !! "app_id" = Some appId ->
  settings (db st) !! "app_secret" = Some appSecret ->
  resolveBroadcast job videoIndex video (db st) = Create title description ->
  decrypt (access_token_encrypted pg) (access_token_nonce pg) (access_token_tag pg)
  = Ok token ->
  createLiveVideo (remote env) (job_page_id job) title description O token = Throw e ->
  isExpired e = false ->
  stream_queue (db st) !! id job = Some j ->
  let r := startStream env job videoIndex st in
  sr_requests r = [ReqCreateLiveVideo (job_page_id job) token title description]
  /\ sr_outcome r = Aborted e
  /\ activeStreams (sr_state r) = activeStreams st
  /\ pages (db (sr_state r)) = pages (db st)
  /\ stream_queue (db (sr_state r)) !! id job = Some (jobWithStatus Failed j)
  /\ failedSession (id job) (errorText e) (now env) ∈ stream_sessions (db (sr_state r)).
Proof.
  intros Hpg Hvid Happ Hsec Hbc Htok Hcall Hexp Hj r.
  set (st0 := withDb (updateJobStatus (id job) Starting) st).
  set (rr := withTokenRecovery (remote env) (job_page_id job)
               (createLiveVideo (remote env) (job_page_id job) title description) (db st0)).
  assert (Hrr : rr = {| rc_db := db st0; rc_result := Throw e; rc_calls := [token] |}).
  { subst rr. unfold withTokenRecovery.
    change (pages (db st0)) with (pages (db st)). rewrite Hpg, Htok, Hcall, Hexp.
    reflexivity. }
  assert (Hr : r = startFailed env job e
                     [ReqCreateLiveVideo (job_page_id job) token title description] st0).
  { subst r. unfold startStream. fold st0.
    change (pages (db st0)) with (pages (db st)).
    change (videos (db st0)) with (videos (db st)).
    change (settings (db st0)) with (settings (db st)).
    rewrite Hpg, Hvid, Happ, Hsec.
    change (resolveBroadcast job videoIndex video (db st0))
      with (resolveBroadcast job videoIndex video (db st)).
    rewrite Hbc. fold rr. rewrite Hrr. cbn [rc_result rc_calls rc_db createRequests map].
    reflexivity. }
  assert (Hj0 : stream_queue (db st0) !! id job = Some (jobWithStatus Starting j)).
  { subst st0. cbn [withDb db]. rewrite lookup_updateJobStatus, decide_True by reflexivity.
    rewrite Hj. reflexivity. }
  rewrite Hr. split; [apply startFailed_requests|].
  destruct (startFailed_records env job e
              [ReqCreateLiveVideo (job_page_id job) token title description] st0 _ Hj0)
    as (Ho & Hs & Hf).
  split; [exact Ho|]. split; [rewrite startFailed_streams; reflexivity|].
  assert (Hq1 : stream_queue (updateJobStatus (id job) Failed (db st0)) !! id job
                = Some (jobWithStatus Failed j)).
  { rewrite lookup_updateJobStatus, decide_True by reflexivity. rewrite Hj0. reflexivity. }
  split; [|split; [|exact Hf]].
  - unfold startFailed, insertOrReplaceSession. cbn [failedSession s_job_id].
    rewrite Hq1. reflexivity.
  - unfold startFailed, insertOrReplaceSession. cbn [failedSession s_job_id].
    rewrite Hq1. cbn [sr_state withDb db setSessions stream_queue]. exact Hq1.
Qed.

End StartRefused.

Lemma X19_missing_components_witness :
  let j := Examples.job Queued 1 (Some ["v9"]) None in
  sr_outcome (@startStream exampleNumber Examples.plainVault
                (Examples.env Examples.platform (fun d => d)) j 0
                (Examples.idle (Examples.store j [])))
  = Aborted (mkError "Missing stream components").
Proof.
  intros j.
  destruct (@X19_missing_components exampleNumber Examples.plainVault
              (Examples.env Examples.platform (fun d => d)) j 0
              (Examples.idle (Examples.store j [])))
    as (_ & _ & _ & Hrow & _).
  - right. left. reflexivity.
  - exact (proj1 (Hrow j eq_refl)).
Defined.

Lemma X21_broadcast_refused_witness :
  let j := Examples.job Queued 1 None None in
  sr_requests (@startStream exampleNumber Examples.plainVault
                 (Examples.env Examples.offline (fun d => d)) j 0
                 (Examples.idle (Examples.store j [])))
  = [ReqCreateLiveVideo "page1" "stale1" "Live: a.mp4" "Bulk Streamer Live"].
Proof.
  intros j.
  exact (proj1 (@X21_broadcast_refused exampleNumber Examples.plainVault
                  (Examples.env Examples.offline (fun d => d)) j 0
                  (Examples.idle (Examples.store j []))
                  (Examples.page "stale1") {| filename := "a.mp4"; path := "/media/a.mp4" |}
                  "app" "secret" "stale1" "Live: a.mp4" "Bulk Streamer Live"
                  Examples.unreachable j
                  eq_refl eq_refl eq_refl eq_refl eq_refl eq_refl eq_refl eq_refl eq_refl)).
Defined.

Section ViewerPeak.
Context `{JsNumber} `{Vault}.
Import Invariants.

Lemma PeakUnset_update sel (f : Session -> Session) d :
  (forall s, peak_viewers s = None -> peak_viewers (f s) = None) ->
  PeakUnset d -> PeakUnset (updateSessions sel f d).
Proof.
  intros Hf Hd s Hs. apply elem_of_updateSessions in Hs as [s0 [Hs0 ->]].
  destruct (sel s0); [apply Hf|]; now apply Hd.
Qed.

Lemma PeakUnset_sessions d d' :
  stream_sessions d' = stream_sessions d -> PeakUnset d -> PeakUnset d'.
Proof. intros He Hd s Hs. rewrite He in Hs. now apply Hd. Qed.

Lemma PeakUnset_setPeak viewers s :
  peak_viewers s = None -> peak_viewers (setPeak viewers s) = None.
Proof. intros Hs. simpl. rewrite Hs. reflexivity. Qed.

Lemma stopStream_peak now k st :
  PeakUnset (db st) -> PeakUnset (db (stopStream now k st)).
Proof.
  intros Hd. unfold stopStream. cbn [withDb db activeStreams].
  destruct (activeStreams st !! k); cbn [withDb withStreams db].
  - exact Hd.
  - apply PeakUnset_update; [intros s Hs; exact Hs|]. exact Hd.
Qed.

Lemma stopAllStreams_peak now st :
  PeakUnset (db st) -> PeakUnset (db (stopAllStreams now st)).
Proof.
  intros Hd. unfold stopAllStreams.
  assert (H1 : forall l st0, PeakUnset (db st0) ->
            PeakUnset (db (fold_left (fun acc jobId => stopStream now jobId acc) l st0))).
  { induction l as [|a l IH]; intros st0 Hst0; [exact Hst0|].
    apply IH, stopStream_peak, Hst0. }
  assert (H2 : forall (l : list StreamJob) st0, PeakUnset (db st0) ->
            PeakUnset (db (fold_left (fun acc j => match activeStreams acc !! id j with
                                                   | Some _ => acc
                                                   | None => stopStream now (id j) acc
                                                   end) l st0))).
  { induction l as [|a l IH]; intros st0 Hst0; [exact Hst0|].
    apply IH. destruct (activeStreams st0 !! id a); [exact Hst0|]. apply stopStream_peak, Hst0. }
  apply H2, H1, Hd.
Qed.

Lemma onClose_peak now job videoIndex code st :
  PeakUnset (db st) -> PeakUnset (db (fst (onClose now job videoIndex code st))).
Proof.
  intros Hd.
  assert (Hfin : PeakUnset (finalizeStopped now (id job) (db st))).
  { apply PeakUnset_update; [intros s Hs; exact Hs|]. exact Hd. }
  unfold onClose. cbn [withStreams db].
  destruct (isStopping (stream_queue (db st) !! id job)); [exact Hfin|].
  destruct (stream_queue (db st) !! id job) as [cur|]; [|exact Hd].
  destruct code as [[| |]|];
    try (destruct (MAX_RECOVERY_ATTEMPTS <=? _)%Z; cbn [fst withDb db];
         (apply PeakUnset_update; [intros s Hs; exact Hs|]); exact Hd).
  destruct (match playlist cur with Some l => (1 <? Z.of_nat (length l))%Z | None => false end).
  - destruct (loop cur =? 2)%Z; [exact Hd|].
    destruct (videoIndex + 1 <? _)%Z; [exact Hd|].
    destruct (loop cur =? 1)%Z; [exact Hd|exact Hfin].
  - destruct (1 <=? loop cur)%Z; [exact Hd|exact Hfin].
Qed.

Lemma startFailed_peak env job e reqs st :
  PeakUnset (db st) -> PeakUnset (db (sr_state (startFailed env job e reqs st))).
Proof.
  intros Hd. unfold startFailed, insertOrReplaceSession.
  destruct (stream_queue _ !! _) as [row|]; cbn [sr_state withDb db]; [|exact Hd].
  intros s Hs. cbn [setSessions stream_sessions updateJobStatus setQueue] in Hs.
  apply elem_of_app in Hs as [Hs|Hs].
  - apply list_elem_of_filter in Hs as [_ Hs]. now apply Hd.
  - apply list_elem_of_singleton in Hs. subst s. reflexivity.
Qed.

Lemma launch_peak env job videoIndex video live vod url reqs st :
  (forall d, PeakUnset d -> PeakUnset (interleaved env d)) ->
  PeakUnset (db st) ->
  PeakUnset (db (sr_state (launch env job videoIndex video live vod url reqs st))).
Proof.
  intros Hi Hd. unfold launch.
  set (st2 := withStreams _ (withDb (interleaved env) st)).
  assert (H2 : PeakUnset (db st2)) by (apply Hi, Hd).
  destruct (videoIndex =? 0)%Z.
  - unfold insertSession. destruct (existsb _ _); [now apply startFailed_peak|].
    destruct (stream_queue _ !! _) as [row|]; [|now apply startFailed_peak].
    cbn [sr_state withDb db]. intros s Hs.
    cbn [setSessions stream_sessions updateJobStatus setQueue] in Hs.
    apply elem_of_app in Hs as [Hs|Hs]; [now apply H2|].
    apply list_elem_of_singleton in Hs. subst s. reflexivity.
  - cbn [sr_state withDb db]. eapply PeakUnset_sessions; [apply sessions_updateJobStatus|].
    apply PeakUnset_update; [intros s Hs; exact Hs|]. exact H2.
Qed.

Lemma startStream_peak env job videoIndex st :
  (forall d, PeakUnset d -> PeakUnset (interleaved env d)) ->
  PeakUnset (db st) -> PeakUnset (db (sr_state (startStream env job videoIndex st))).
Proof.
  intros Hi Hd.
  destruct (startStream_cases env job videoIndex st)
    as (st1 & reqs & _ & Hs & _ & [[e ->]|(video & live & vod & url & _ & _ & ->)]).
  - apply startFailed_peak. eapply PeakUnset_sessions; [exact Hs|exact Hd].
  - apply launch_peak; [exact Hi|]. eapply PeakUnset_sessions; [exact Hs|exact Hd].
Qed.

Lemma autoComment_peak env ps st :
  PeakUnset (db st) -> PeakUnset (db (autoComment env ps st)).
Proof.
  intros Hd. unfold autoComment.
  destruct (truthyOpt (p_first_comment ps) && (comment_posted (p_session ps) =? 0)%Z);
    [|exact Hd].
  destruct (15 <? now env - started_at (p_session ps))%Z; [|exact Hd].
  set (r := withTokenRecovery _ _ _ _).
  assert (Hr : PeakUnset (rc_db r)).
  { eapply PeakUnset_sessions; [apply withTokenRecovery_queue|exact Hd]. }
  destruct (rc_result r); cbn [withDb db]; [|exact Hr].
  apply PeakUnset_update; [intros s Hs; exact Hs|]. exact Hr.
Qed.

Lemma pollSession_peak env ps st :
  PeakUnset (db st) -> PeakUnset (db (pollSession env ps st)).
Proof.
  intros Hd. unfold pollSession.
  destruct (pages (db st) !! p_page_id ps); [|exact Hd].
  set (r := withTokenRecovery _ _ _ _).
  assert (Hr : PeakUnset (rc_db r)).
  { eapply PeakUnset_sessions; [apply withTokenRecovery_queue|exact Hd]. }
  destruct (rc_result r) as [info|e].
  - destruct (negb (isLiveStatus (fb_status info))).
    + apply stopStream_peak. cbn [withDb db].
      apply PeakUnset_update; [intros s Hs; exact Hs|]. exact Hr.
    + apply autoComment_peak. cbn [withDb db].
      apply PeakUnset_update; [apply PeakUnset_setPeak|].
      apply PeakUnset_update; [intros s Hs; exact Hs|]. exact Hr.
  - destruct (MAX_API_FAILURES <=? _)%Z.
    + apply stopStream_peak. cbn [withDb db].
      eapply PeakUnset_sessions; [apply sessions_updateJobStatus|].
      apply PeakUnset_update; [intros s Hs; exact Hs|]. exact Hr.
    + apply autoComment_peak. cbn [withDb db].
      apply PeakUnset_update; [intros s Hs; exact Hs|]. exact Hr.
Qed.

(** X25. The viewer peak is never recorded. The start sequence inserts its
    session rows without a peak, and the only statement that writes the
    column takes SQLite's [MAX] of the stored value and the current count,
    which is NULL when the stored value is NULL. So from a store in which no
    session holds a peak, every operation of the orchestrator (a poll, a
    start, an exit with the restart it asks for, a stop, a stop of all)
    yields a store in which no session holds one. *)
Theorem X25_viewer_peak_never_recorded (env : Env) (st : Orch) :
  PeakUnset (db st) ->
  (forall d, PeakUnset d -> PeakUnset (interleaved env d)) ->
  PeakUnset (db (pollViewerStats env st))
  /\ (forall job videoIndex, PeakUnset (db (sr_state (startStream env job videoIndex st))))
  /\ (forall job videoIndex code,
        PeakUnset (db (closeAndRestart env job videoIndex code st)))
  /\ (forall jobId, PeakUnset (db (stopStream (now env) jobId st)))
  /\ PeakUnset (db (stopAllStreams (now env) st)).
Proof.
  intros Hd Hi. split; [|split; [|split; [|split]]].
  - unfold pollViewerStats.
    destruct (settings (db st) !! "app_id"); [|exact Hd].
    destruct (settings (db st) !! "app_secret"); [|exact Hd].
    generalize (activeSessions (now env) (db st)). intros l. revert st Hd.
    induction l as [|ps l IH]; intros st Hd; [exact Hd|].
    cbn [fold_left]. apply IH, pollSession_peak, Hd.
  - intros job videoIndex. now apply startStream_peak.
  - intros job videoIndex code. unfold closeAndRestart.
    pose proof (onClose_peak (now env) job videoIndex code st Hd) as Hc.
    destruct (onClose (now env) job videoIndex code st) as [st1 act]. cbn [fst] in Hc.
    destruct act; [now apply startStream_peak|exact Hc|exact Hc].
  - intros jobId. now apply stopStream_peak.
  - now apply stopAllStreams_peak.
Qed.

End ViewerPeak.

Lemma X25_viewer_peak_witness :
  let j := Examples.job Live 1 None None in
  Invariants.PeakUnset
    (db (@pollViewerStats Examples.plainVault (Examples.env Examples.platform (fun d => d))
           (Examples.supervised (Examples.store j [Examples.session "s1" SLive None])))).
Proof.
  intros j.
  refine (proj1 (@X25_viewer_peak_never_recorded exampleNumber Examples.plainVault
                   (Examples.env Examples.platform (fun d => d))
                   (Examples.supervised (Examples.store j [Examples.session "s1" SLive None]))
                   _ _)).
  - intros s Hs. apply list_elem_of_singleton in Hs. subst s. reflexivity.
  - intros d Hd. exact Hd.
Defined.

Section Polling.
Context `{Vault}.

(** The auto-comment writes to the credentials and to the flag of the
    session, and to nothing else. *)
Lemma autoComment_frame env ps st :
  stream_queue (db (autoComment env ps st)) = stream_queue (db st)
  /\ activeStreams (autoComment env ps st) = activeStreams st
  /\ length (stream_sessions (db (autoComment env ps st))) = length (stream_sessions (db st)).
Proof.
  unfold autoComment.
  destruct (truthyOpt (p_first_comment ps) && (comment_posted (p_session ps) =? 0)%Z);
    [|repeat split].
  destruct (15 <? now env - started_at (p_session ps))%Z; [|repeat split].
  set (r := withTokenRecovery _ _ _ _).
  destruct (withTokenRecovery_queue (remote env) (p_page_id ps)
              (postComment (remote env)
                 (orStr (vod_video_id (p_session ps))
                    (default "null" (live_video_id (p_session ps))))
                 (default "" (p_first_comment ps))) (db st)) as [Hq Hs].
  fold r in Hq, Hs.
  destruct (rc_result r); cbn [withDb db activeStreams].
  - rewrite queue_updateSessions. split; [exact Hq|]. split; [reflexivity|].
    simpl. rewrite length_map, Hs. reflexivity.
  - split; [exact Hq|]. split; [reflexivity|]. rewrite Hs. reflexivity.
Qed.

(** X24. One poll of one live session whose destination is known. The
    failure counter of the session is afterwards 0 if the status query
    succeeded and one more than the polled value if it failed. Unless the
    query succeeded with a status other than [LIVE] and [LIVE_NOW], or
    failed with the incremented counter at the threshold, the poll leaves
    the queue, the supervision table and the number of sessions as they
    were: it stops nothing. *)
Theorem X24_poll_counter_and_frame (env : Env) (ps : Polled) (st : Orch) (pg : Page) :
  pages (db st) !! p_page_id ps = Some pg ->
  let r := withTokenRecovery (remote env) (p_page_id ps)
             (getLiveInfo (remote env) (default "null" (live_video_id (p_session ps))))
             (db st) in
  let st' := pollSession env ps st in
  let n := default 0%Z (api_fail_count (p_session ps)) in
  Spec.CountIs (s_id (p_session ps))
    (match rc_result r with Ok _ => 0 | Throw _ => n + 1 end)%Z (db st')
  /\ ((exists info, rc_result r = Ok info /\ isLiveStatus (fb_status info) = true)
      \/ (exists e, rc_result r = Throw e /\ (n + 1 < MAX_API_FAILURES)%Z) ->
      stream_queue (db st') = stream_queue (db st)
      /\ activeStreams st' = activeStreams st
      /\ length (stream_sessions (db st')) = length (stream_sessions (db st))).
Proof.
  intros Hpg r st' n. split; [exact (pollSession_counter env ps st pg Hpg)|].
  destruct (withTokenRecovery_queue (remote env) (p_page_id ps)
              (getLiveInfo (remote env) (default "null" (live_video_id (p_session ps))))
              (db st)) as [Hq Hs].
  fold r in Hq, Hs.
  intros [(info & Hr & Hlive)|(e & Hr & Hlt)]; subst st'; unfold pollSession;
    rewrite Hpg; fold r; rewrite Hr.
  - rewrite Hlive. cbn [negb].
    match goal with |- context [autoComment env ps ?s] =>
      destruct (autoComment_frame env ps s) as (Ha & Hb & Hc); rewrite Ha, Hb, Hc end.
    cbn [withDb db activeStreams]. rewrite !queue_updateSessions.
    split; [exact Hq|]. split; [reflexivity|]. simpl. rewrite !length_map, Hs. reflexivity.
  - apply Z.leb_gt in Hlt. fold n. rewrite Hlt.
    match goal with |- context [autoComment env ps ?s] =>
      destruct (autoComment_frame env ps s) as (Ha & Hb & Hc); rewrite Ha, Hb, Hc end.
    cbn [withDb db activeStreams]. rewrite !queue_updateSessions.
    split; [exact Hq|]. split; [reflexivity|]. simpl. rewrite !length_map, Hs. reflexivity.
Qed.

(** X26. The auto-comment is posted at most once per session: when the
    wrapped post succeeds, every row with the session's id carries the flag
    afterwards, and for a row that carries the flag the auto-comment step
    does nothing, whatever the time, the platform and the state. Without a
    configured comment the step does nothing either. *)
Theorem X26_comment_posted_once (env : Env) (ps : Polled) (st : Orch) :
  (forall commentId,
     truthyOpt (p_first_comment ps) = true ->
     comment_posted (p_session ps) = 0%Z ->
     (15 < now env - started_at (p_session ps))%Z ->
     rc_result (withTokenRecovery (remote env) (p_page_id ps)
                  (postComment (remote env)
                     (orStr (vod_video_id (p_session ps))
                        (default "null" (live_video_id (p_session ps))))
                     (default "" (p_first_comment ps))) (db st)) = Ok commentId ->
     forall s : Session, s ∈ stream_sessions (db (autoComment env ps st)) ->
       s_id s = s_id (p_session ps) ->
       comment_posted s = 1%Z
       /\ forall env' pageId comment st',
            autoComment env' {| p_session := s; p_page_id := pageId;
                                p_first_comment := comment |} st' = st')
  /\ (truthyOpt (p_first_comment ps) = false \/ comment_posted (p_session ps) <> 0%Z ->
      autoComment env ps st = st).
Proof.
  split.
  - intros commentId Hc Hz Hage Hres s Hs Hid. unfold autoComment in Hs.
    rewrite Hc, Hz in Hs. cbn [andb Z.eqb] in Hs.
    apply Z.ltb_lt in Hage. rewrite Hage, Hres in Hs. cbn [withDb db] in Hs.
    apply elem_of_updateSessions in Hs as [s0 [_ ->]].
    destruct (withId (s_id (p_session ps)) s0) eqn:E.
    + split; [reflexivity|]. intros env' pageId comment st'. unfold autoComment.
      cbn [p_session p_first_comment setCommentPosted sessionWith comment_posted Z.eqb].
      rewrite andb_false_r. reflexivity.
    + apply withId_true in Hid. congruence.
  - intros [Hn|Hn]; unfold autoComment.
    + rewrite Hn. reflexivity.
    + destruct (Z.eqb_spec (comment_posted (p_session ps)) 0); [contradiction|].
      rewrite andb_false_r. reflexivity.
Qed.

End Polling.

Lemma X24_poll_witness :
  let j := Examples.job Live 1 None None in
  let st := Examples.supervised (Examples.store j [Examples.session "s1" SLive (Some 2%Z)]) in
  let ps := {| p_session := Examples.session "s1" SLive (Some 2%Z); p_page_id := "page1";
               p_first_comment := None |} in
  Spec.CountIs "s1" 3
    (db (@pollSession Examples.plainVault (Examples.env Examples.offline (fun d => d)) ps st)).
Proof.
  intros j st ps.
  exact (proj1 (@X24_poll_counter_and_frame Examples.plainVault
                  (Examples.env Examples.offline (fun d => d)) ps st
                  (Examples.page "stale1") eq_refl)).
Defined.

Section Creation.

(** X27. The row that [stream:create] writes for a destination, as the
    orchestrator will treat it: with at least one selected video the first
    one is the content of the first start, every later start of the job
    takes one of the selected videos, and the stored playlist is kept only
    for two or more videos; the job is queued with a zero recovery counter,
    so without a schedule it passes the admission test at any time; and the
    job is looped inside FFmpeg exactly when a single video was selected and
    the loop setting is 1, which is also its default. *)
Theorem X27_created_job (a : Ipc.CreateArgs) (now : Z) (uuid pageId v : string)
  (rest : list string) :
  Ipc.ca_videoIds a = v :: rest ->
  let j := Ipc.newJob a now uuid pageId v in
  currentVideoId j 0 = Some v
  /\ (forall i, (0 <= i)%Z -> exists w, currentVideoId j i = Some w /\ w ∈ v :: rest)
  /\ (playlist j = None <-> rest = [])
  /\ (Ipc.ca_scheduledTime a = None -> forall t, admissible t j = true)
  /\ (shouldLoopFfmpeg j = true <-> rest = [] /\ default 1%Z (Ipc.ca_loop a) = 1%Z)
  /\ (Ipc.ca_loop a = None -> loop j = 1%Z).
Proof.
  intros Hv j.
  assert (Hpl : playlist j = match rest with [] => None | _ => Some (v :: rest) end).
  { subst j. cbn [Ipc.newJob playlist]. rewrite Hv. destruct rest; reflexivity. }
  split; [|split; [|split; [|split; [|split]]]].
  - unfold currentVideoId. rewrite Hpl. destruct rest; reflexivity.
  - intros i Hi. destruct rest as [|v2 rest].
    + exists v. split; [unfold currentVideoId; rewrite Hpl; reflexivity|apply list_elem_of_here].
    + destruct (currentVideoId_playlist j i (v :: v2 :: rest) Hpl ltac:(discriminate) Hi)
        as (_ & Hex & _). exact Hex.
  - rewrite Hpl. destruct rest; split; intros Hx; try reflexivity; discriminate.
  - intros Hs t. unfold admissible. subst j.
    cbn [Ipc.newJob status scheduled_time recovery_attempts]. rewrite Hs. reflexivity.
  - unfold shouldLoopFfmpeg. rewrite Hpl. subst j. cbn [Ipc.newJob loop].
    destruct rest as [|v2 rest]; cbn [andb length Nat.eqb].
    + rewrite Z.eqb_eq. tauto.
    + split; [discriminate|]. intros [Hc _]. discriminate.
  - intros Hl. subst j. cbn [Ipc.newJob loop]. rewrite Hl. reflexivity.
Qed.

End Creation.

Section ErrorTexts.
Import Facebook.

(** X28. The two readings of one platform error agree: for a thrown value
    whose error body carries a non-empty message, the recovery wrapper of
    the orchestrator treats it as an expiry exactly when [extractError]
    answers with one of its two credential texts; every other answer starts
    with [Facebook ], and in no such case does [extractError] throw. *)
Theorem X28_expiry_texts_agree (e : ApiError) (err : GraphError) (msg : string) :
  api_error e = Some err -> ge_message err = Some msg -> truthy msg = true ->
  (isExpired (asThrown e) = true
   <-> extractError e = Ok sessionExpiredText \/ extractError e = Ok invalidTokenText)
  /\ (isExpired (asThrown e) = false ->
      exists text, extractError e = Ok text /\ startsWith text "Facebook " = true)
  /\ exists text, extractError e = Ok text.
Proof.
  intros He Hm Ht.
  assert (Hexp : isExpired (asThrown e)
                 = includes msg "Session has expired"
                   || includes msg "Error validating access token").
  { unfold isExpired, asThrown. cbn [response_message message]. rewrite He. cbn [mbind option_bind].
    rewrite Hm, Ht. reflexivity. }
  rewrite Hexp. unfold extractError. rewrite He, Hm.
  destruct (includes msg "Session has expired") eqn:E1; cbn [orb].
  { split; [split; [left; reflexivity|reflexivity]|]. split; [discriminate|eauto]. }
  destruct (includes msg "Error validating access token") eqn:E2.
  { split; [split; [right; reflexivity|reflexivity]|]. split; [discriminate|eauto]. }
  assert (Hother : forall text,
            startsWith text "Facebook " = true ->
            (false = true <-> Ok text = Ok sessionExpiredText \/ Ok text = Ok invalidTokenText)
            /\ (false = false -> exists text', Ok text = Ok text'
                                 /\ startsWith text' "Facebook " = true)
            /\ exists text', @Ok string text = Ok text').
  { intros text Hs. split; [|split; [eauto|eauto]].
    split; [discriminate|]. intros [[= ->]|[= ->]]; discriminate Hs. }
  destruct (codeIs (ge_code err) 100); [apply Hother; reflexivity|].
  destruct (codeIs (ge_code err) 200); apply Hother; reflexivity.
Qed.

End ErrorTexts.

Lemma X27_created_job_witness :
  let a := {| Ipc.ca_pageIds := ["page1"]; Ipc.ca_videoIds := ["v1"];
              Ipc.ca_editingProfileId := None; Ipc.ca_titleTemplate := None;
              Ipc.ca_descriptionTemplate := None; Ipc.ca_firstComment := None;
              Ipc.ca_scheduledTime := None; Ipc.ca_loop := None |} in
  shouldLoopFfmpeg (Ipc.newJob a 10 "job1" "page1" "v1") = true.
Proof.
  intros a.
  destruct (X27_created_job a 10 "job1" "page1" "v1" [] eq_refl)
    as (_ & _ & _ & _ & Hl & _).
  apply Hl. split; reflexivity.
Defined.

Lemma X28_expiry_texts_witness :
  let e := {| Facebook.api_message := "Request failed with status code 400";
              Facebook.api_error :=
                Some {| Facebook.ge_message :=
                          Some "Error validating access token: Session has expired";
                        Facebook.ge_code := Some 190%Z |} |} in
  Facebook.extractError e = Ok Facebook.sessionExpiredText
  \/ Facebook.extractError e = Ok Facebook.invalidTokenText.
Proof.
  intros e.
  exact (proj1 (proj1 (X28_expiry_texts_agree e _ _ eq_refl eq_refl eq_refl)) eq_refl).
Defined.
